(** * snow-portal: the backend proxy (backend/server.js)

    A shallow embedding of the request handlers of the proxy and of the
    helpers they are built from: the upstream client [sn], the session
    check [requireAuth], the reference resolver [resolveRef], the display
    name cache [_resolveDisplayName], the activity reconciler and the
    record update pipeline; then the group lookup [getUserGroups], the
    login, and the handlers of the lists, the approvals, the records and
    the typeahead.

    Conventions of the embedding.
    - A JavaScript string is the list of its UTF-8 bytes ([string]).
      [trim] removes the white space of the language, above the ASCII
      range too; [toLowerCase], whose result the program only compares
      with ASCII words, is exact on the code points that lower into the
      ASCII range; [toUpperCase], whose result is shown, is a variable.
    - A JavaScript value is a [JVal]: what [JSON.parse] can produce, plus
      [undefined].  A number is held as the string [String(n)] prints
      for it, whole or fractional, in exponent notation where the
      language uses it.
    - An [async] function is a computation [M A]: it threads the [World]
      (the exchanges with the upstream instance, the clock, the display
      name cache) and ends in a value or in a thrown [Err].
    - Built-ins whose result is decided outside the program ([JSON.parse],
      [JSON.stringify], [encodeURIComponent], [localeCompare],
      [toUpperCase]), the
      environment variables and the upstream instance itself are the
      variables of the section [Server]. *)

From Stdlib Require Import ZArith Lia String Ascii List DecimalString.
From stdpp Require Import base option list strings gmap sorting.

Open Scope Z_scope.

(** ** Strings *)

Definition lower_ascii (c : ascii) : ascii :=
  let n := nat_of_ascii c in
  if ((65 <=? n) && (n <=? 90))%nat then ascii_of_nat (n + 32) else c.

Definition bytes_are (l : list nat) (s : list ascii) : bool :=
  bool_decide (nat_of_ascii <$> s = l).

(** [s.toLowerCase()].  Three kinds of code point lower to a string with
    an ASCII letter in it: the ASCII capitals, U+212A KELVIN SIGN (bytes
    E2 84 AA), which lowers to k, and U+0130 (bytes C4 B0), which lowers
    to i followed by U+0307 (bytes CC 87).  Every other code point above
    the ASCII range lowers to code points above it; the program only
    compares a lowered string with words of ASCII letters, and such a
    code point is kept as it is. *)
Fixpoint toLowerCase (s : string) : string :=
  match s with
  | EmptyString => EmptyString
  | String a s1 =>
      match s1 with
      | String b s2 =>
          if bytes_are [196; 176]%nat [a; b]
          then String "i" (String "204" (String "135" (toLowerCase s2)))
          else
            match s2 with
            | String c s3 =>
                if bytes_are [226; 132; 170]%nat [a; b; c]
                then String "k" (toLowerCase s3)
                else String (lower_ascii a) (toLowerCase s1)
            | EmptyString => String (lower_ascii a) (toLowerCase s1)
            end
      | EmptyString => String (lower_ascii a) EmptyString
      end
  end.

(** The white space and the line terminators of [trim], by their UTF-8
    bytes: U+0009 to U+000D and U+0020; U+00A0; U+1680, U+2000 to U+200A,
    U+2028, U+2029, U+202F, U+205F, U+3000 and U+FEFF. *)
Definition blank1 (a : ascii) : bool :=
  let n := nat_of_ascii a in
  ((9 <=? n) && (n <=? 13) || (n =? 32))%nat.

Definition blank2 (a b : ascii) : bool := bytes_are [194; 160]%nat [a; b].

Definition blank3 (a b c : ascii) : bool :=
  let x := nat_of_ascii a in
  let y := nat_of_ascii b in
  let z := nat_of_ascii c in
  ((x =? 225) && (y =? 154) && (z =? 128)
   || (x =? 226) && (y =? 128) &&
      ((128 <=? z) && (z <=? 138) || (z =? 168) || (z =? 169) || (z =? 175))
   || (x =? 226) && (y =? 129) && (z =? 159)
   || (x =? 227) && (y =? 128) && (z =? 128)
   || (x =? 239) && (y =? 187) && (z =? 191))%nat.

(** A string that is one white-space code point. *)
Definition is_blank (u : string) : bool :=
  match u with
  | String a EmptyString => blank1 a
  | String a (String b EmptyString) => blank2 a b
  | String a (String b (String c EmptyString)) => blank3 a b c
  | _ => false
  end.

(** [s.trim()] *)
Fixpoint trimStart (s : string) : string :=
  match s with
  | EmptyString => EmptyString
  | String a s1 =>
      if blank1 a then trimStart s1 else
      match s1 with
      | String b s2 =>
          if blank2 a b then trimStart s2 else
          match s2 with
          | String c s3 => if blank3 a b c then trimStart s3 else s
          | EmptyString => s
          end
      | EmptyString => s
      end
  end.

Fixpoint trimEnd (s : string) : string :=
  match s with
  | EmptyString => EmptyString
  | String c s' =>
      let u := String c (trimEnd s') in
      if is_blank u then EmptyString else u
  end.

Definition trim (s : string) : string := trimEnd (trimStart s).

(** [s.slice(n)] *)
Fixpoint string_drop (n : nat) (s : string) : string :=
  match n, s with
  | O, _ => s
  | S n', String _ s' => string_drop n' s'
  | S _, EmptyString => EmptyString
  end.

Definition startsWith (s p : string) : bool := String.prefix p s.

Definition nonempty (s : string) : bool := negb (String.eqb s "").

Definition is_hex (c : ascii) : bool :=
  let n := nat_of_ascii c in
  (((48 <=? n) && (n <=? 57)) || ((97 <=? n) && (n <=? 102)) ||
   ((65 <=? n) && (n <=? 70)))%nat.

(** [SYSID_RE = /^[0-9a-f]{32}$/i], applied to a string. *)
Definition SYSID_RE_test (s : string) : bool :=
  (String.length s =? 32)%nat && forallb is_hex (list_ascii_of_string s).

(** [String(n)] for an integer [n] below 10^21 in size: an HTTP status. *)
Definition num_to_string (n : Z) : string := NilZero.string_of_int (Z.to_int n).

(** The two literals the source renders with: the placeholder for an empty
    value and the arrow between the old and the new value, byte for byte
    as they stand in server.js. *)
Definition placeholder : string := "â€”".
Definition arrow : string := "â†’".

(** ** JavaScript values *)

#[warnings="-register-all"]
Inductive JVal : Type :=
| JUndefined
| JNull
| JBool (b : bool)
| JNum (form : string)
| JStr (s : string)
| JArr (xs : list JVal)
| JObj (props : list (string * JVal)).

(** The own properties of an object are kept in insertion order, each key
    once; [own k] reads the property [k]. *)
Fixpoint own (k : string) (props : list (string * JVal)) : option JVal :=
  match props with
  | [] => None
  | (k', v) :: ps => if String.eqb k k' then Some v else own k ps
  end.

Definition truthy (x : JVal) : bool :=
  match x with
  | JUndefined | JNull => false
  | JBool b => b
  | JNum form => negb (String.eqb form "0" || String.eqb form "NaN")
  | JStr s => nonempty s
  | JArr _ | JObj _ => true
  end.

(** [a || b] *)
Definition js_or (a b : JVal) : JVal := if truthy a then a else b.

(** [x?.k], for the property names this program reads: none of them is a
    built-in property of a string, a number, a boolean or an array. *)
Definition oprop (x : JVal) (k : string) : JVal :=
  match x with
  | JObj ps => default JUndefined (own k ps)
  | _ => JUndefined
  end.

(** Thrown values.  [err_httpStatus] and [err_raw] are the two fields [sn]
    adds to the errors it raises. *)
Record Err : Type := mkErr {
  err_name : string;
  err_message : string;
  err_httpStatus : option Z;
  err_raw : option string;
}.

Definition newError (msg : string) : Err := mkErr "Error" msg None None.
Definition typeError (msg : string) : Err := mkErr "TypeError" msg None None.

(** [String(e?.message || e)] for a thrown error [e]. *)
Definition err_detail (e : Err) : string :=
  if nonempty (err_message e) then err_message e
  else if nonempty (err_name e) then err_name e else "".

Inductive Res (A : Type) : Type :=
| Ok (a : A)
| Throw (e : Err).
Arguments Ok {A} a.
Arguments Throw {A} e.

(** [x.k]: reading a property of [null] or [undefined] throws. *)
Definition prop (x : JVal) (k : string) : Res JVal :=
  match x with
  | JUndefined =>
      Throw (typeError ("Cannot read properties of undefined (reading '" +:+ k +:+ "')"))
  | JNull =>
      Throw (typeError ("Cannot read properties of null (reading '" +:+ k +:+ "')"))
  | _ => Ok (oprop x k)
  end.

(** [String(x)], also what a template literal and [x.toString()] compute
    on these values.  [None] is the TypeError of an object that carries an
    own [toString] property, which a parsed document cannot make callable.
    An array is joined with commas, [null] and [undefined] elements
    giving the empty string. *)
Fixpoint js_String (x : JVal) : option string :=
  match x with
  | JUndefined => Some "undefined"
  | JNull => Some "null"
  | JBool true => Some "true"
  | JBool false => Some "false"
  | JNum form => Some form
  | JStr s => Some s
  | JArr xs =>
      let elem (y : JVal) : option string :=
        match y with
        | JUndefined | JNull => Some ""
        | _ => js_String y
        end in
      (fix join (ys : list JVal) : option string :=
         match ys with
         | [] => Some ""
         | [y] => elem y
         | y :: rest =>
             match elem y with
             | Some s => match join rest with
                         | Some t => Some (s +:+ "," +:+ t)
                         | None => None
                         end
             | None => None
             end
         end) xs
  | JObj ps =>
      match own "toString" ps with
      | Some _ => None
      | None => Some "[object Object]"
      end
  end.

Definition cannot_convert : Err := typeError "Cannot convert object to primitive value".

Definition toStr (x : JVal) : Res string :=
  match js_String x with
  | Some s => Ok s
  | None => Throw cannot_convert
  end.

(** ** Helpers of server.js *)

Definition isSysId (s : JVal) : bool :=
  match s with
  | JStr s => SYSID_RE_test s
  | _ => false
  end.

(** [pickId]: [v && typeof v === 'object' && 'value' in v ? v.value : v] *)
Definition pickId (v : JVal) : JVal :=
  match v with
  | JObj ps => match own "value" ps with Some x => x | None => v end
  | _ => v
  end.

(** [String(x)] under its [try]: the empty string for "[object Object]"
    and for a conversion that throws. *)
Definition string_form (x : JVal) : string :=
  match js_String x with
  | Some s => if String.eqb s "[object Object]" then "" else s
  | None => ""
  end.

(** [unwrapAuditVal]: the inner [deep] walks the label-bearing keys in
    their order of priority, then a single remaining key, then the
    generic string form.  Its last line, for values that are neither
    primitive nor objects, has no case here: a [JVal] is never a
    function, a symbol or a bigint. *)
Fixpoint deep (x : JVal) : string :=
  match x with
  | JUndefined | JNull => ""
  | JBool _ | JNum _ | JStr _ => default "" (js_String x)
  | JArr xs =>
      match xs with
      | [v] => deep v
      | _ => string_form x
      end
  | JObj ps =>
      let fix at_key (k : string) (qs : list (string * JVal)) : option string :=
        match qs with
        | [] => None
        | (k', v) :: qs' => if String.eqb k k' then Some (deep v) else at_key k qs'
        end in
      match at_key "display_value" ps with
      | Some s => s
      | None =>
      match at_key "value" ps with
      | Some s => s
      | None =>
      match at_key "name" ps with
      | Some s => s
      | None =>
      match at_key "user_name" ps with
      | Some s => s
      | None =>
          match ps with
          | [(_, v)] => deep v
          | _ => string_form x
          end
      end end end end
  end.

Definition unwrapAuditVal (v : JVal) : string := trim (deep v).

(** ** The world of a handler *)

Record Creds : Type := mkCreds {
  instance : string;
  username : string;
  password : string;
}.

(** One HTTP request to the upstream instance: the credential of its
    Basic authorization header, the method, the URL and the JSON body. *)
Record Request : Type := mkRequest {
  rq_auth : Creds;
  rq_method : string;
  rq_url : string;
  rq_body : option JVal;
}.

(** [rs_text] is [None] when reading the body fails. *)
Record Response : Type := mkResponse {
  rs_status : Z;
  rs_statusText : string;
  rs_text : option string;
}.

(** What [fetch] does with a request: it rejects (network fault, abort on
    timeout) or resolves with a response, after [elapsed] milliseconds. *)
Inductive Reply : Type :=
| Rejected (e : Err) (elapsed : Z)
| Responded (r : Response) (elapsed : Z).

Definition elapsed_of (r : Reply) : Z :=
  match r with
  | Rejected _ t | Responded _ t => t
  end.

(** An entry of [_nameCache]. *)
Record CacheEntry : Type := mkEntry {
  ce_name : JVal;
  ce_exp : Z;
}.

(** [calls] lists the calls made through [sn] and [fetched] the HTTP
    requests sent, both oldest first; [clock] is what [Date.now()] reads;
    [nameCache] is the process-wide [_nameCache]. *)
Record World : Type := mkWorld {
  calls : list Request;
  fetched : list Request;
  clock : Z;
  nameCache : gmap string CacheEntry;
}.

Definition M (A : Type) : Type := World → Res A * World.

Definition ret {A} (a : A) : M A := fun w => (Ok a, w).
Definition throw {A} (e : Err) : M A := fun w => (Throw e, w).
Definition lift {A} (r : Res A) : M A := fun w => (r, w).

Definition bind {A B} (m : M A) (k : A → M B) : M B :=
  fun w =>
    match m w with
    | (Ok a, w') => k a w'
    | (Throw e, w') => (Throw e, w')
    end.

(** [try { m } catch (e) { h e }] *)
Definition try_catch {A} (m : M A) (h : Err → M A) : M A :=
  fun w =>
    match m w with
    | (Ok a, w') => (Ok a, w')
    | (Throw e, w') => h e w'
    end.

Notation "'let*' x ':=' m 'in' k" := (bind m (fun x => k))
  (at level 10, x name, m at level 100, k at level 200).

Fixpoint mapM {A B} (f : A → M B) (l : list A) : M (list B) :=
  match l with
  | [] => ret []
  | x :: l' =>
      let* y := f x in
      let* ys := mapM f l' in
      ret (y :: ys)
  end.

Definition log_call (rq : Request) : M unit :=
  fun w => (Ok tt, mkWorld (calls w ++ [rq]) (fetched w) (clock w) (nameCache w)).

Definition sleep (ms : Z) : M unit :=
  fun w => (Ok tt, mkWorld (calls w) (fetched w) (clock w + ms) (nameCache w)).

Definition now : M Z := fun w => (Ok (clock w), w).

Definition cache_get (key : string) : M (option CacheEntry) :=
  fun w => (Ok (nameCache w !! key), w).

Definition cache_set (key : string) (e : CacheEntry) : M unit :=
  fun w => (Ok tt, mkWorld (calls w) (fetched w) (clock w) (<[key := e]> (nameCache w))).

Record SnOpts : Type := mkOpts {
  returnRaw : bool;
  timeoutMs : Z;
  retries : Z;
}.

Definition default_opts : SnOpts := mkOpts false 15000 1.

Inductive SnOut : Type :=
| SnData (d : JVal)
| SnRaw (r : Response).

(** A session of the [sessions] map. *)
Record Session : Type := mkSession {
  user : JVal;
  via : string;
  creds : Creds;
  userSysId : JVal;
  groups : list JVal;
}.

(** The part of an Express request [requireAuth] reads: the Authorization
    header, if any, and the parsed query string. *)
Record AuthInput : Type := mkAuthInput {
  authorization : option string;
  query : JVal;
}.

(** What a handler answers: the HTTP status and the JSON document. *)
Record HttpReply : Type := mkHttp {
  http_status : Z;
  http_json : JVal;
}.

Inductive AuthResult : Type :=
| Rejected401 (r : HttpReply)
| Next (session : Session) (token : string).

(** An entry of the narrative, before rendering. *)
Record Entry : Type := mkEntryRow {
  ts : JVal;
  by_ : JVal;
  type_ : string;
  text : string;
}.

Definition failure_body (message detail : string) : JVal :=
  JObj [("ok", JBool false);
        ("error", JObj [("message", JStr message); ("detail", JStr detail)]);
        ("status", JStr "failure")].

Definition NAME_TTL_MS : Z := 5 * 60 * 1000.

(** [requireAuth]: the bearer token of the header, else the [token] of
    the query string, looked up in [sessions]. *)
Definition requireAuth (sessions : gmap string Session) (req : AuthInput) : AuthResult :=
  let h := default "" (authorization req) in
  let token := if startsWith h "Bearer " then JStr (string_drop 7 h)
               else js_or (oprop (query req) "token") (JStr "") in
  let session :=
    if truthy token then
      match token with
      | JStr t => (fun s => (s, t)) <$> sessions !! t
      | _ => None
      end
    else None in
  match session with
  | None =>
      Rejected401 (mkHttp 401
        (JObj [("ok", JBool false);
               ("error", JObj [("message", JStr "User Not Authenticated");
                               ("detail", JStr "Required to provide Auth information")]);
               ("status", JStr "failure")]))
  | Some (s, t) => Next s t
  end.

(** [contributorFromSession] *)
Definition contributorFromSession (session : Session) : JVal :=
  let u := user session in
  if negb (truthy u) then JStr "unknown" else
  js_or (oprop (oprop u "user_name") "display_value")
  (js_or (oprop u "user_name")
  (js_or (oprop (oprop u "email") "display_value")
  (js_or (oprop u "email")
  (js_or (oprop (oprop u "name") "display_value")
  (js_or (oprop u "name")
         (JStr "unknown")))))).

Section Server.

(** The environment of the process. *)
Variables SN_INSTANCE SN_USERNAME SN_PASSWORD USE_ADMIN_FOR_ALL : string.

(** [JSON.parse] ([None] when it throws), [JSON.stringify],
    [encodeURIComponent], [a.localeCompare(b)] and [s.toUpperCase()]. *)
Variable JSON_parse : string → option JVal.
Variable JSON_stringify : JVal → string.
Variable encodeURIComponent : string → string.
Variable localeCompare : string → string → Z.
Variable toUpperCase : string → string.

(** The upstream instance: its reply to the [n]-th request sent. *)
Variable upstream : nat → Request → Reply.

Definition adminCreds : Creds := mkCreds SN_INSTANCE SN_USERNAME SN_PASSWORD.

Definition fetch (rq : Request) : M Reply :=
  fun w =>
    let reply := upstream (length (fetched w)) rq in
    (Ok reply,
     mkWorld (calls w) (fetched w ++ [rq]) (clock w + elapsed_of reply) (nameCache w)).

Definition res_ok (res : Response) : bool :=
  (200 <=? rs_status res) && (rs_status res <=? 299).

(** [text ? JSON.parse(text) : {}], with [{}] when parsing throws. *)
Definition parse_data (text : string) : JVal :=
  if nonempty text then default (JObj []) (JSON_parse text) else JObj [].

Definition is_failure_marker (v : JVal) : bool :=
  match v with
  | JStr s => String.eqb s "failure"
  | _ => false
  end.

Definition sn_detail (res : Response) (text : string) (data : JVal) : JVal :=
  js_or (oprop (oprop data "error") "detail")
  (js_or (oprop (oprop data "error") "message")
  (js_or (oprop data "error")
  (js_or (JStr text)
         (JStr ("HTTP " +:+ num_to_string (rs_status res) +:+ " " +:+ rs_statusText res))))).

Definition sn_error (res : Response) (text : string) (data : JVal) : Err :=
  let detail := sn_detail res text data in
  mkErr "Error"
        (match detail with JStr s => s | _ => JSON_stringify detail end)
        (Some (rs_status res)) (Some text).

(** The [while (attempt <= retries)] loop of [sn].  [k] is
    [retries - attempt], so the test [attempt < retries] is [k] being a
    successor.  A failure response that is not retried as a 5xx is thrown
    inside the [try] block, and so is handled by its [catch] like a
    rejected [fetch]. *)
Fixpoint sn_attempts (opts : SnOpts) (rq : Request) (k : nat) (attempt : Z) : M SnOut :=
  let attempt_lt_retries := match k with O => false | S _ => true end in
  let continue : M SnOut :=
    match k with
    | S k' =>
        let* _ := sleep (100 * 2 ^ (attempt + 1)) in
        sn_attempts opts rq k' (attempt + 1)
    | O => throw (newError "Unknown error")
    end in
  let catch (e : Err) : M SnOut :=
    if attempt_lt_retries then continue else throw e in
  let* reply := fetch rq in
  match reply with
  | Rejected e _ => catch e
  | Responded res _ =>
      if returnRaw opts then ret (SnRaw res) else
      let text := default "" (rs_text res) in
      let data := parse_data text in
      if res_ok res && negb (is_failure_marker (oprop data "status"))
                    && negb (truthy (oprop data "error"))
      then ret (SnData data)
      else if (500 <=? rs_status res) && attempt_lt_retries then continue
      else catch (sn_error res text data)
  end.

(** The request [sn] builds from its arguments. *)
Definition request_of (using_ : Creds) (method pathWithQuery : string) (body : option JVal)
    : Request :=
  mkRequest using_ method ("https://" +:+ SN_INSTANCE +:+ pathWithQuery) body.

(** [sn(using, method, pathWithQuery, body, opts)] *)
Definition sn_opts (using_ : Creds) (method pathWithQuery : string) (body : option JVal)
    (opts : SnOpts) : M SnOut :=
  let rq := request_of using_ method pathWithQuery body in
  let* _ := log_call rq in
  if retries opts <? 0 then throw (newError "Unknown error")
  else sn_attempts opts rq (Z.to_nat (retries opts)) 0.

(** [sn] as every call site of server.js uses it: [opts] left out, so the
    parsed document is returned. *)
Definition sn (using_ : Creds) (method pathWithQuery : string) (body : option JVal) : M JVal :=
  let* out := sn_opts using_ method pathWithQuery body default_opts in
  match out with
  | SnData d => ret d
  | SnRaw _ => ret JUndefined
  end.

Definition pickActingCreds (session : Session) : Creds :=
  if String.eqb (toLowerCase USE_ADMIN_FOR_ALL) "true" then adminCreds
  else creds session.

(** [resolveRef] *)
Definition resolveRef (using_ : Creds) (forceTable : string) (displayOrId : JVal) : M JVal :=
  let candidate := pickId displayOrId in
  if negb (truthy candidate) then ret candidate else
  if isSysId candidate then ret candidate else
  let* c := lift (toStr candidate) in
  let v := encodeURIComponent c in
  let '(table, q, fields) :=
    if String.eqb forceTable "sys_user" then
      ("sys_user",
       "user_name=" +:+ v +:+ "^ORname=" +:+ v +:+ "^ORemail=" +:+ v +:+
       "^ORuser_nameLIKE" +:+ v +:+ "^ORnameLIKE" +:+ v +:+ "^ORemailLIKE" +:+ v,
       "sys_id,name,user_name,email")
    else
      ("sys_user_group",
       "name=" +:+ v +:+ "^ORnameLIKE" +:+ v,
       "sys_id,name") in
  let* data := sn using_ "GET"
    ("/api/now/table/" +:+ table +:+ "?sysparm_fields=" +:+ fields +:+
     "&sysparm_limit=1&sysparm_query=" +:+ q) None in
  let hit :=
    match oprop data "result" with
    | JArr (x :: _) => x
    | JArr [] => JUndefined
    | _ => JBool false
    end in
  ret (js_or (oprop hit "sys_id") candidate).

(** The key of [_nameCache] for an entity: [`${table}:${sys_id}`]. *)
Definition cache_key (table id : string) : string := table +:+ ":" +:+ id.

(** [_resolveDisplayName], for an identifier that is a string or [null]
    as at its call sites.  [resolve_start] runs up to the first [await]:
    it answers at once ([inl]) or leaves the fetch to [resolve_finish]
    ([inr], with the cache key and the time read). *)
Definition resolve_start (table : string) (sys_id : option string)
    : M (JVal + (string * string * Z)) :=
  match sys_id with
  | None => ret (inl (JStr placeholder))
  | Some id =>
      if negb (nonempty id) then ret (inl (JStr placeholder)) else
      let key := cache_key table id in
      let* t := now in
      let* hit := cache_get key in
      match hit with
      | Some h => if t <? ce_exp h then ret (inl (ce_name h)) else ret (inr (key, id, t))
      | None => ret (inr (key, id, t))
      end
  end.

Definition display_name_path (table id : string) : string :=
  let fields := if String.eqb table "sys_user" then "name,user_name" else "name" in
  "/api/now/table/" +:+ table +:+ "/" +:+ id +:+
  "?sysparm_display_value=all&sysparm_fields=" +:+ fields.

(** [r?.result?.name || r?.result?.user_name || sys_id] *)
Definition label_of (r : JVal) (id : string) : JVal :=
  js_or (oprop (oprop r "result") "name")
  (js_or (oprop (oprop r "result") "user_name") (JStr id)).

Definition resolve_finish (using_ : Creds) (table : string) (p : string * string * Z) : M JVal :=
  let '(key, id, t) := p in
  try_catch
    (let* r := sn using_ "GET" (display_name_path table id) None in
     let nm := label_of r id in
     let* _ := cache_set key (mkEntry nm (t + NAME_TTL_MS)) in
     ret nm)
    (fun _ => ret (JStr id)).

Definition _resolveDisplayName (using_ : Creds) (table : string) (sys_id : option string)
    : M JVal :=
  let* s := resolve_start table sys_id in
  match s with
  | inl label => ret label
  | inr p => resolve_finish using_ table p
  end.

Definition from_nullable (v : option string) : JVal :=
  match v with
  | Some s => JStr s
  | None => JStr placeholder
  end.

(** [resolveAssignedDisplay].  [Promise.all] starts both resolutions
    before either fetch completes, so both read the clock and the cache
    as they are at the call; the upstream exchanges then follow, those of
    the old value first. *)
Definition resolveAssignedDisplay (using_ : Creds) (fieldname : string)
    (oldVal newVal : option string) : M (JVal * JVal) :=
  let both (table : string) : M (JVal * JVal) :=
    let* so := resolve_start table oldVal in
    let* sn_ := resolve_start table newVal in
    let* o := match so with inl l => ret l | inr p => resolve_finish using_ table p end in
    let* n := match sn_ with inl l => ret l | inr p => resolve_finish using_ table p end in
    ret (o, n) in
  if String.eqb fieldname "assigned_to" then both "sys_user"
  else if String.eqb fieldname "assignment_group" then both "sys_user_group"
  else ret (from_nullable oldVal, from_nullable newVal).

(** *** The activity reconciler: GET /api/record/:table/:sys_id/activity *)

Definition nl : string := String "010" EmptyString.

Definition rbind {A B} (r : Res A) (k : A → Res B) : Res B :=
  match r with
  | Ok a => k a
  | Throw e => Throw e
  end.

Notation "'let?' x ':=' r 'in' k" := (rbind r (fun x => k))
  (at level 10, x name, r at level 100, k at level 200).

Fixpoint mapR {A B} (f : A → Res B) (l : list A) : Res (list B) :=
  match l with
  | [] => Ok []
  | x :: l' =>
      let? y := f x in
      let? ys := mapR f l' in
      Ok (y :: ys)
  end.

(** The code points of a string: a byte [10xxxxxx] continues the code
    point of the byte before it. *)
Definition is_continuation (c : ascii) : bool :=
  let n := nat_of_ascii c in ((128 <=? n) && (n <? 192))%nat.

Fixpoint code_points (s : string) : list string :=
  match s with
  | EmptyString => []
  | String c s' =>
      match s' with
      | String d _ =>
          if is_continuation d then
            match code_points s' with
            | g :: gs => String c g :: gs
            | [] => [String c EmptyString]
            end
          else String c EmptyString :: code_points s'
      | EmptyString => [String c EmptyString]
      end
  end.

(** [for (const r of x)]: an array gives its elements and a string its
    code points; nothing else here is iterable. *)
Definition iterate (x : JVal) : Res (list JVal) :=
  match x with
  | JArr xs => Ok xs
  | JStr s => Ok (JStr <$> code_points s)
  | _ => Throw (typeError "object is not iterable")
  end.

(** The receiver of [.filter(...)]: only an array has the method. *)
Definition as_array (x : JVal) : Res (list JVal) :=
  match x with
  | JArr xs => Ok xs
  | _ => Throw (typeError "filter is not a function")
  end.

(** One row of the journal feed. *)
Definition journalEntry (r : JVal) : Res Entry :=
  let? element := prop r "element" in
  let? e := toStr (js_or element (JStr "")) in
  let type := toUpperCase e in
  let? v := toStr (js_or (oprop r "value") (JStr "")) in
  let body := trim v in
  let? author := toStr (oprop r "sys_created_by") in
  let tag := " #Cont. by " +:+ author in
  let text := if nonempty body then body +:+ tag else tag in
  Ok (mkEntryRow (oprop r "sys_created_on") (oprop r "sys_created_by") type text).

(** [String(x.fieldname || '').toLowerCase()] *)
Definition field_lower (x : JVal) : Res string :=
  let? fieldname := prop x "fieldname" in
  let? f := toStr (js_or fieldname (JStr "")) in
  Ok (toLowerCase f).

(** The members of [stateSeenAt], in the order of the feed. *)
Fixpoint stateSeenAt (rows : list JVal) : Res (list JVal) :=
  match rows with
  | [] => Ok []
  | x :: rest =>
      let? fl := field_lower x in
      let? seen := stateSeenAt rest in
      Ok (if String.eqb fl "state" then oprop x "sys_created_on" :: seen else seen)
  end.

(** SameValueZero between a member of the set and the value looked up.
    Two numbers are the same when they print alike: NaN is NaN, and both
    zeros print 0.  Two arrays or objects are the same value only when
    they are one object, which values of different rows of a parsed
    document never are. *)
Definition same_value_zero (a b : JVal) : bool :=
  match a, b with
  | JUndefined, JUndefined => true
  | JNull, JNull => true
  | JBool x, JBool y => Bool.eqb x y
  | JNum x, JNum y => String.eqb x y
  | JStr x, JStr y => String.eqb x y
  | _, _ => false
  end.

(** [stateSeenAt.has(v)] *)
Definition seen_has (seen : list JVal) (v : JVal) : bool :=
  existsb (same_value_zero v) seen.

(** [raw === '' || raw == null ? placeholder : String(raw)] *)
Definition shown (raw : string) : string :=
  if String.eqb raw "" then placeholder else raw.

Definition or_placeholder (raw : string) : JVal := JStr (shown raw).

Definition as_sys_id (raw : string) : option string :=
  if SYSID_RE_test raw then Some raw else None.

(** The old and the new value as the narrative shows them: the unwrapped
    strings, a placeholder for an empty one, and for an assignment field
    the display name of a value that looks like an identifier. *)
Definition shown_values (fl rawOld rawNew : string) : M (JVal * JVal) :=
  let oldVal := or_placeholder rawOld in
  let newVal := or_placeholder rawNew in
  if String.eqb fl "assigned_to" || String.eqb fl "assignment_group" then
    let oldId := as_sys_id rawOld in
    let newId := as_sys_id rawNew in
    if bool_decide (is_Some oldId) || bool_decide (is_Some newId) then
      let* names := resolveAssignedDisplay adminCreds fl oldId newId in
      let '(oName, nName) := names in
      ret (if bool_decide (is_Some oldId) && truthy oName then oName else oldVal,
           if bool_decide (is_Some newId) && truthy nName then nName else newVal)
    else ret (oldVal, newVal)
  else ret (oldVal, newVal).

(** [`${f}: ${oldVal} -> ${newVal}${tag}`], the arrow being [arrow]. *)
Definition audit_text (f : string) (r oldVal newVal : JVal) : Res string :=
  let? author := toStr (oprop r "sys_created_by") in
  let tag := " #Cont. by " +:+ author in
  let? o := toStr oldVal in
  let? n := toStr newVal in
  Ok (f +:+ ": " +:+ o +:+ " " +:+ arrow +:+ " " +:+ n +:+ tag).

(** One row of the field-audit feed: [None] when the loop skips it. *)
Definition auditRow (seen : list JVal) (r : JVal) : M (option Entry) :=
  let* fieldname := lift (prop r "fieldname") in
  let* f := lift (toStr (js_or fieldname (JStr ""))) in
  let fl := toLowerCase f in
  if String.eqb fl "work_notes" || String.eqb fl "comments" then ret None else
  if String.eqb fl "incident_state" && seen_has seen (oprop r "sys_created_on")
  then ret None else
  let f := if String.eqb fl "incident_state" then "state" else f in
  let rawOld := unwrapAuditVal (oprop r "oldvalue") in
  let rawNew := unwrapAuditVal (oprop r "newvalue") in
  let* vals := shown_values fl rawOld rawNew in
  let* text := lift (audit_text f r (fst vals) (snd vals)) in
  ret (Some (mkEntryRow (oprop r "sys_created_on") (oprop r "sys_created_by") "FIELD" text)).

(** [entries.sort(cmp)]: the sort is stable, and for a comparator that
    orders consistently every stable sort yields this array. *)
Fixpoint insert_by {A} (cmp : A → A → Z) (x : A) (l : list A) : list A :=
  match l with
  | [] => [x]
  | y :: l' => if cmp x y <=? 0 then x :: l else y :: insert_by cmp x l'
  end.

Definition sort_by {A} (cmp : A → A → Z) (l : list A) : list A :=
  foldr (insert_by cmp) [] l.

(** [(a, b) => String(b.ts).localeCompare(String(a.ts))], on entries
    paired with the string of their timestamp. *)
Definition newest_first (a b : string * Entry) : Z := localeCompare (fst b) (fst a).

Definition with_key (e : Entry) : Res (string * Entry) :=
  let? k := toStr (ts e) in Ok (k, e).

(** The comparator runs only on an array of two entries or more. *)
Definition sort_entries (entries : list Entry) : Res (list Entry) :=
  if (length entries <? 2)%nat then Ok entries else
  let? keyed := mapR with_key entries in
  Ok (snd <$> sort_by newest_first keyed).

Definition render_entry (e : Entry) : Res string :=
  let? t := toStr (ts e) in
  let? b := toStr (by_ e) in
  Ok ("[" +:+ t +:+ "] " +:+ b +:+ " " +:+ placeholder +:+ " " +:+ type_ e +:+ nl +:+ text e).

Fixpoint join (sep : string) (l : list string) : string :=
  match l with
  | [] => ""
  | [s] => s
  | s :: l' => s +:+ sep +:+ join sep l'
  end.

(** The audit pass, one slot per row of the feed. *)
Definition audit_slots (rows : list JVal) : M (list (option Entry)) :=
  let* seen := lift (stateSeenAt rows) in
  mapM (auditRow seen) rows.

Definition journal_path (sys_id : string) : string :=
  "/api/now/table/sys_journal_field?" +:+
  "sysparm_fields=sys_created_on,sys_created_by,element,value&sysparm_query=" +:+
  encodeURIComponent
    ("element_id=" +:+ sys_id +:+ "^elementINwork_notes,comments^ORDERBYDESCsys_created_on")
  +:+ "&sysparm_limit=500".

Definition audit_path (sys_id : string) : string :=
  "/api/now/table/sys_audit?" +:+
  "sysparm_display_value=all&" +:+
  "sysparm_fields=sys_created_on,sys_created_by,fieldname,oldvalue,newvalue,tablename&" +:+
  "sysparm_query=" +:+
  encodeURIComponent ("documentkey=" +:+ sys_id +:+ "^ORDERBYDESCsys_created_on")
  +:+ "&sysparm_limit=500".

(** The entries of the narrative, sorted: the body of the handler up to
    the [entries.sort] line. *)
Definition narrative_entries (session : Session) (sys_id : string) : M (list Entry) :=
  let using_ := pickActingCreds session in
  let* jf := sn using_ "GET" (journal_path sys_id) None in
  let* au := sn adminCreds "GET" (audit_path sys_id) None in
  let* jres := lift (prop jf "result") in
  let* jrows := lift (iterate (js_or jres (JArr []))) in
  let* journal := lift (mapR journalEntry jrows) in
  let* ares := lift (prop au "result") in
  let* arows := lift (as_array (js_or ares (JArr []))) in
  let* slots := audit_slots arows in
  lift (sort_entries (journal ++ omap id slots)).

Definition activity (session : Session) (table sys_id : string) : M HttpReply :=
  try_catch
    (let* entries := narrative_entries session sys_id in
     let* lines := lift (mapR render_entry entries) in
     ret (mkHttp 200 (JObj [("ok", JBool true); ("result", JStr (join nl lines))])))
    (fun e => ret (mkHttp 500 (failure_body "Activity fetch failed" (err_detail e)))).

(** *** The record update pipeline: PATCH /api/record/:table/:sys_id *)

Definition is_undefined (v : JVal) : bool :=
  match v with
  | JUndefined => true
  | _ => false
  end.

(** [norm]: the empty string, [null] and [undefined] become [undefined]. *)
Definition norm (v : JVal) : JVal :=
  match v with
  | JStr s => if String.eqb s "" then JUndefined else v
  | JNull | JUndefined => JUndefined
  | _ => v
  end.

(** [...(v !== undefined && { k: v })] *)
Definition spread (k : string) (v : JVal) : list (string * JVal) :=
  if is_undefined v then [] else [(k, v)].

(** [stamp] *)
Definition stamp (who : JVal) (txt : string) : Res string :=
  let s := trim txt in
  if nonempty s then
    let? w := toStr who in Ok (s +:+ nl +:+ "#Cont. by " +:+ w)
  else Ok "".

(** [body.k !== undefined ? String(body.k).trim() : undefined] *)
Definition typed (body : JVal) (k : string) : Res (option string) :=
  if is_undefined (oprop body k) then Ok None
  else let? s := toStr (oprop body k) in Ok (Some (trim s)).

Definition note (who : JVal) (k : string) (typed_text : option string)
    : Res (list (string * JVal)) :=
  match typed_text with
  | None => Ok []
  | Some t =>
      if nonempty t then let? s := stamp who t in Ok [(k, JStr s)]
      else Ok [(k, JStr "")]
  end.

Definition record_path (table sys_id : string) : string :=
  "/api/now/table/" +:+ table +:+ "/" +:+ sys_id.

(** The path of the snapshot read before the update. *)
Definition snapshot_path (table sys_id : string) : string :=
  let fields :=
    "sys_id,number,short_description,assigned_to,assignment_group,state,priority,impact,urgency" in
  record_path table sys_id +:+ "?sysparm_display_value=all&sysparm_fields=" +:+ fields.

(** The path of the journal write. *)
Definition notes_path (table sys_id : string) : string :=
  record_path table sys_id +:+ "?sysparm_input_display_value=true".

Definition update (session : Session) (table sys_id : string) (req_body : JVal)
    : M HttpReply :=
  try_catch
    (let using_ := pickActingCreds session in
     let body := js_or req_body (JObj []) in
     let* current := sn using_ "GET" (snapshot_path table sys_id) None in
     let* _ := lift (prop current "result") in
     let assigned_to :=
       if is_undefined (oprop body "assigned_to") then JUndefined
       else pickId (oprop body "assigned_to") in
     let assignment_group :=
       if is_undefined (oprop body "assignment_group") then JUndefined
       else pickId (oprop body "assignment_group") in
     let* assigned_to :=
       if is_undefined assigned_to then ret assigned_to
       else resolveRef using_ "sys_user" assigned_to in
     let* assignment_group :=
       if is_undefined assignment_group then ret assignment_group
       else resolveRef using_ "sys_user_group" assignment_group in
     let fieldsPayload :=
       spread "state" (norm (oprop body "state")) ++
       spread "impact" (norm (oprop body "impact")) ++
       spread "urgency" (norm (oprop body "urgency")) ++
       spread "priority" (norm (oprop body "priority")) ++
       spread "assigned_to" assigned_to ++
       spread "assignment_group" assignment_group ++
       spread "short_description" (norm (oprop body "short_description")) ++
       spread "description" (norm (oprop body "description")) in
     let* _ :=
       match fieldsPayload with
       | [] => ret JUndefined
       | _ => sn using_ "PATCH" (record_path table sys_id) (Some (JObj fieldsPayload))
       end in
     let who := contributorFromSession session in
     let* wnUser := lift (typed body "work_notes") in
     let* acUser := lift (typed body "comments") in
     let* wn := lift (note who "work_notes" wnUser) in
     let* ac := lift (note who "comments" acUser) in
     let notesPayload := wn ++ ac in
     let* _ :=
       match notesPayload with
       | [] => ret JUndefined
       | _ => sn using_ "PATCH" (notes_path table sys_id) (Some (JObj notesPayload))
       end in
     ret (mkHttp 200 (JObj [("ok", JBool true); ("result", JBool true)])))
    (fun e => ret (mkHttp 500 (failure_body "Update failed" (err_detail e)))).

(** *** Group membership: getUserGroups *)

(** The receiver of [.map(...)]: only an array has the method. *)
Definition map_receiver (x : JVal) : Res (list JVal) :=
  match x with
  | JArr xs => Ok xs
  | _ => Throw (typeError "map is not a function")
  end.

(** [r => r.group?.value || r.group || ''] *)
Definition member_group (r : JVal) : Res JVal :=
  let? g := prop r "group" in
  Ok (js_or (oprop g "value") (js_or g (JStr ""))).

(** [(gm.result || []).map(...).filter(Boolean)] *)
Definition group_ids (gm : JVal) : Res (list JVal) :=
  let? res := prop gm "result" in
  let? rows := map_receiver (js_or res (JArr [])) in
  let? gs := mapR member_group rows in
  Ok (List.filter truthy gs).

Definition grmember_path (userSysId : JVal) : Res string :=
  let? u := toStr userSysId in
  Ok ("/api/now/table/sys_user_grmember?sysparm_fields=group&sysparm_query=user=" +:+ u +:+
      "&sysparm_limit=500").

(** One membership lookup: the body of either [try] of [getUserGroups],
    and of the [try] of the session inspection. *)
Definition membership (using_ : Creds) (userSysId : JVal) : M (list JVal) :=
  let* p := lift (grmember_path userSysId) in
  let* gm := sn using_ "GET" p None in
  lift (group_ids gm).

(** [getUserGroups]: the lookup as the user, then as the administrator,
    then no group at all. *)
Definition getUserGroups (using_ : Creds) (userSysId : JVal) : M (list JVal) :=
  try_catch (membership using_ userSysId)
    (fun _ => try_catch (membership adminCreds userSysId) (fun _ => ret [])).

Definition TABLE_FIELDS : string :=
  "sys_id,number,short_description,description,assigned_to,assignment_group,state,priority,impact,urgency,caller_id,opened_at,sys_class_name,sys_updated_on".

Definition CHANGE_FIELDS : string :=
  join ","
    ["sys_id"; "number"; "type"; "priority"; "risk"; "impact"; "category"; "cmdb_ci";
     "requested_by"; "start_date"; "end_date"; "short_description"; "description";
     "justification"; "implementation_plan"; "risk_and_impact_analysis";
     "backout_plan"; "test_plan"; "assigned_to"; "assignment_group"; "state";
     "sys_updated_on"].

(** *** Login: POST /api/login *)

(** [String(USE_ADMIN_FOR_ALL).toLowerCase() === 'true' ? 'admin' : 'user'] *)
Definition via_mode : string :=
  if String.eqb (toLowerCase USE_ADMIN_FOR_ALL) "true" then "admin" else "user".

Definition login_path (username : string) : string :=
  "/api/now/table/sys_user?sysparm_fields=sys_id,name,user_name,email,active" +:+
  "&sysparm_limit=1&sysparm_query=" +:+
  encodeURIComponent ("user_name=" +:+ username +:+ "^active=true").

(** [Array.isArray(data?.result) ? data.result[0] : null] *)
Definition first_user (data : JVal) : JVal :=
  match oprop data "result" with
  | JArr (x :: _) => x
  | JArr [] => JUndefined
  | _ => JNull
  end.

(** The handler of [/api/login].  [token] is what
    [crypto.randomBytes(24).toString('hex')] yields for this request; the
    handler takes the [sessions] map and gives it back, with the new
    session when it answers 200.  The username and the password reach
    the upstream only through the template literals of the query and of
    the Authorization header, so a credential holds their string forms. *)
Definition login (sessions : gmap string Session) (token : string) (req_body : JVal)
    : M (HttpReply * gmap string Session) :=
  let body := js_or req_body (JObj []) in
  let username := oprop body "username" in
  let password := oprop body "password" in
  if negb (truthy username) || negb (truthy password) then
    ret (mkHttp 400 (JObj [("ok", JBool false); ("error", JStr "Missing username/password")]),
         sessions)
  else
  try_catch
    (let* u := lift (toStr username) in
     let* p := lift (toStr password) in
     let using_ := mkCreds SN_INSTANCE u p in
     let* data := sn using_ "GET" (login_path u) None in
     let user := first_user data in
     if negb (truthy (oprop user "sys_id")) then throw (newError "Invalid credentials") else
     let* groups := getUserGroups using_ (oprop user "sys_id") in
     let via := via_mode in
     let session :=
       mkSession user via (if String.eqb via "user" then using_ else adminCreds)
                 (oprop user "sys_id") groups in
     ret (mkHttp 200
            (JObj [("ok", JBool true);
                   ("result", JObj [("token", JStr token); ("user", user);
                                    ("via", JStr via); ("groups", JArr groups)])]),
          <[token := session]> sessions))
    (fun e => ret (mkHttp 401 (failure_body "User Not Authorized" (err_detail e)), sessions)).

(** *** Session inspection: GET /api/debug/session *)

Definition debug_session (session : Session) : M HttpReply :=
  try_catch
    (let using_ := pickActingCreds session in
     let userId := userSysId session in
     let* freshGroups := membership using_ userId in
     ret (mkHttp 200
            (JObj [("ok", JBool true);
                   ("result", JObj [("via", JStr (via session));
                                    ("user_sys_id", userId);
                                    ("stored_groups", JArr (groups session));
                                    ("fresh_groups", JArr freshGroups)])])))
    (fun e => ret (mkHttp 500 (failure_body "Debug failed" (err_detail e)))).

(** *** Lists: GET /api/incidents, /api/tasks, /api/approvals *)

(** [req.session.groups?.length ? req.session.groups
     : await getUserGroups(using, userId)] *)
Definition session_groups (session : Session) (using_ : Creds) (userId : JVal)
    : M (list JVal) :=
  match groups session with
  | [] => getUserGroups using_ userId
  | gs => ret gs
  end.

(** The three list handlers differ in the query they build from the user
    and the comma-separated groups, in the path of their one read and in
    the message of their failure. *)
Definition listing (query : string → string → string) (path : string → string)
    (message : string) (session : Session) : M HttpReply :=
  try_catch
    (let using_ := pickActingCreds session in
     let userId := userSysId session in
     let* gs := session_groups session using_ userId in
     let* groupCsv := lift (toStr (JArr gs)) in
     let* uid := lift (toStr userId) in
     let q := query uid groupCsv in
     let* data := sn using_ "GET" (path (encodeURIComponent q)) None in
     let* res := lift (prop data "result") in
     ret (mkHttp 200 (JObj [("ok", JBool true); ("result", js_or res (JArr []))])))
    (fun e => ret (mkHttp 500 (failure_body message (err_detail e)))).

Definition incidents_query (userId groupCsv : string) : string :=
  let stateCond := "stateNOT IN6,7" in
  if nonempty groupCsv then
    stateCond +:+ "^assigned_to=" +:+ userId +:+ "^NQ" +:+ stateCond +:+
    "^assignment_groupIN" +:+ groupCsv +:+ "^NQ" +:+ stateCond +:+
    "^assigned_toISEMPTY^assignment_groupISEMPTY"
  else
    stateCond +:+ "^assigned_to=" +:+ userId +:+ "^NQ" +:+ stateCond +:+
    "^assigned_toISEMPTY^assignment_groupISEMPTY".

Definition tasks_query (userId groupCsv : string) : string :=
  let stateCond := "stateNOT IN3,6,7" in
  let notClasses := "sys_class_nameNOT INincident,sc_req_item" in
  if nonempty groupCsv then
    stateCond +:+ "^" +:+ notClasses +:+ "^assigned_to=" +:+ userId +:+ "^NQ" +:+
    stateCond +:+ "^" +:+ notClasses +:+ "^assignment_groupIN" +:+ groupCsv +:+ "^NQ" +:+
    stateCond +:+ "^" +:+ notClasses +:+ "^assigned_toISEMPTY^assignment_groupISEMPTY"
  else
    stateCond +:+ "^" +:+ notClasses +:+ "^assigned_to=" +:+ userId +:+ "^NQ" +:+
    stateCond +:+ "^" +:+ notClasses +:+ "^assigned_toISEMPTY^assignment_groupISEMPTY".

Definition approvals_query (userId groupCsv : string) : string :=
  let stateCond := "state=requested" in
  if nonempty groupCsv then
    stateCond +:+ "^approver=" +:+ userId +:+ "^NQ" +:+ stateCond +:+
    "^approverIN" +:+ groupCsv +:+ "^NQ" +:+ stateCond +:+ "^approverISEMPTY"
  else
    stateCond +:+ "^approver=" +:+ userId +:+ "^NQ" +:+ stateCond +:+ "^approverISEMPTY".

Definition table_list_path (table q : string) : string :=
  "/api/now/table/" +:+ table +:+ "?sysparm_display_value=all&sysparm_query=" +:+ q +:+
  "&sysparm_fields=" +:+ TABLE_FIELDS +:+ "&sysparm_limit=100".

Definition approvals_list_path (q : string) : string :=
  "/api/now/table/sysapproval_approver?sysparm_display_value=all&sysparm_query=" +:+ q +:+
  "&sysparm_fields=sys_id,state,approver,sysapproval,sys_created_on,sys_updated_on" +:+
  "&sysparm_limit=100".

Definition incidents : Session → M HttpReply :=
  listing incidents_query (table_list_path "incident") "List failed".

Definition tasks : Session → M HttpReply :=
  listing tasks_query (table_list_path "task") "List failed".

Definition approvals : Session → M HttpReply :=
  listing approvals_query approvals_list_path "Approvals failed".

(** *** Approvals: GET /api/approval/:sys_id and POST .../decide *)

Definition approval_path (sys_id : string) : string :=
  "/api/now/table/sysapproval_approver/" +:+ sys_id +:+
  "?sysparm_display_value=all" +:+
  "&sysparm_fields=sys_id,sysapproval,approver,state,comments,sys_created_on,sys_updated_on".

Definition target_path (tbl targetId : string) : string :=
  "/api/now/table/" +:+ tbl +:+ "/" +:+ targetId +:+ "?sysparm_display_value=all".

Definition candidates : list string :=
  ["change_request"; "sc_request"; "sc_req_item"; "incident"; "task"].

(** One turn of the loop over the candidate tables: the record the
    approval is about, if this table has it; a failed read is ignored. *)
Definition probe (using_ : Creds) (targetId : JVal) (tbl : string) : M (option JVal) :=
  try_catch
    (let* id := lift (toStr targetId) in
     let* t := sn using_ "GET" (target_path tbl id) None in
     if truthy (oprop (oprop t "result") "sys_id") then ret (Some (oprop t "result"))
     else ret None)
    (fun _ => ret None).

(** The loop: [target] and [targetTable], both [null] when no table has
    the record. *)
Fixpoint find_target (using_ : Creds) (targetId : JVal) (tables : list string)
    : M (JVal * JVal) :=
  match tables with
  | [] => ret (JNull, JNull)
  | tbl :: rest =>
      let* found := probe using_ targetId tbl in
      match found with
      | Some target => ret (target, JStr tbl)
      | None => find_target using_ targetId rest
      end
  end.

Definition approval_details (session : Session) (sys_id : string) : M HttpReply :=
  try_catch
    (let using_ := pickActingCreds session in
     let* ap := sn using_ "GET" (approval_path sys_id) None in
     let* approval := lift (prop ap "result") in
     if negb (truthy approval) then
       ret (mkHttp 404 (JObj [("ok", JBool false);
                              ("error", JObj [("message", JStr "Approval not found")]);
                              ("status", JStr "failure")]))
     else
     let targetId :=
       js_or (oprop (oprop approval "sysapproval") "value") (oprop approval "sysapproval") in
     let* found := find_target using_ targetId candidates in
     ret (mkHttp 200
            (JObj [("ok", JBool true);
                   ("result", JObj [("approval", approval); ("target", fst found);
                                    ("targetTable", snd found)])])))
    (fun e => ret (mkHttp 500 (failure_body "Approval details failed" (err_detail e)))).

(** What [stateMap[key]] finds.  [stateMap] is an object literal, so
    besides its four own properties a key finds the members it inherits
    from [Object.prototype]: its methods, and the prototype itself under
    ["__proto__"]. *)
Inductive Member : Type :=
| OwnState (s : string)
| Method
| Prototype
| Absent.

Definition Object_prototype_methods : list string :=
  ["constructor"; "__defineGetter__"; "__defineSetter__"; "hasOwnProperty";
   "__lookupGetter__"; "__lookupSetter__"; "isPrototypeOf"; "propertyIsEnumerable";
   "toString"; "valueOf"; "toLocaleString"].

Definition stateMap (key : string) : Member :=
  if String.eqb key "approve" || String.eqb key "approved" then OwnState "approved"
  else if String.eqb key "reject" || String.eqb key "rejected" then OwnState "rejected"
  else if existsb (String.eqb key) Object_prototype_methods then Method
  else if String.eqb key "__proto__" then Prototype
  else Absent.

(** The [state] of the payload as [JSON.stringify] writes it in [sn]: a
    property whose value is a function is left out, and the prototype,
    which has no enumerable property, is written as an empty object. *)
Definition state_property (m : Member) : list (string * JVal) :=
  match m with
  | OwnState s => [("state", JStr s)]
  | Method => []
  | Prototype => [("state", JObj [])]
  | Absent => []
  end.

Definition decide_path (sys_id : string) : string :=
  "/api/now/table/sysapproval_approver/" +:+ sys_id +:+ "?sysparm_input_display_value=true".

Definition decide (session : Session) (sys_id : string) (req_body : JVal) : M HttpReply :=
  let body := js_or req_body (JObj []) in
  let decision := oprop body "decision" in
  let comments := oprop body "comments" in
  try_catch
    (let using_ := pickActingCreds session in
     let* d := lift (toStr (js_or decision (JStr ""))) in
     match stateMap (toLowerCase d) with
     | Absent =>
         ret (mkHttp 400 (failure_body "Invalid decision" "Use approve|reject"))
     | newState =>
         let payload :=
           state_property newState ++
           (if truthy comments then [("comments", comments)] else []) in
         let* upd := sn using_ "PATCH" (decide_path sys_id) (Some (JObj payload)) in
         let* res := lift (prop upd "result") in
         ret (mkHttp 200 (JObj [("ok", JBool true); ("result", js_or res (JBool true))]))
     end)
    (fun e => ret (mkHttp 500 (failure_body "Approval action failed" (err_detail e)))).

(** *** Records: GET /api/record/:table/:sys_id and its relatives *)

Definition fields_path (table sys_id fields : string) : string :=
  "/api/now/table/" +:+ table +:+ "/" +:+ sys_id +:+
  "?sysparm_display_value=all&sysparm_fields=" +:+ fields.

Definition get_record (session : Session) (table sys_id : string) : M HttpReply :=
  try_catch
    (let using_ := pickActingCreds session in
     let t := trim table in
     let id := trim sys_id in
     if negb (nonempty t) || negb (nonempty id) then
       ret (mkHttp 400 (failure_body "Bad request" "Missing table or sys_id"))
     else
     let fieldsList := if String.eqb t "change_request" then CHANGE_FIELDS else TABLE_FIELDS in
     let* data := sn using_ "GET" (fields_path t id fieldsList) None in
     let* res := lift (prop data "result") in
     ret (mkHttp 200 (JObj [("ok", JBool true); ("result", js_or res (JObj []))])))
    (fun e => ret (mkHttp 500 (failure_body "No Record found" (err_detail e)))).

Definition change_details (session : Session) (sys_id : string) : M HttpReply :=
  try_catch
    (let using_ := pickActingCreds session in
     let* data := sn using_ "GET" (fields_path "change_request" sys_id CHANGE_FIELDS) None in
     let* res := lift (prop data "result") in
     ret (mkHttp 200 (JObj [("ok", JBool true); ("result", js_or res (JObj []))])))
    (fun e => ret (mkHttp 500 (failure_body "Change details failed" (err_detail e)))).

Definition all_notes_path (sys_id : string) : string :=
  "/api/now/table/sys_journal_field?" +:+
  "sysparm_fields=sys_created_on,sys_created_by,element,value&sysparm_query=" +:+
  encodeURIComponent
    ("element_id=" +:+ sys_id +:+ "^elementINwork_notes,comments^ORDERBYsys_created_on")
  +:+ "&sysparm_limit=1000".

(** One block of the journal listing. *)
Definition note_line (j : JVal) : Res string :=
  let? on := prop j "sys_created_on" in
  let? t := toStr on in
  let? b := toStr (oprop j "sys_created_by") in
  let? e := toStr (js_or (oprop j "element") (JStr "")) in
  let? v := toStr (js_or (oprop j "value") (JStr "")) in
  Ok ("[" +:+ t +:+ "] " +:+ b +:+ " " +:+ placeholder +:+ " " +:+ toUpperCase e +:+ nl +:+
      v +:+ nl).

Definition all_notes (session : Session) (table sys_id : string) : M HttpReply :=
  try_catch
    (let using_ := pickActingCreds session in
     let* data := sn using_ "GET" (all_notes_path sys_id) None in
     let* res := lift (prop data "result") in
     let* rows := lift (map_receiver (js_or res (JArr []))) in
     let* lines := lift (mapR note_line rows) in
     ret (mkHttp 200 (JObj [("ok", JBool true); ("result", JStr (join nl lines))])))
    (fun e => ret (mkHttp 500 (failure_body "Notes fetch failed" (err_detail e)))).

(** *** Typeahead: GET /api/search/users and /api/search/groups *)

(** [(req.query.q || '').trim()]: only a string has the method. *)
Definition search_term (q : JVal) : Res string :=
  match js_or q (JStr "") with
  | JStr s => Ok (trim s)
  | _ => Throw (typeError "trim is not a function")
  end.

Definition users_search_path (enc : string) : string :=
  "/api/now/table/sys_user?sysparm_fields=sys_id,name,user_name,email&sysparm_query=" +:+
  ("user_name=" +:+ enc +:+ "^ORname=" +:+ enc +:+ "^ORemail=" +:+ enc +:+
   "^ORuser_nameLIKE" +:+ enc +:+ "^ORnameLIKE" +:+ enc +:+ "^ORemailLIKE" +:+ enc) +:+
  "&sysparm_display_value=all&sysparm_limit=20".

Definition groups_search_path (enc : string) : string :=
  "/api/now/table/sys_user_group?sysparm_fields=sys_id,name&sysparm_query=" +:+
  ("name=" +:+ enc +:+ "^ORnameLIKE" +:+ enc) +:+
  "&sysparm_display_value=all&sysparm_limit=20".

(** The two typeahead handlers differ in the path of their one read and
    in the message of their failure. *)
Definition search (path : string → string) (message : string)
    (session : Session) (q : JVal) : M HttpReply :=
  try_catch
    (let using_ := pickActingCreds session in
     let* term := lift (search_term q) in
     if negb (nonempty term) then
       ret (mkHttp 200 (JObj [("ok", JBool true); ("result", JArr [])]))
     else
     let enc := encodeURIComponent term in
     let* data := sn using_ "GET" (path enc) None in
     let* res := lift (prop data "result") in
     ret (mkHttp 200 (JObj [("ok", JBool true); ("result", js_or res (JArr []))])))
    (fun e => ret (mkHttp 500 (failure_body message (err_detail e)))).

Definition search_users : Session → JVal → M HttpReply :=
  search users_search_path "User search failed".

Definition search_groups : Session → JVal → M HttpReply :=
  search groups_search_path "Group search failed".

(** ** Notions the statements use *)


(** The canonical identifier shape: 32 hexadecimal digits. *)
Definition hex_digits : list ascii := list_ascii_of_string "0123456789abcdefABCDEF".

Definition canonical_shape (s : string) : Prop :=
  String.length s = 32%nat ∧ Forall (λ c, c ∈ hex_digits) (list_ascii_of_string s).

(** The world after [_nameCache.set(key, { name, exp })]. *)
Definition with_entry (w : World) (key : string) (e : CacheEntry) : World :=
  mkWorld (calls w) (fetched w) (clock w) (<[key := e]> (nameCache w)).




(** Rows of the field-audit feed: [is_field k r] when the lower-cased
    field name of [r] is [k]. *)
Definition is_field (k : string) (r : JVal) : bool :=
  match field_lower r with
  | Ok fl => String.eqb fl k
  | Throw _ => false
  end.

(** A primary status row ('state') whose timestamp the set finds for the
    value [v]. *)
Definition primary_row_at (v : JVal) (x : JVal) : bool :=
  is_field "state" x && same_value_zero v (oprop x "sys_created_on").




(** A string that begins with a white-space code point, and one that
    ends with one. *)
Definition starts_blank (s : string) : bool :=
  match s with
  | String a (String b (String c _)) => blank1 a || blank2 a b || blank3 a b c
  | String a (String b EmptyString) => blank1 a || blank2 a b
  | String a EmptyString => blank1 a
  | EmptyString => false
  end.

Fixpoint ends_blank (s : string) : bool :=
  match s with
  | EmptyString => false
  | String _ s' => is_blank s || ends_blank s'
  end.

(** A string without white space at either end. *)
Definition ends_clean (s : string) : bool := negb (starts_blank s) && negb (ends_blank s).

(** What [String(n)] prints for a number: NaN, an infinity, or digits
    with a sign, a point and an exponent. *)
Definition number_chars : list ascii := list_ascii_of_string "0123456789.e+-".

Definition number_form (s : string) : bool :=
  String.eqb s "NaN" || String.eqb s "Infinity" || String.eqb s "-Infinity" ||
  forallb (λ c, bool_decide (c ∈ number_chars)) (list_ascii_of_string s).

(** The body of the update scenario and its two payloads. *)
Definition scenario_body : JVal :=
  JObj [("state", JStr "2"); ("work_notes", JStr "checking now")].
Definition scenario_fields : JVal := JObj [("state", JStr "2")].
Definition scenario_notes : JVal :=
  JObj [("work_notes", JStr ("checking now" +:+ nl +:+ "#Cont. by jdoe"))].

(** ** Concrete inputs for the examples *)

Definition demo_creds : Creds := mkCreds "dev.service-now.com" "svc" "secret".
Definition demo_world : World := mkWorld [] [] 0 ∅.
Definition demo_session : Session :=
  mkSession (JObj [("sys_id", JStr "u1"); ("user_name", JStr "jdoe")])
            "admin" demo_creds (JStr "u1") [].
Definition demo_id : string := "0123456789abcdef0123456789ABCDEF".

(** A session store with one live session. *)
Definition demo_token : string := "5f2a9c0e7b1d4e6f8a3b2c1d0e9f8a7b6c5d4e3f2a1b0c9d".
Definition demo_sessions : gmap string Session := {[ demo_token := demo_session ]}.

(** A cache whose only entry, for the user [demo_id], expired at 300000. *)
Definition stale_world : World :=
  mkWorld [] [] 400000
          {[ cache_key "sys_user" demo_id := mkEntry (JStr "Old Name") 300000 ]}.

(** Stand-ins for the built-ins. *)
Definition no_parse : string → option JVal := fun _ => None.
Definition no_stringify : JVal → string := fun _ => "".
Definition same_string : string → string := fun s => s.

(** An upper-casing that knows the ASCII letters. *)
Definition upper_ascii (c : ascii) : ascii :=
  let n := nat_of_ascii c in
  if ((97 <=? n) && (n <=? 122))%nat then ascii_of_nat (n - 32) else c.

Fixpoint ascii_upper (s : string) : string :=
  match s with
  | EmptyString => EmptyString
  | String c s' => String (upper_ascii c) (ascii_upper s')
  end.

(** A collation that is the order of the bytes. *)
Definition bytewise (a b : string) : Z :=
  match String.compare a b with
  | Lt => -1
  | Eq => 0
  | Gt => 1
  end.



(** Two feeds of one incident: a work note, a status change audited under
    both field names at one instant, and an earlier priority change. *)
Definition labelled (label value : string) : JVal :=
  JObj [("display_value", JStr label); ("value", JStr value)].

Definition audit_row_at (stamp : JVal) (author field : string) (old new : JVal) : JVal :=
  JObj [("sys_created_on", stamp); ("sys_created_by", JStr author);
        ("fieldname", JStr field); ("oldvalue", old); ("newvalue", new)].

Definition audit_row (stamp author field : string) (old new : JVal) : JVal :=
  audit_row_at (JStr stamp) author field old new.

Definition demo_stamp : string := "2024-05-02 09:30:00".

Definition demo_journal_rows : list JVal :=
  [JObj [("sys_created_on", JStr "2024-05-01 10:00:00"); ("sys_created_by", JStr "jdoe");
         ("element", JStr "work_notes"); ("value", JStr "checking now")]].

Definition demo_audit_rows : list JVal :=
  [audit_row demo_stamp "asmith" "state" (labelled "New" "1") (labelled "In Progress" "2");
   audit_row demo_stamp "asmith" "incident_state"
             (labelled "New" "1") (labelled "In Progress" "2");
   audit_row "2024-04-30 08:00:00" "asmith" "priority" (JStr "") (labelled "3 - Moderate" "3")].

Definition demo_stamps : list string :=
  [demo_stamp; "2024-05-01 10:00:00"; "2024-04-30 08:00:00"].

(** A status alias with no primary entry at its timestamp, and a feed
    that holds it after a primary entry of another instant. *)
Definition lone_alias : JVal :=
  audit_row "2024-05-03 11:15:00" "asmith" "incident_state"
            (labelled "In Progress" "2") (labelled "Resolved" "6").

Definition history_rows : list JVal :=
  [audit_row demo_stamp "asmith" "state" (labelled "New" "1") (labelled "In Progress" "2");
   lone_alias].

(** The status change audited under both field names at one instant, the
    timestamp of each row given with its display value, as the query of
    the feed ([sysparm_display_value=all]) asks for it. *)
Definition twin_rows : list JVal :=
  [audit_row_at (labelled demo_stamp demo_stamp) "asmith" "state"
                (labelled "New" "1") (labelled "In Progress" "2");
   audit_row_at (labelled demo_stamp demo_stamp) "asmith" "incident_state"
                (labelled "New" "1") (labelled "In Progress" "2")].

(** The documents the upstream bodies stand for. *)
Definition demo_parse : string → option JVal :=
  fun text =>
    if String.eqb text "journal" then Some (JObj [("result", JArr demo_journal_rows)])
    else if String.eqb text "audit" then Some (JObj [("result", JArr demo_audit_rows)])
    else if String.eqb text "history" then Some (JObj [("result", JArr history_rows)])
    else if String.eqb text "twins" then Some (JObj [("result", JArr twin_rows)])
    else if String.eqb text "record" then Some (JObj [("result", JObj [])])
    else if String.eqb text "name" then
      Some (JObj [("result", JObj [("name", JStr "New Name")])])
    else None.

Definition not_found : Reply := Responded (mkResponse 404 "Not Found" (Some "")) 0.
Definition connection_reset : Reply := Rejected (newError "fetch failed") 0.

(** An upstream that gives the same reply to every request. *)
Definition always (r : Reply) : nat → Request → Reply := fun _ _ => r.


(** An upstream that serves the journal feed, then the audit feed. *)
Definition feeds_upstream : nat → Request → Reply :=
  fun n _ =>
    match n with
    | O => Responded (mkResponse 200 "OK" (Some "journal")) 0
    | S _ => Responded (mkResponse 200 "OK" (Some "audit")) 0
    end.


Definition twin_upstream : nat → Request → Reply :=
  fun n _ =>
    match n with
    | O => Responded (mkResponse 200 "OK" (Some "journal")) 0
    | S _ => Responded (mkResponse 200 "OK" (Some "twins")) 0
    end.



(** An upstream that answers every request with the record. *)
Definition record_upstream : nat → Request → Reply :=
  always (Responded (mkResponse 200 "OK" (Some "record")) 0).

(** An upstream that knows the user [demo_id] by name. *)
Definition named_upstream : nat → Request → Reply :=
  always (Responded (mkResponse 200 "OK" (Some "name")) 0).

(** ** Further notions *)

(** A response [sn] returns the document of: a 2xx status, and a document
    that carries neither the failure marker nor an error. *)
Definition accepted (res : Response) : bool :=
  let data := parse_data (default "" (rs_text res)) in
  res_ok res && negb (is_failure_marker (oprop data "status"))
             && negb (truthy (oprop data "error")).

(** A reply that makes an attempt of [sn] fail. *)
Definition failed_reply (r : Reply) : bool :=
  match r with
  | Rejected _ _ => true
  | Responded res _ => negb (accepted res)
  end.

(** The document of an accepted reply and the error of a failed one, as
    [sn] returns and throws them. *)
Definition reply_data (r : Reply) : JVal :=
  match r with
  | Responded res _ => parse_data (default "" (rs_text res))
  | Rejected _ _ => JUndefined
  end.

Definition reply_error (r : Reply) : Err :=
  match r with
  | Rejected e _ => e
  | Responded res _ =>
      sn_error res (default "" (rs_text res)) (parse_data (default "" (rs_text res)))
  end.

(** The requests a call through [sn] sends for [rq] from the world [w]:
    the request, and once more when the reply to the first fails. *)
Definition sent (w : World) (rq : Request) : list Request :=
  if failed_reply (upstream (length (fetched w)) rq) then [rq; rq] else [rq].


(** The world after a call that is answered at its first attempt. *)
Definition after_call (w : World) (rq : Request) : World :=
  mkWorld (calls w ++ [rq]) (fetched w ++ [rq])
          (clock w + elapsed_of (upstream (length (fetched w)) rq)) (nameCache w).



(** What a computation adds to the log of calls: whatever its outcome,
    the calls of the world it leaves are those it found followed by new
    ones, all satisfying [P]; [emits P n] bounds their number by [n]. *)
Definition only_calls {A} (P : Request → Prop) (m : M A) : Prop :=
  ∀ w r w', m w = (r, w') → ∃ l, calls w' = calls w ++ l ∧ Forall P l.

Definition emits {A} (P : Request → Prop) (n : nat) (m : M A) : Prop :=
  ∀ w r w', m w = (r, w') →
    ∃ l, calls w' = calls w ++ l ∧ Forall P l ∧ (length l ≤ n)%nat.

(** A computation that never throws, and whose value satisfies [P]. *)
Definition answers {A} (P : A → Prop) (m : M A) : Prop :=
  ∀ w, ∃ a w', m w = (Ok a, w') ∧ P a.

Definition is_get (rq : Request) : Prop := rq_method rq = "GET".

(** A row of the field-audit feed that the audit pass leaves out: the
    echo of a journal field, or a status alias at a timestamp that a
    primary status row has. *)
Definition left_out (seen : list JVal) (r : JVal) : bool :=
  is_field "work_notes" r || is_field "comments" r ||
  is_field "incident_state" r && seen_has seen (oprop r "sys_created_on").

(** A call an update of the record [table]/[sys_id] may make: a read, or
    a PATCH of that record, structured or journal. *)
Definition own_write (session : Session) (table sys_id : string) (rq : Request) : Prop :=
  is_get rq ∨
  ∃ payload,
    rq = request_of (pickActingCreds session) "PATCH" (record_path table sys_id)
                    (Some payload) ∨
    rq = request_of (pickActingCreds session) "PATCH" (notes_path table sys_id)
                    (Some payload).

(** The fields of an update body that are written as they are, and those
    that are resolved or stamped first. *)
Definition plain_fields : list string :=
  ["state"; "impact"; "urgency"; "priority"; "short_description"; "description"].

Definition special_fields : list string :=
  ["assigned_to"; "assignment_group"; "work_notes"; "comments"].

(** The session [login] stores for the user and the groups it found
    with the credentials [using_], and the answer that hands out its
    token. *)
Definition session_of (using_ : Creds) (user : JVal) (gs : list JVal) : Session :=
  mkSession user via_mode (if String.eqb via_mode "user" then using_ else adminCreds)
            (oprop user "sys_id") gs.

Definition welcome (token : string) (s : Session) : HttpReply :=
  mkHttp 200
    (JObj [("ok", JBool true);
           ("result", JObj [("token", JStr token); ("user", user s);
                            ("via", JStr (via s)); ("groups", JArr (groups s))])]).

(** The decisions [decide] lets through, in lower case: the four words
    of [stateMap] and the two lower-case names every object inherits. *)
Definition passing_decisions : list string :=
  ["approve"; "approved"; "reject"; "rejected"; "constructor"; "__proto__"].

(** A string with an ASCII capital letter in it. *)
Definition is_capital (c : ascii) : bool :=
  let n := nat_of_ascii c in ((65 <=? n) && (n <=? 90))%nat.

Fixpoint has_capital (s : string) : bool :=
  match s with
  | EmptyString => false
  | String c s' => is_capital c || has_capital s'
  end.

(** [if (comments) payload.comments = comments] *)
Definition comments_property (body : JVal) : list (string * JVal) :=
  if truthy (oprop body "comments") then [("comments", oprop body "comments")] else [].

(** A read made with the acting credentials of a session. *)
Definition acting_read (session : Session) (rq : Request) : Prop :=
  is_get rq ∧ rq_auth rq = pickActingCreds session.

(** What the loop over the candidate tables may find: nothing, or a
    record with an identifier in one of the tables given. *)
Definition found_in (tables : list string) (target tbl : JVal) : Prop :=
  target = JNull ∧ tbl = JNull ∨
  ∃ t, tbl = JStr t ∧ t ∈ tables ∧ truthy (oprop target "sys_id") = true.

(** A computation whose value, when it returns one, satisfies [Q]. *)
Definition returns {A} (Q : A → Prop) (m : M A) : Prop :=
  ∀ w a w', m w = (Ok a, w') → Q a.

Definition status_in (l : list Z) (r : HttpReply) : Prop := http_status r ∈ l.

(** An entry that ends in the provenance tag of its author. *)
Definition tagged (e : Entry) : Prop :=
  ∃ author pre, toStr (by_ e) = Ok author ∧ text e = pre +:+ " #Cont. by " +:+ author.

(** ** Further inputs for the examples *)

Definition demo_user : JVal := JObj [("sys_id", JStr "u1"); ("user_name", JStr "jdoe")].

(** Three membership rows: a group given by reference, one given by its
    bare identifier, and one left empty. *)
Definition demo_membership : JVal :=
  JObj [("result",
         JArr [JObj [("group", JObj [("value", JStr "g1")])];
               JObj [("group", JStr "g2")];
               JObj [("group", JStr "")]])].

Definition demo_approval : JVal :=
  JObj [("sys_id", JStr "a1"); ("sysapproval", JObj [("value", JStr "c1")])].

(** The documents the upstream bodies of the further examples stand for. *)
Definition portal_parse : string → option JVal :=
  fun text =>
    if String.eqb text "user" then Some (JObj [("result", JArr [demo_user])])
    else if String.eqb text "groups" then Some demo_membership
    else if String.eqb text "group" then
      Some (JObj [("result", JArr [JObj [("sys_id", JStr demo_id);
                                        ("name", JStr "Service Desk")]])])
    else if String.eqb text "approval" then Some (JObj [("result", demo_approval)])
    else demo_parse text.

Definition ok_body (text : string) : Reply := Responded (mkResponse 200 "OK" (Some text)) 0.
Definition unavailable : Reply :=
  Responded (mkResponse 503 "Service Unavailable" (Some "")) 0.
Definition forbidden : Reply := Responded (mkResponse 403 "Forbidden" (Some "")) 0.

(** An upstream that is unavailable once and then serves the record. *)
Definition flaky_upstream : nat → Request → Reply :=
  fun n _ => match n with O => unavailable | S _ => ok_body "record" end.

(** An upstream that serves the user, then the membership rows. *)
Definition login_upstream : nat → Request → Reply :=
  fun n _ => match n with O => ok_body "user" | S _ => ok_body "groups" end.

(** An upstream whose access control lets only the service account read
    the membership rows. *)
Definition acl_upstream : nat → Request → Reply :=
  fun _ rq => if String.eqb (username (rq_auth rq)) "svc" then ok_body "groups" else forbidden.

(** An upstream that serves the approval row and then goes away. *)
Definition approval_upstream : nat → Request → Reply :=
  fun n _ => match n with O => ok_body "approval" | S _ => connection_reset end.

Definition login_body : JVal := JObj [("username", JStr "jdoe"); ("password", JStr "pw")].

Definition grouped_session : Session :=
  mkSession demo_user "admin" demo_creds (JStr "u1") [JStr "g1"].

Definition patient_opts : SnOpts := mkOpts false 15000 3.

(** An update body that changes nothing: an empty state and a null
    description. *)
Definition idle_body : JVal := JObj [("state", JStr ""); ("description", JNull)].

Definition user_creds : Creds := mkCreds "dev.service-now.com" "jdoe" "pw".

Definition approve_body : JVal :=
  JObj [("decision", JStr "APPROVE"); ("comments", JStr "ok")].

(** The sessions a login of jdoe stores, with the admin-for-all mode on
    and off. *)
Definition jdoe_session : Session :=
  mkSession demo_user "admin" demo_creds (JStr "u1") [JStr "g1"; JStr "g2"].

Definition jdoe_own_session : Session :=
  mkSession demo_user "user" user_creds (JStr "u1") [JStr "g1"; JStr "g2"].

(** ** Properties *)

(** *** The monad *)

Lemma bind_ok {A B} (m : M A) (k : A → M B) w a w1 :
  m w = (Ok a, w1) → bind m k w = k a w1.
Proof. intros H. unfold bind. by rewrite H. Qed.

Lemma bind_throw {A B} (m : M A) (k : A → M B) w e w1 :
  m w = (Throw e, w1) → bind m k w = (Throw e, w1).
Proof. intros H. unfold bind. by rewrite H. Qed.

Lemma bind_inv {A B} (m : M A) (k : A → M B) w r w' :
  bind m k w = (r, w') →
  (∃ a w1, m w = (Ok a, w1) ∧ k a w1 = (r, w')) ∨
  (∃ e, m w = (Throw e, w') ∧ r = Throw e).
Proof.
  unfold bind. destruct (m w) as [[a|e] w1] eqn:E; intros H.
  - left. eauto.
  - right. inversion H; subst. eauto.
Qed.

Lemma bind_ret {A B} (a : A) (k : A → M B) w : bind (ret a) k w = k a w.
Proof. reflexivity. Qed.

Lemma bind_lift_ok {A B} (r : Res A) (k : A → M B) w a :
  r = Ok a → bind (lift r) k w = k a w.
Proof. intros ->. reflexivity. Qed.

(** *** The upstream client *)

(** What a run of the retry loop leaves behind: between one and [k + 1]
    requests, all the same, and nothing else touched. *)
Lemma sn_attempts_frame opts rq k : ∀ attempt w r w',
  sn_attempts opts rq k attempt w = (r, w') →
  calls w' = calls w ∧ nameCache w' = nameCache w ∧
  ∃ n, (1 ≤ n ≤ S k)%nat ∧ fetched w' = fetched w ++ replicate n rq.
Proof.
  induction k as [|k IH]; intros attempt w r w' H; simpl in H;
    unfold bind, fetch in H;
    destruct (upstream (length (fetched w)) rq) as [e t|res t] eqn:Up; simpl in H.
  - inversion H; subst; simpl. repeat split; try done. exists 1%nat. split; [lia|done].
  - repeat case_match; inversion H; subst; simpl;
      (repeat split; try done; exists 1%nat; split; [lia|done]).
  - apply IH in H as (Hc & Hn & n & Hle & Hf). simpl in *.
    repeat split; try done. exists (S n). split; [lia|].
    rewrite Hf, <- app_assoc. done.
  - repeat case_match;
      try (inversion H; subst; simpl;
           repeat split; try done; exists 1%nat; split; [lia|done]);
      (apply IH in H as (Hc & Hn & n & Hle & Hf); simpl in *;
       repeat split; try done; exists (S n); split; [lia|];
       rewrite Hf, <- app_assoc; done).
Qed.

Lemma sn_opts_frame using_ method path body opts w r w' :
  sn_opts using_ method path body opts w = (r, w') →
  calls w' = calls w ++ [request_of using_ method path body] ∧
  nameCache w' = nameCache w ∧
  ∃ n, fetched w' = fetched w ++ replicate n (request_of using_ method path body).
Proof.
  unfold sn_opts, bind, log_call. simpl.
  destruct (retries opts <? 0).
  - unfold throw. intros H; inversion H; subst; simpl.
    repeat split; try done. exists 0%nat. by rewrite app_nil_r.
  - intros H. apply sn_attempts_frame in H as (Hc & Hn & n & _ & Hf). simpl in *.
    repeat split; try done. eauto.
Qed.

Lemma sn_frame using_ method path body w r w' :
  sn using_ method path body w = (r, w') →
  calls w' = calls w ++ [request_of using_ method path body] ∧
  nameCache w' = nameCache w ∧
  ∃ n, fetched w' = fetched w ++ replicate n (request_of using_ method path body).
Proof.
  unfold sn. intros H. apply bind_inv in H as [(a & w1 & H1 & H2)|(e & H1 & _)].
  - apply sn_opts_frame in H1. destruct a; inversion H2; subst; done.
  - by apply sn_opts_frame in H1.
Qed.

(** Any failure is retried while the budget lasts: against an upstream
    that answers every request with a 4xx, the loop sends [k + 1]
    requests before it throws. *)
Lemma sn_attempts_4xx opts rq k : ∀ attempt w,
  returnRaw opts = false →
  (∀ n, ∃ res t, upstream n rq = Responded res t ∧ 400 ≤ rs_status res ≤ 499) →
  ∃ e w', sn_attempts opts rq k attempt w = (Throw e, w') ∧
          fetched w' = fetched w ++ replicate (S k) rq ∧
          ∃ s, err_httpStatus e = Some s ∧ 400 ≤ s ≤ 499.
Proof.
  induction k as [|k IH]; intros attempt w Hraw Hup;
    destruct (Hup (length (fetched w))) as (res & t & Hr & Hs);
    simpl; unfold bind, fetch; rewrite Hr; simpl; rewrite Hraw;
    assert (res_ok res = false) as -> by (unfold res_ok; lia);
    simpl.
  - rewrite andb_false_r. unfold throw. eexists _, _. split; [done|].
    simpl. split; [done|]. eauto.
  - assert ((500 <=? rs_status res) = false) as -> by lia. simpl.
    unfold sleep. simpl.
    edestruct (IH (attempt + 1)) as (e & w' & He & Hf & Hst); [done..|].
    rewrite He. eexists _, _. split; [done|]. split; [|done].
    rewrite Hf. simpl. by rewrite <- app_assoc.
Qed.

(** *** The session check *)

Lemma nonempty_true s : s ≠ "" → nonempty s = true.
Proof. unfold nonempty. intros H. by apply negb_true_iff, String.eqb_neq. Qed.

(** C9. A request whose Authorization header carries no bearer token (it
    is absent or does not start with "Bearer ") and whose query string
    has a [token] that maps to a live session is authenticated, with the
    session and token that the same token in a bearer header gives.  (A
    token of a live session is one that login issued, so it is not the
    empty string.) *)
Theorem query_token_authenticates (sessions : gmap string Session) req tok sess :
  (∀ h, authorization req = Some h → startsWith h "Bearer " = false) →
  oprop (query req) "token" = JStr tok →
  tok ≠ "" →
  sessions !! tok = Some sess →
  requireAuth sessions req = Next sess tok ∧
  requireAuth sessions (mkAuthInput (Some ("Bearer " +:+ tok)) (JObj [])) = Next sess tok.
Proof.
  intros Hh Hq Hne Hs.
  assert (truthy (JStr tok) = true) as Ht by (by apply nonempty_true).
  split.
  - unfold requireAuth.
    assert (startsWith (default "" (authorization req)) "Bearer " = false) as ->.
    { destruct (authorization req) as [h|]; [by apply Hh|reflexivity]. }
    rewrite Hq. unfold js_or. rewrite Ht, Ht, Hs. reflexivity.
  - unfold requireAuth, authorization.
    change ("Bearer " +:+ tok)
      with (String "B" (String "e" (String "a" (String "r" (String "e"
             (String "r" (String " " tok))))))).
    unfold startsWith. simpl default.
    assert (String.prefix "" tok = true) as Hp by (by destruct tok).
    simpl String.prefix. simpl string_drop. rewrite Hp, Ht, Hs. reflexivity.
Qed.

(** *** The reference resolver *)

Lemma hex_digits_is_hex c : c ∈ hex_digits → is_hex c = true.
Proof.
  intros H. apply list_elem_of_In in H. simpl in H.
  repeat (destruct H as [<-|H]; [reflexivity|]). destruct H.
Qed.

Lemma canonical_shape_test s : canonical_shape s → SYSID_RE_test s = true.
Proof.
  intros [Hl Hd]. unfold SYSID_RE_test. rewrite Hl. simpl.
  apply forallb_forall. intros c Hc. apply hex_digits_is_hex.
  rewrite Forall_forall in Hd. apply Hd. by apply list_elem_of_In.
Qed.

(** C5. An input string that already has the canonical identifier shape
    is returned unchanged, and the world is left as it was: no call is
    made through the upstream client and no request is sent. *)
Theorem resolveRef_canonical using_ forceTable s w :
  canonical_shape s →
  resolveRef using_ forceTable (JStr s) w = (Ok (JStr s), w).
Proof.
  intros H. unfold resolveRef. simpl.
  assert (nonempty s = true) as ->.
  { apply nonempty_true. intros ->. by destruct H. }
  simpl. by rewrite (canonical_shape_test _ H).
Qed.

(** *** The display name cache *)

Lemma resolve_start_refetch table id w h :
  id ≠ "" →
  nameCache w !! cache_key table id = Some h →
  ce_exp h ≤ clock w →
  resolve_start table (Some id) w = (Ok (inr (cache_key table id, id, clock w)), w).
Proof.
  intros Hid Hh Hexp. unfold resolve_start.
  rewrite (nonempty_true _ Hid). simpl.
  unfold bind, now, cache_get. rewrite Hh.
  assert ((clock w <? ce_exp h) = false) as -> by lia. reflexivity.
Qed.

Lemma resolve_finish_ok using_ table key id t w d w1 :
  sn using_ "GET" (display_name_path table id) None w = (Ok d, w1) →
  resolve_finish using_ table (key, id, t) w =
    (Ok (label_of d id), with_entry w1 key (mkEntry (label_of d id) (t + NAME_TTL_MS))).
Proof.
  intros H. unfold resolve_finish, try_catch.
  rewrite (bind_ok _ _ _ _ _ H). reflexivity.
Qed.

Lemma resolve_finish_throw using_ table key id t w e w1 :
  sn using_ "GET" (display_name_path table id) None w = (Throw e, w1) →
  resolve_finish using_ table (key, id, t) w = (Ok (JStr id), w1).
Proof.
  intros H. unfold resolve_finish, try_catch.
  rewrite (bind_throw _ _ _ _ _ H). reflexivity.
Qed.

Lemma resolve_finish_calls using_ table key id t w r w' :
  resolve_finish using_ table (key, id, t) w = (r, w') →
  calls w' = calls w ++ [request_of using_ "GET" (display_name_path table id) None].
Proof.
  destruct (sn using_ "GET" (display_name_path table id) None w) as [[d|e] w1] eqn:Hsn;
    [rewrite (resolve_finish_ok _ _ _ _ _ _ _ _ Hsn)
    |rewrite (resolve_finish_throw _ _ _ _ _ _ _ _ Hsn)];
    intros H; inversion H; subst; simpl; by apply sn_frame in Hsn as [? _].
Qed.

Lemma no_growth {A} (l : list A) x : l = l ++ [x] → False.
Proof. intros H. apply (f_equal length) in H. rewrite length_app in H. simpl in H. lia. Qed.

(** C6, as amended. For an entry whose expiry has passed
    ([ce_exp h ≤ clock w]) the stale label is not what is returned: one
    call is made through the upstream client; when it succeeds its label
    is returned and replaces the entry, with expiry five minutes after
    the time read; when it fails the identifier is returned and the cache
    is left as it was.  And an answer given without an upstream call is
    the label of an entry that is present and unexpired. *)
Theorem expired_entry_is_refetched using_ table id w :
  id ≠ "" →
  (∀ h r w1,
     nameCache w !! cache_key table id = Some h →
     ce_exp h ≤ clock w →
     sn using_ "GET" (display_name_path table id) None w = (r, w1) →
     calls w1 = calls w ++ [request_of using_ "GET" (display_name_path table id) None] ∧
     match r with
     | Ok d =>
         _resolveDisplayName using_ table (Some id) w =
           (Ok (label_of d id),
            with_entry w1 (cache_key table id)
                       (mkEntry (label_of d id) (clock w + 5 * 60 * 1000))) ∧
         nameCache w1 = nameCache w
     | Throw _ =>
         _resolveDisplayName using_ table (Some id) w = (Ok (JStr id), w1) ∧
         nameCache w1 = nameCache w
     end) ∧
  (∀ label w',
     _resolveDisplayName using_ table (Some id) w = (Ok label, w') →
     calls w' = calls w →
     ∃ h, nameCache w !! cache_key table id = Some h ∧ clock w < ce_exp h ∧
          label = ce_name h ∧ w' = w).
Proof.
  intros Hid. split.
  - intros h r w1 Hh Hexp Hsn.
    pose proof (sn_frame _ _ _ _ _ _ _ Hsn) as (Hc & Hn & _).
    split; [done|].
    unfold _resolveDisplayName.
    rewrite (bind_ok _ _ _ _ _ (resolve_start_refetch _ _ _ _ Hid Hh Hexp)).
    destruct r as [d|e].
    + by rewrite (resolve_finish_ok _ _ _ _ _ _ _ _ Hsn).
    + by rewrite (resolve_finish_throw _ _ _ _ _ _ _ _ Hsn).
  - intros label w' Hrun Hcalls.
    unfold _resolveDisplayName, resolve_start in Hrun.
    rewrite (nonempty_true _ Hid) in Hrun. simpl in Hrun.
    unfold bind at 1 2, now, cache_get in Hrun. unfold bind in Hrun.
    destruct (nameCache w !! cache_key table id) as [h|] eqn:Hh.
    + destruct (clock w <? ce_exp h) eqn:Hfresh.
      * inversion Hrun; subst. exists h. repeat split; try done. lia.
      * simpl in Hrun. apply resolve_finish_calls in Hrun.
        rewrite Hrun in Hcalls. symmetry in Hcalls. by apply no_growth in Hcalls.
    + simpl in Hrun. apply resolve_finish_calls in Hrun.
      rewrite Hrun in Hcalls. symmetry in Hcalls. by apply no_growth in Hcalls.
Qed.

(** *** Sorting *)

Lemma insert_by_perm {A} (cmp : A → A → Z) x l : insert_by cmp x l ≡ₚ x :: l.
Proof.
  induction l as [|y l IH]; simpl; [done|].
  destruct (cmp x y <=? 0); [done|]. rewrite IH. apply Permutation_swap.
Qed.

Lemma sort_by_perm {A} (cmp : A → A → Z) l : sort_by cmp l ≡ₚ l.
Proof.
  induction l as [|x l IH]; simpl; [done|].
  rewrite insert_by_perm. by rewrite IH.
Qed.




Lemma mapR_Forall2 {A B} (f : A → Res B) l l' :
  mapR f l = Ok l' → Forall2 (λ x y, f x = Ok y) l l'.
Proof.
  revert l'. induction l as [|x l IH]; intros l' H; simpl in H.
  - inversion H. constructor.
  - destruct (f x) as [y|e] eqn:Hx; simpl in H; [|done].
    destruct (mapR f l) as [ys|e] eqn:Hl; simpl in H; [|done].
    inversion H; subst. constructor; [done|by apply IH].
Qed.






(** Sorting neither drops nor adds an entry. *)
Lemma sort_entries_perm entries es : sort_entries entries = Ok es → es ≡ₚ entries.
Proof.
  unfold sort_entries. destruct (length entries <? 2)%nat; intros H.
  - by inversion H.
  - destruct (mapR with_key entries) as [keyed|e] eqn:Hk; simpl in H; [|done].
    inversion H; subst. rewrite sort_by_perm.
    apply mapR_Forall2 in Hk. clear H.
    induction Hk as [|x p l1 l2 Hx _ IH]; [done|].
    unfold with_key in Hx. destruct (toStr (ts x)) as [k|]; simpl in Hx; [|done].
    inversion Hx; subst. simpl. by rewrite IH.
Qed.

(** *** The narrative *)

Tactic Notation "bind_ok" hyp(H) "as" ident(a) ident(w) ident(E) :=
  apply bind_inv in H as [(a & w & E & H)|(? & _ & ?)]; [|discriminate].

Lemma lift_ok {A} (r : Res A) w a w' : lift r w = (Ok a, w') → r = Ok a ∧ w' = w.
Proof. unfold lift. intros H. by inversion H. Qed.

Lemma prop_ok x k v : prop x k = Ok v → v = oprop x k.
Proof. destruct x; simpl; intros H; by inversion H. Qed.

(** How an answer of [narrative_entries] comes about. *)
Lemma narrative_entries_inv session sys_id w es w' :
  narrative_entries session sys_id w = (Ok es, w') →
  ∃ jf w1 au w2 jrows journal arows slots,
    sn (pickActingCreds session) "GET" (journal_path sys_id) None w = (Ok jf, w1) ∧
    sn adminCreds "GET" (audit_path sys_id) None w1 = (Ok au, w2) ∧
    iterate (js_or (oprop jf "result") (JArr [])) = Ok jrows ∧
    mapR journalEntry jrows = Ok journal ∧
    as_array (js_or (oprop au "result") (JArr [])) = Ok arows ∧
    audit_slots arows w2 = (Ok slots, w') ∧
    sort_entries (journal ++ omap id slots) = Ok es.
Proof.
  unfold narrative_entries. intros H.
  bind_ok H as jf w1 Ejf. bind_ok H as au w2 Eau.
  bind_ok H as jres w3 Ejres. apply lift_ok in Ejres as [Ejres ->].
  apply prop_ok in Ejres as ->.
  bind_ok H as jrows w3 Ejrows. apply lift_ok in Ejrows as [Ejrows ->].
  bind_ok H as journal w3 Ejournal. apply lift_ok in Ejournal as [Ejournal ->].
  bind_ok H as ares w3 Eares. apply lift_ok in Eares as [Eares ->].
  apply prop_ok in Eares as ->.
  bind_ok H as arows w3 Earows. apply lift_ok in Earows as [Earows ->].
  bind_ok H as slots w3 Eslots. apply lift_ok in H as [H ->].
  eexists _, _, _, _, _, _, _, _. repeat split; eassumption.
Qed.

(** The narrative is the journal entries and the entries of the audit
    pass, rearranged. *)
Lemma narrative_is_merge session sys_id w es w' :
  narrative_entries session sys_id w = (Ok es, w') →
  ∃ au journal arows slots w2,
    mapR journalEntry journal.1 = Ok journal.2 ∧
    as_array (js_or (oprop au "result") (JArr [])) = Ok arows ∧
    audit_slots arows w2 = (Ok slots, w') ∧
    es ≡ₚ journal.2 ++ omap id slots.
Proof.
  intros H. apply narrative_entries_inv in H
    as (jf & w1 & au & w2 & jrows & journal & arows & slots & _ & _ & _ & Hj & Ha & Hs & Hsort).
  exists au, (jrows, journal), arows, slots, w2.
  repeat split; try done. by apply sort_entries_perm.
Qed.


(** *** The audit pass *)

Lemma is_field_true k r : is_field k r = true ↔ field_lower r = Ok k.
Proof.
  unfold is_field. destruct (field_lower r) as [fl|e]; split; intros H; try done.
  - by apply String.eqb_eq in H as ->.
  - inversion H; subst. apply String.eqb_refl.
Qed.


Lemma audit_text_ok f r o n text :
  audit_text f r o n = Ok text →
  ∃ author os ns,
    toStr (oprop r "sys_created_by") = Ok author ∧ toStr o = Ok os ∧ toStr n = Ok ns ∧
    text = f +:+ ": " +:+ os +:+ " " +:+ arrow +:+ " " +:+ ns +:+ " #Cont. by " +:+ author.
Proof.
  unfold audit_text, rbind. intros H.
  destruct (toStr (oprop r "sys_created_by")) as [author|]; [|done].
  destruct (toStr o) as [os|]; [|done].
  destruct (toStr n) as [ns|]; [|done].
  inversion H; subst. eauto 10.
Qed.

(** An empty unwrapped value is shown as the placeholder, whatever the
    field: an assignment field resolves only values that look like
    identifiers. *)
Lemma shown_values_placeholder fl rawOld rawNew w vals w' :
  shown_values fl rawOld rawNew w = (Ok vals, w') →
  (rawOld = "" → vals.1 = JStr placeholder) ∧ (rawNew = "" → vals.2 = JStr placeholder).
Proof.
  unfold shown_values. intros H.
  destruct (String.eqb fl "assigned_to" || String.eqb fl "assignment_group").
  - destruct (bool_decide (is_Some (as_sys_id rawOld)) ||
              bool_decide (is_Some (as_sys_id rawNew))) eqn:Hany.
    + bind_ok H as names w1 Enames. destruct names as [oName nName].
      inversion H; subst; simpl.
      split; intros ->; reflexivity.
    + inversion H; subst; simpl. split; intros ->; reflexivity.
  - inversion H; subst; simpl. split; intros ->; reflexivity.
Qed.

(** How an answer of [auditRow] comes about: the row is skipped as the
    echo of a journal field or as a status alias already seen, or it
    yields its entry. *)
Lemma auditRow_inv seen r w s w' :
  auditRow seen r w = (Ok s, w') →
  ∃ f0, toStr (js_or (oprop r "fieldname") (JStr "")) = Ok f0 ∧
        field_lower r = Ok (toLowerCase f0) ∧
    let fl := toLowerCase f0 in
    (s = None ∧ w' = w ∧
     (String.eqb fl "work_notes" || String.eqb fl "comments" ||
      String.eqb fl "incident_state" && seen_has seen (oprop r "sys_created_on")) = true) ∨
    (∃ vals text,
       (String.eqb fl "work_notes" || String.eqb fl "comments" ||
        String.eqb fl "incident_state" && seen_has seen (oprop r "sys_created_on")) = false ∧
       shown_values fl (unwrapAuditVal (oprop r "oldvalue"))
                       (unwrapAuditVal (oprop r "newvalue")) w = (Ok vals, w') ∧
       audit_text (if String.eqb fl "incident_state" then "state" else f0) r vals.1 vals.2
         = Ok text ∧
       s = Some (mkEntryRow (oprop r "sys_created_on") (oprop r "sys_created_by")
                            "FIELD" text)).
Proof.
  unfold auditRow. intros H.
  bind_ok H as fn w1 Efn. apply lift_ok in Efn as [Efn ->].
  pose proof (prop_ok _ _ _ Efn) as ->.
  bind_ok H as f0 w1 Ef0. apply lift_ok in Ef0 as [Ef0 ->].
  exists f0. split; [done|]. split.
  { unfold field_lower, rbind. by rewrite Efn, Ef0. }
  cbv zeta in *.
  destruct (String.eqb (toLowerCase f0) "work_notes" ||
            String.eqb (toLowerCase f0) "comments") eqn:Hecho.
  { inversion H; subst. left. done. }
  destruct (String.eqb (toLowerCase f0) "incident_state" &&
            seen_has seen (oprop r "sys_created_on")) eqn:Hseen.
  { inversion H; subst. left. done. }
  right. bind_ok H as vals w1 Evals. bind_ok H as text w2 Etext.
  apply lift_ok in Etext as [Etext ->].
  inversion H; subst. exists vals, text. done.
Qed.

(** What the set finds: the timestamps of the primary status rows. *)
Lemma stateSeenAt_has rows seen v :
  stateSeenAt rows = Ok seen →
  seen_has seen v = existsb (primary_row_at v) rows.
Proof.
  revert seen. induction rows as [|x rows IH]; intros seen Hs; simpl in Hs.
  - by inversion Hs.
  - unfold rbind in Hs.
    destruct (field_lower x) as [fl|] eqn:Hfl; [|done].
    destruct (stateSeenAt rows) as [seen'|] eqn:Hrest; [|done].
    inversion Hs; subst; clear Hs.
    cbn [existsb]. rewrite <- (IH _ eq_refl).
    unfold primary_row_at, is_field. rewrite Hfl.
    by destruct (String.eqb fl "state").
Qed.

(** An object is the same value as no member of the set. *)
Lemma seen_has_object seen ps : seen_has seen (JObj ps) = false.
Proof. unfold seen_has. by induction seen as [|x seen IH]. Qed.

Lemma mapM_Forall2 {A B} (f : A → M B) l : ∀ w l' w',
  mapM f l w = (Ok l', w') →
  Forall2 (λ x y, ∃ wi wi', f x wi = (Ok y, wi')) l l'.
Proof.
  induction l as [|x l IH]; intros w l' w' H; simpl in H.
  - inversion H. constructor.
  - bind_ok H as y w1 Ey. bind_ok H as ys w2 Eys. inversion H; subst.
    constructor; eauto.
Qed.

Lemma audit_slots_inv rows w slots w' :
  audit_slots rows w = (Ok slots, w') →
  ∃ seen, stateSeenAt rows = Ok seen ∧
          Forall2 (λ r s, ∃ wi wi', auditRow seen r wi = (Ok s, wi')) rows slots.
Proof.
  unfold audit_slots. intros H. bind_ok H as seen w1 E. apply lift_ok in E as [E ->].
  exists seen. split; [done|]. by eapply mapM_Forall2.
Qed.

(** Where the de-duplication works: a status alias whose timestamp the
    set finds among those of the primary status rows (a string, or
    another primitive value) is discarded. *)
Lemma matched_alias_is_dropped rows w slots w' i a :
  audit_slots rows w = (Ok slots, w') →
  rows !! i = Some a →
  is_field "incident_state" a = true →
  existsb (primary_row_at (oprop a "sys_created_on")) rows = true →
  slots !! i = Some None.
Proof.
  intros Hrun Hi Hf Hprimary.
  apply audit_slots_inv in Hrun as (seen & Hseen & Hall).
  destruct (Forall2_lookup_l _ _ _ _ _ Hall Hi) as (s & Hs & wi & wi' & Hrow).
  rewrite Hs. do 2 f_equal.
  apply is_field_true in Hf.
  apply auditRow_inv in Hrow as (f0 & _ & Hfl & [(-> & _)|(vals & text & Hskip & _)]); [done|].
  rewrite Hf in Hfl. inversion Hfl as [Hl].
  rewrite <- Hl, (stateSeenAt_has _ _ _ Hseen), Hprimary in Hskip. done.
Qed.





(** *** Unwrapping *)

Lemma append_cons a p r : String a p +:+ r = String a (p +:+ r).
Proof. reflexivity. Qed.

Lemma trimStart_eq a s1 :
  trimStart (String a s1) =
  if blank1 a then trimStart s1 else
  match s1 with
  | String b s2 =>
      if blank2 a b then trimStart s2 else
      match s2 with
      | String c s3 => if blank3 a b c then trimStart s3 else String a s1
      | EmptyString => String a s1
      end
  | EmptyString => String a s1
  end.
Proof. by destruct s1 as [|b [|c s3]]. Qed.

Lemma trimEnd_eq c s :
  trimEnd (String c s) =
  if is_blank (String c (trimEnd s)) then EmptyString else String c (trimEnd s).
Proof. reflexivity. Qed.

Lemma ends_blank_eq c s : ends_blank (String c s) = is_blank (String c s) || ends_blank s.
Proof. reflexivity. Qed.

Lemma starts_blank_false a s1 :
  starts_blank (String a s1) = false →
  blank1 a = false ∧
  match s1 with
  | String b s2 =>
      blank2 a b = false ∧
      match s2 with
      | String c _ => blank3 a b c = false
      | EmptyString => True
      end
  | EmptyString => True
  end.
Proof.
  destruct s1 as [|b [|c s3]]; simpl; intros H.
  - done.
  - by apply orb_false_iff in H as [-> ->].
  - apply orb_false_iff in H as [H ->]. by apply orb_false_iff in H as [-> ->].
Qed.

Lemma trimStart_clean s : starts_blank s = false → trimStart s = s.
Proof.
  destruct s as [|a s1]; [done|]. intros H.
  apply starts_blank_false in H as [Ha H]. rewrite trimStart_eq, Ha.
  destruct s1 as [|b s2]; [done|]. destruct H as [Hb H]. rewrite Hb.
  destruct s2 as [|c s3]; [done|]. by rewrite H.
Qed.

Lemma trimEnd_clean s : ends_blank s = false → trimEnd s = s.
Proof.
  induction s as [|c s IH]; [done|]. rewrite ends_blank_eq, trimEnd_eq. intros H.
  apply orb_false_iff in H as [Hb Hs]. by rewrite (IH Hs), Hb.
Qed.

Lemma trimEnd_ends s : ends_blank (trimEnd s) = false.
Proof.
  induction s as [|c s IH]; [done|]. rewrite trimEnd_eq.
  destruct (is_blank (String c (trimEnd s))) eqn:Hb; [done|].
  by rewrite ends_blank_eq, Hb, IH.
Qed.

Lemma trimEnd_prefix s : ∃ r, s = trimEnd s +:+ r.
Proof.
  induction s as [|c s [r IH]]; [by exists ""|]. rewrite trimEnd_eq.
  destruct (is_blank (String c (trimEnd s))); [by eexists|].
  exists r. by rewrite append_cons, <- IH.
Qed.

(** A string that begins with white space still does when it is
    extended. *)
Lemma starts_blank_app p r : starts_blank p = true → starts_blank (p +:+ r) = true.
Proof.
  destruct p as [|a [|b [|c p]]]; intros H; [done|..]; rewrite ?append_cons.
  - change ("" +:+ r) with r. simpl in H.
    destruct r as [|b [|c r]]; simpl; by rewrite H.
  - change ("" +:+ r) with r. simpl in H.
    destruct r as [|c r]; simpl; by rewrite H.
  - exact H.
Qed.

Lemma trimStart_starts s : starts_blank (trimStart s) = false.
Proof.
  remember (String.length s) as n eqn:Hn.
  assert (String.length s ≤ n)%nat as Hle by lia. clear Hn.
  revert s Hle. induction n as [|n IH]; intros s Hle.
  { destruct s; [done|simpl in Hle; lia]. }
  destruct s as [|a s1]; [done|]. rewrite trimStart_eq.
  destruct (blank1 a) eqn:Ha; [apply IH; simpl in Hle; lia|].
  destruct s1 as [|b s2]; [simpl; by rewrite Ha|].
  destruct (blank2 a b) eqn:Hb; [apply IH; simpl in Hle; lia|].
  destruct s2 as [|c s3]; [simpl; by rewrite Ha, Hb|].
  destruct (blank3 a b c) eqn:Hc; [apply IH; simpl in Hle; lia|].
  simpl. by rewrite Ha, Hb, Hc.
Qed.

Lemma trim_ends_clean s : ends_clean s = true → trim s = s.
Proof.
  unfold ends_clean, trim. intros H.
  apply andb_true_iff in H as [Hs He]. apply negb_true_iff in Hs, He.
  rewrite (trimStart_clean _ Hs). by apply trimEnd_clean.
Qed.

(** What [trim] returns has no white space at either end. *)
Lemma trim_clean s : ends_clean (trim s) = true.
Proof.
  unfold ends_clean, trim. rewrite trimEnd_ends, andb_true_r.
  apply negb_true_iff.
  destruct (starts_blank (trimEnd (trimStart s))) eqn:H; [|done].
  destruct (trimEnd_prefix (trimStart s)) as [r Hr].
  apply (starts_blank_app _ r) in H. rewrite <- Hr in H.
  by rewrite trimStart_starts in H.
Qed.

(** A byte from which no white-space code point is made. *)
Lemma number_char_plain c :
  c ∈ number_chars → blank1 c = false ∧ (nat_of_ascii c < 194)%nat.
Proof.
  unfold number_chars. simpl. intros H.
  repeat (apply elem_of_cons in H as [->|H]; [split; [reflexivity|apply Nat.ltb_lt; reflexivity]|]).
  by apply elem_of_nil in H.
Qed.

Lemma is_blank_plain a s :
  blank1 a = false → (nat_of_ascii a < 194)%nat → is_blank (String a s) = false.
Proof.
  intros Ha Hlt. destruct s as [|b [|c [|d s]]]; simpl; [done| | |done].
  - unfold blank2, bytes_are. apply bool_decide_eq_false. simpl. intros [= H _]. lia.
  - unfold blank3. cbv zeta.
    repeat match goal with
           | |- context [(nat_of_ascii a =? ?k)%nat] =>
               replace (nat_of_ascii a =? k)%nat with false
                 by (symmetry; apply Nat.eqb_neq; lia)
           end.
    done.
Qed.

Lemma number_form_clean s : number_form s = true → ends_clean s = true.
Proof.
  unfold number_form. intros H.
  apply orb_true_iff in H as [H|H].
  { apply orb_true_iff in H as [H|H]; [apply orb_true_iff in H as [H|H]|];
      apply String.eqb_eq in H; by subst. }
  assert (∀ c, In c (list_ascii_of_string s) →
               blank1 c = false ∧ (nat_of_ascii c < 194)%nat) as Hplain.
  { intros c Hc. rewrite forallb_forall in H. specialize (H c Hc).
    apply bool_decide_eq_true in H. by apply number_char_plain. }
  clear H. unfold ends_clean.
  assert (ends_blank s = false) as ->.
  { induction s as [|a s IH]; [done|]. rewrite ends_blank_eq.
    destruct (Hplain a) as [Ha Hlt]; [by left|].
    rewrite (is_blank_plain _ _ Ha Hlt). apply IH.
    intros c Hc. apply Hplain. by right. }
  rewrite andb_true_r. apply negb_true_iff.
  destruct s as [|a s]; [done|].
  destruct (Hplain a) as [Ha Hlt]; [by left|].
  pose proof (is_blank_plain a) as Hb.
  destruct s as [|b [|c s]]; simpl; rewrite Ha; simpl.
  - done.
  - exact (Hb (String b "") Ha Hlt).
  - rewrite (Hb (String b "") Ha Hlt : blank2 a b = false). simpl.
    exact (Hb (String b (String c "")) Ha Hlt).
Qed.

(** C8, as amended. Unwrapping a plain scalar gives its string form with
    the white space at its two ends removed: the trimmed string for a
    string, which is the string itself when neither end is white space,
    and the string form unchanged for every number and boolean.  An
    empty or null value unwraps to the empty string, and wherever the old
    or the new value of a row unwraps to the empty string its rendered
    entry, "field: old -> new" with the tag of the row's author, shows
    the placeholder in that place. *)
Theorem unwrap_trims_then_placeholder :
  (∀ s, unwrapAuditVal (JStr s) = trim s) ∧
  (∀ s, ends_clean s = true → unwrapAuditVal (JStr s) = s) ∧
  (∀ form, number_form form = true → unwrapAuditVal (JNum form) = form) ∧
  (∀ b, unwrapAuditVal (JBool b) = if b then "true" else "false") ∧
  (unwrapAuditVal JNull = "" ∧ unwrapAuditVal JUndefined = "" ∧
   unwrapAuditVal (JStr "") = "") ∧
  (∀ seen r w e w', auditRow seen r w = (Ok (Some e), w') →
     ∃ f0 o n author,
       toStr (js_or (oprop r "fieldname") (JStr "")) = Ok f0 ∧
       toStr (oprop r "sys_created_by") = Ok author ∧
       text e = (if String.eqb (toLowerCase f0) "incident_state" then "state" else f0) +:+
                ": " +:+ o +:+ " " +:+ arrow +:+ " " +:+ n +:+ " #Cont. by " +:+ author ∧
       (unwrapAuditVal (oprop r "oldvalue") = "" → o = placeholder) ∧
       (unwrapAuditVal (oprop r "newvalue") = "" → n = placeholder)).
Proof.
  repeat split.
  - intros s Hs. unfold unwrapAuditVal. simpl. by apply trim_ends_clean.
  - intros form Hform. unfold unwrapAuditVal. simpl.
    by apply trim_ends_clean, number_form_clean.
  - by intros [].
  - intros seen r w e w' Hrun.
    apply auditRow_inv in Hrun
      as (f0 & Hf0 & _ & [(Hnone & _)|(vals & text & _ & Hvals & Htext & Hsome)]); [done|].
    inversion Hsome; subst e; clear Hsome. simpl.
    apply audit_text_ok in Htext as (author & os & ns & Hauthor & Ho & Hn & ->).
    apply shown_values_placeholder in Hvals as [Hold Hnew].
    exists f0, os, ns, author. repeat split; try done.
    + intros Hempty. rewrite (Hold Hempty) in Ho. by inversion Ho.
    + intros Hempty. rewrite (Hnew Hempty) in Hn. by inversion Hn.
Qed.

(** *** The record update pipeline *)

Lemma prop_defined x k : x ≠ JNull → x ≠ JUndefined → prop x k = Ok (oprop x k).
Proof. by destruct x. Qed.


(** ** Further properties *)

(** *** The upstream client, continued *)

(** X1. With a retry budget that is not negative, a call through the
    upstream client sends at least one and at most [retries + 1]
    requests, all of them the request built from its arguments; it logs
    one call and leaves the display name cache alone. *)
Theorem sn_sends_within_budget using_ method path body opts w r w' :
  0 ≤ retries opts →
  sn_opts using_ method path body opts w = (r, w') →
  calls w' = calls w ++ [request_of using_ method path body] ∧
  nameCache w' = nameCache w ∧
  ∃ n, (1 ≤ n)%nat ∧ Z.of_nat n ≤ retries opts + 1 ∧
       fetched w' = fetched w ++ replicate n (request_of using_ method path body).
Proof.
  intros Hr. unfold sn_opts, bind, log_call. simpl.
  assert ((retries opts <? 0) = false) as -> by lia.
  intros H. apply sn_attempts_frame in H as (Hc & Hn & n & Hle & Hf). simpl in *.
  repeat split; try done. exists n. repeat split; [lia|lia|done].
Qed.

(** The document [sn] returns is the parsed body of an accepted response
    of the upstream to one of the requests of this run. *)
Lemma sn_attempts_data opts rq k : ∀ attempt w d w',
  returnRaw opts = false →
  sn_attempts opts rq k attempt w = (Ok d, w') →
  ∃ n res t, (length (fetched w) ≤ n < length (fetched w'))%nat ∧
    upstream n rq = Responded res t ∧ accepted res = true ∧
    d = SnData (parse_data (default "" (rs_text res))).
Proof.
  induction k as [|k IH]; intros attempt w d w' Hraw H; simpl in H;
    unfold bind, fetch in H;
    destruct (upstream (length (fetched w)) rq) as [e t0|res t0] eqn:Up; simpl in H.
  - done.
  - rewrite Hraw in H. unfold accepted.
    destruct (res_ok res && negb (is_failure_marker
                (oprop (parse_data (default "" (rs_text res))) "status"))
              && negb (truthy (oprop (parse_data (default "" (rs_text res))) "error")))
      eqn:Hacc.
    + inversion H; subst; simpl. exists (length (fetched w)), res, t0.
      rewrite length_app. simpl. repeat split; try done; lia.
    + rewrite andb_false_r in H. done.
  - apply IH in H as (n & res & t & Hn & Hup & Hacc & ->); [|done]. simpl in Hn.
    rewrite length_app in Hn. simpl in Hn. exists n, res, t. repeat split; try done; lia.
  - rewrite Hraw in H.
    destruct (res_ok res && negb (is_failure_marker
                (oprop (parse_data (default "" (rs_text res))) "status"))
              && negb (truthy (oprop (parse_data (default "" (rs_text res))) "error")))
      eqn:Hacc.
    + inversion H; subst; simpl. exists (length (fetched w)), res, t0.
      rewrite length_app. simpl. repeat split; try done; lia.
    + assert (∃ w1, sn_attempts opts rq k (attempt + 1) w1 = (Ok d, w') ∧
                    length (fetched w1) = S (length (fetched w))) as (w1 & H1 & Hl).
      { destruct ((500 <=? rs_status res) && true); simpl in H;
          (eexists; split; [exact H|]); simpl; rewrite length_app; simpl; lia. }
      apply IH in H1 as (n & res' & t' & Hn & Hup & Hacc' & ->); [|done].
      exists n, res', t'. repeat split; try done; lia.
Qed.

Lemma sn_opts_data using_ method path body opts w d w' :
  returnRaw opts = false →
  sn_opts using_ method path body opts w = (Ok d, w') →
  ∃ n res t, (length (fetched w) ≤ n < length (fetched w'))%nat ∧
    upstream n (request_of using_ method path body) = Responded res t ∧
    accepted res = true ∧
    d = SnData (parse_data (default "" (rs_text res))).
Proof.
  intros Hraw. unfold sn_opts, bind, log_call. simpl.
  destruct (retries opts <? 0); intros H; [done|].
  apply sn_attempts_data in H as (n & res & t & Hn & Hrest); [|done].
  simpl in Hn. eauto.
Qed.

(** X2. Whatever [sn] returns is the parsed body of a response of the
    upstream to this very request that had a 2xx status and carried
    neither the failure marker nor an error: a caller never receives the
    document of a failure. *)
Theorem sn_returns_an_accepted_document using_ method path body w d w' :
  sn using_ method path body w = (Ok d, w') →
  ∃ n res t, (length (fetched w) ≤ n < length (fetched w'))%nat ∧
    upstream n (request_of using_ method path body) = Responded res t ∧
    accepted res = true ∧
    d = parse_data (default "" (rs_text res)) ∧
    is_failure_marker (oprop d "status") = false ∧ truthy (oprop d "error") = false.
Proof.
  unfold sn. intros H.
  apply bind_inv in H as [(out & w1 & H1 & H2)|(? & _ & ?)]; [|done].
  apply sn_opts_data in H1 as (n & res & t & Hn & Hup & Hacc & ->); [|done].
  inversion H2; subst.
  exists n, res, t.
  split; [exact Hn|]. split; [done|]. split; [done|]. split; [done|].
  unfold accepted in Hacc. cbv zeta in Hacc.
  apply andb_true_iff in Hacc as [Hacc He].
  apply andb_true_iff in Hacc as [_ Hm].
  apply negb_true_iff in Hm, He. done.
Qed.

Lemma accepted_unfold res :
  res_ok res && negb (is_failure_marker
     (oprop (parse_data (default "" (rs_text res))) "status"))
  && negb (truthy (oprop (parse_data (default "" (rs_text res))) "error"))
  = accepted res.
Proof. reflexivity. Qed.

Lemma sn_attempts_step opts rq k attempt w :
  returnRaw opts = false →
  sn_attempts opts rq (S k) attempt w =
  bind (fetch rq) (fun reply =>
    match reply with
    | Rejected e _ =>
        bind (sleep (100 * 2 ^ (attempt + 1)))
             (fun _ => sn_attempts opts rq k (attempt + 1))
    | Responded res _ =>
        if accepted res
        then ret (SnData (parse_data (default "" (rs_text res))))
        else bind (sleep (100 * 2 ^ (attempt + 1)))
                  (fun _ => sn_attempts opts rq k (attempt + 1))
    end) w.
Proof.
  destruct opts as [raw tm rt]. simpl returnRaw. intros ->.
  change (sn_attempts (mkOpts false tm rt) rq (S k) attempt w)
    with (bind (fetch rq) (fun reply =>
            match reply with
            | Rejected e _ =>
                bind (sleep (100 * 2 ^ (attempt + 1)))
                     (fun _ => sn_attempts (mkOpts false tm rt) rq k (attempt + 1))
            | Responded res0 _ =>
                if accepted res0
                then ret (SnData (parse_data (default "" (rs_text res0))))
                else if (500 <=? rs_status res0) && true
                     then bind (sleep (100 * 2 ^ (attempt + 1)))
                               (fun _ => sn_attempts (mkOpts false tm rt) rq k (attempt + 1))
                     else bind (sleep (100 * 2 ^ (attempt + 1)))
                               (fun _ => sn_attempts (mkOpts false tm rt) rq k (attempt + 1))
            end) w).
  unfold bind. destruct (fetch rq w) as [[[e t|res t]|e] w1]; try done.
  destruct (accepted res); [done|]. by destruct ((500 <=? rs_status res) && true).
Qed.

Lemma sn_attempts_last opts rq attempt w :
  returnRaw opts = false →
  sn_attempts opts rq 0 attempt w =
  bind (fetch rq) (fun reply =>
    match reply with
    | Rejected e _ => throw e
    | Responded res _ =>
        if accepted res
        then ret (SnData (parse_data (default "" (rs_text res))))
        else throw (sn_error res (default "" (rs_text res))
                             (parse_data (default "" (rs_text res))))
    end) w.
Proof.
  destruct opts as [raw tm rt]. simpl returnRaw. intros ->.
  change (sn_attempts (mkOpts false tm rt) rq 0 attempt w)
    with (bind (fetch rq) (fun reply =>
            match reply with
            | Rejected e _ => throw e
            | Responded res0 _ =>
                if accepted res0
                then ret (SnData (parse_data (default "" (rs_text res0))))
                else if (500 <=? rs_status res0) && false
                     then throw (newError "Unknown error")
                     else throw (sn_error res0 (default "" (rs_text res0))
                                          (parse_data (default "" (rs_text res0))))
            end) w).
  unfold bind. destruct (fetch rq w) as [[[e t|res t]|e] w1]; try done.
  destruct (accepted res); [done|]. by rewrite andb_false_r.
Qed.

Lemma sn_attempts_second opts rq attempt w r1 res t :
  returnRaw opts = false →
  upstream (length (fetched w)) rq = r1 →
  failed_reply r1 = true →
  upstream (S (length (fetched w))) rq = Responded res t →
  accepted res = true →
  sn_attempts opts rq 1 attempt w =
    (Ok (SnData (parse_data (default "" (rs_text res)))),
     mkWorld (calls w) (fetched w ++ [rq; rq])
             (clock w + elapsed_of r1 + 100 * 2 ^ (attempt + 1) + t) (nameCache w)).
Proof.
  intros Hraw H1 Hfail H2 Hacc.
  assert (sn_attempts opts rq 0 (attempt + 1)
            (mkWorld (calls w) (fetched w ++ [rq])
                     (clock w + elapsed_of r1 + 100 * 2 ^ (attempt + 1)) (nameCache w))
          = (Ok (SnData (parse_data (default "" (rs_text res)))),
             mkWorld (calls w) (fetched w ++ [rq; rq])
                     (clock w + elapsed_of r1 + 100 * 2 ^ (attempt + 1) + t)
                     (nameCache w))) as Hsecond.
  { rewrite sn_attempts_last by done. unfold bind at 1, fetch at 1.
    cbn [fetched calls clock nameCache].
    rewrite length_app. change (length [rq]) with 1%nat. rewrite Nat.add_1_r.
    rewrite H2. cbv beta iota. rewrite Hacc. unfold ret.
    by rewrite <- app_assoc. }
  rewrite sn_attempts_step by done.
  unfold bind at 1, fetch at 1. rewrite H1.
  destruct r1 as [e t1|res1 t1]; unfold failed_reply in Hfail; cbv beta iota.
  - unfold bind at 1, sleep at 1. exact Hsecond.
  - apply negb_true_iff in Hfail. rewrite Hfail.
    unfold bind at 1, sleep at 1. exact Hsecond.
Qed.

(** X3. One retry is enough to recover: when the first attempt of a call
    fails in any way (the fetch rejects, or the response is not an
    accepted one) and the second meets an accepted response, [sn] returns
    the document of the second after exactly two requests, having waited
    the 200 ms of the first backoff step in between. *)
Theorem sn_recovers_on_second_attempt using_ method path body w r1 res t :
  upstream (length (fetched w)) (request_of using_ method path body) = r1 →
  failed_reply r1 = true →
  upstream (S (length (fetched w))) (request_of using_ method path body) = Responded res t →
  accepted res = true →
  sn using_ method path body w =
    (Ok (parse_data (default "" (rs_text res))),
     mkWorld (calls w ++ [request_of using_ method path body])
             (fetched w ++ [request_of using_ method path body;
                            request_of using_ method path body])
             (clock w + elapsed_of r1 + 200 + t)
             (nameCache w)).
Proof.
  intros H1 Hfail H2 Hacc.
  unfold sn. erewrite bind_ok; cycle 1.
  { unfold sn_opts. unfold bind at 1, log_call at 1.
    change (retries default_opts <? 0) with false. cbv iota.
    change (Z.to_nat (retries default_opts)) with 1%nat.
    by apply (sn_attempts_second default_opts _ 0 _ r1 res t). }
  reflexivity.
Qed.

(** The backoff of a run of the loop whose every attempt fails at once:
    from attempt [a] with [k] retries left, the waits add up to
    [100 * (2 ^ (a + k + 1) - 2 ^ (a + 1))] ms. *)
Lemma sn_attempts_backoff opts rq k : ∀ attempt w,
  returnRaw opts = false →
  0 ≤ attempt →
  (∀ n, failed_reply (upstream n rq) = true ∧ elapsed_of (upstream n rq) = 0) →
  ∃ e w', sn_attempts opts rq k attempt w = (Throw e, w') ∧
    clock w' = clock w + 100 * (2 ^ (attempt + Z.of_nat k + 1) - 2 ^ (attempt + 1)) ∧
    fetched w' = fetched w ++ replicate (S k) rq.
Proof.
  induction k as [|k IH]; intros attempt w Hraw Ha Hup;
    destruct (Hup (length (fetched w))) as [Hfail Hel].
  - rewrite sn_attempts_last by done. unfold bind, fetch.
    destruct (upstream (length (fetched w)) rq) as [e t|res t] eqn:Up;
      cbn [failed_reply elapsed_of] in Hfail, Hel; subst t.
    + unfold throw. eexists _, _. split; [reflexivity|]. cbn [clock fetched elapsed_of].
      split; [|done]. replace (attempt + Z.of_nat 0 + 1) with (attempt + 1) by lia. lia.
    + apply negb_true_iff in Hfail. rewrite Hfail.
      unfold throw. eexists _, _. split; [reflexivity|]. cbn [clock fetched elapsed_of].
      split; [|done]. replace (attempt + Z.of_nat 0 + 1) with (attempt + 1) by lia. lia.
  - rewrite sn_attempts_step by done. unfold bind at 1, fetch at 1.
    assert (∃ w1, (match upstream (length (fetched w)) rq with
                   | Rejected e _ =>
                       bind (sleep (100 * 2 ^ (attempt + 1)))
                            (fun _ => sn_attempts opts rq k (attempt + 1))
                   | Responded res _ =>
                       if accepted res
                       then ret (SnData (parse_data (default "" (rs_text res))))
                       else bind (sleep (100 * 2 ^ (attempt + 1)))
                                 (fun _ => sn_attempts opts rq k (attempt + 1))
                   end)
                  (mkWorld (calls w) (fetched w ++ [rq])
                           (clock w + elapsed_of (upstream (length (fetched w)) rq))
                           (nameCache w))
                = sn_attempts opts rq k (attempt + 1) w1 ∧
                clock w1 = clock w + 100 * 2 ^ (attempt + 1) ∧
                fetched w1 = fetched w ++ [rq]) as (w1 & -> & Hc1 & Hf1).
    { destruct (upstream (length (fetched w)) rq) as [e t|res t] eqn:Up;
        cbn [failed_reply elapsed_of] in Hfail, Hel; subst t.
      - eexists. split; [reflexivity|]. cbn [clock fetched elapsed_of]. split; [lia|done].
      - apply negb_true_iff in Hfail. rewrite Hfail.
        eexists. split; [reflexivity|]. cbn [clock fetched elapsed_of]. split; [lia|done]. }
    edestruct (IH (attempt + 1) w1) as (e' & w' & Hrun & Hclock & Hf); [done|lia|done|].
    rewrite Hrun. eexists _, _. split; [reflexivity|]. rewrite Hclock, Hf, Hc1, Hf1.
    split; [|by rewrite <- app_assoc].
    replace (attempt + 1 + Z.of_nat k + 1) with (attempt + Z.of_nat (S k) + 1) by lia.
    replace (attempt + 1 + 1) with (Z.succ (attempt + 1)) by lia.
    rewrite Z.pow_succ_r by lia. lia.
Qed.

(** X4. The backoff is exponential: a call whose every attempt fails at
    once gives up after [retries + 1] requests, and the waits between
    them, 200 ms, 400 ms, and so on doubling, add up to
    [100 * (2 ^ (retries + 1) - 2)] ms. *)
Theorem sn_backs_off_exponentially using_ method path body opts w :
  returnRaw opts = false →
  0 ≤ retries opts →
  (∀ n, failed_reply (upstream n (request_of using_ method path body)) = true ∧
        elapsed_of (upstream n (request_of using_ method path body)) = 0) →
  ∃ e w', sn_opts using_ method path body opts w = (Throw e, w') ∧
    clock w' = clock w + 100 * (2 ^ (retries opts + 1) - 2) ∧
    fetched w' = fetched w ++
      replicate (Z.to_nat (retries opts) + 1) (request_of using_ method path body).
Proof.
  intros Hraw Hr Hup. unfold sn_opts, bind, log_call. simpl.
  assert ((retries opts <? 0) = false) as -> by lia.
  edestruct (sn_attempts_backoff opts (request_of using_ method path body)
               (Z.to_nat (retries opts)) 0) as (e & w' & Hrun & Hclock & Hf);
    [done|lia|done|].
  rewrite Hrun. eexists _, _. split; [reflexivity|].
  rewrite Hclock, Hf. simpl. split.
  - rewrite Z2Nat.id by lia. change (2 ^ (0 + 1)) with 2.
    replace (0 + retries opts + 1) with (retries opts + 1) by lia. done.
  - by rewrite Nat.add_1_r.
Qed.

(** *** The session check, continued *)

(** X5. The session check admits nobody unknown: when it lets a request
    through, the token it passes on is not empty and the session it
    attaches is the one [sessions] holds for that token. *)
Theorem requireAuth_sound (sessions : gmap string Session) req s t :
  requireAuth sessions req = Next s t →
  sessions !! t = Some s ∧ t ≠ "".
Proof.
  unfold requireAuth.
  set (token := if startsWith _ _ then _ else _).
  destruct (truthy token) eqn:Htruthy; [|done].
  destruct token as [| |b|n|tok|xs|ps]; try done.
  destruct (sessions !! tok) as [s'|] eqn:Hs; simpl; [|done].
  intros H. inversion H; subst. split; [done|].
  intros ->. done.
Qed.

(** X6. A bearer header shadows the query string: when the Authorization
    header starts with "Bearer ", the outcome of the check does not
    depend on the query, and a bearer token that maps to no session is
    answered 401 even where the query carries the token of a live
    session. *)
Theorem bearer_header_shadows_query (sessions : gmap string Session) h q :
  startsWith h "Bearer " = true →
  requireAuth sessions (mkAuthInput (Some h) q) =
    requireAuth sessions (mkAuthInput (Some h) JUndefined) ∧
  (sessions !! string_drop 7 h = None →
   ∃ r, requireAuth sessions (mkAuthInput (Some h) q) = Rejected401 r ∧
        http_status r = 401).
Proof.
  intros Hh. unfold requireAuth. cbn [authorization query default from_option id].
  rewrite Hh. split; [done|].
  intros Hnone. cbn [truthy].
  destruct (nonempty (string_drop 7 h)); [rewrite Hnone|]; (eexists; split; reflexivity).
Qed.

(** *** What a computation adds to the log of calls *)

Lemma emits_ret {A} P (a : A) : emits P 0 (ret a).
Proof.
  intros w r w' H. inversion H; subst. exists []. by rewrite app_nil_r.
Qed.

Lemma emits_throw {A} P e : emits P 0 (throw e : M A).
Proof.
  intros w r w' H. inversion H; subst. exists []. by rewrite app_nil_r.
Qed.

Lemma emits_lift {A} P (x : Res A) : emits P 0 (lift x).
Proof.
  intros w r w' H. inversion H; subst. exists []. by rewrite app_nil_r.
Qed.

Lemma emits_le {A} P n n' (m : M A) : (n ≤ n')%nat → emits P n m → emits P n' m.
Proof.
  intros Hle Hm w r w' H. destruct (Hm _ _ _ H) as (l & Hc & HP & Hl).
  exists l. repeat split; try done. lia.
Qed.

Lemma emits_bind {A B} P n1 n2 (m : M A) (k : A → M B) :
  emits P n1 m → (∀ a, emits P n2 (k a)) → emits P (n1 + n2) (bind m k).
Proof.
  intros Hm Hk w r w' H.
  apply bind_inv in H as [(a & w1 & H1 & H2)|(e & H1 & _)].
  - destruct (Hm _ _ _ H1) as (l1 & Hc1 & HP1 & Hl1).
    destruct (Hk _ _ _ _ H2) as (l2 & Hc2 & HP2 & Hl2).
    exists (l1 ++ l2). rewrite Hc2, Hc1, <- app_assoc, length_app.
    split; [done|]. split; [by apply Forall_app|lia].
  - destruct (Hm _ _ _ H1) as (l1 & Hc1 & HP1 & Hl1).
    exists l1. repeat split; try done. lia.
Qed.

Lemma emits_try {A} P n1 n2 (m : M A) (h : Err → M A) :
  emits P n1 m → (∀ e, emits P n2 (h e)) → emits P (n1 + n2) (try_catch m h).
Proof.
  intros Hm Hh w r w' H. unfold try_catch in H.
  destruct (m w) as [[a|e] w1] eqn:H1.
  - inversion H; subst. destruct (Hm _ _ _ H1) as (l1 & Hc1 & HP1 & Hl1).
    exists l1. repeat split; try done. lia.
  - destruct (Hm _ _ _ H1) as (l1 & Hc1 & HP1 & Hl1).
    destruct (Hh _ _ _ _ H) as (l2 & Hc2 & HP2 & Hl2).
    exists (l1 ++ l2). rewrite Hc2, Hc1, <- app_assoc, length_app.
    split; [done|]. split; [by apply Forall_app|lia].
Qed.

Lemma emits_sn P using_ method path body :
  P (request_of using_ method path body) → emits P 1 (sn using_ method path body).
Proof.
  intros HP w r w' H. apply sn_frame in H as (Hc & _ & _).
  exists [request_of using_ method path body]. split; [done|]. split; [|done].
  by constructor.
Qed.

Lemma emits_only {A} P n (m : M A) : emits P n m → only_calls P m.
Proof.
  intros Hm w r w' H. destruct (Hm _ _ _ H) as (l & Hc & HP & _). eauto.
Qed.

Lemma only_calls_bind {A B} P (m : M A) (k : A → M B) :
  only_calls P m → (∀ a, only_calls P (k a)) → only_calls P (bind m k).
Proof.
  intros Hm Hk w r w' H.
  apply bind_inv in H as [(a & w1 & H1 & H2)|(e & H1 & _)].
  - destruct (Hm _ _ _ H1) as (l1 & Hc1 & HP1).
    destruct (Hk _ _ _ _ H2) as (l2 & Hc2 & HP2).
    exists (l1 ++ l2). rewrite Hc2, Hc1, <- app_assoc.
    split; [done|by apply Forall_app].
  - destruct (Hm _ _ _ H1) as (l1 & Hc1 & HP1). eauto.
Qed.

Lemma only_calls_try {A} P (m : M A) (h : Err → M A) :
  only_calls P m → (∀ e, only_calls P (h e)) → only_calls P (try_catch m h).
Proof.
  intros Hm Hh w r w' H. unfold try_catch in H.
  destruct (m w) as [[a|e] w1] eqn:H1.
  - inversion H; subst. destruct (Hm _ _ _ H1) as (l1 & Hc1 & HP1). eauto.
  - destruct (Hm _ _ _ H1) as (l1 & Hc1 & HP1).
    destruct (Hh _ _ _ _ H) as (l2 & Hc2 & HP2).
    exists (l1 ++ l2). rewrite Hc2, Hc1, <- app_assoc.
    split; [done|by apply Forall_app].
Qed.

Lemma only_calls_mapM {A B} P (f : A → M B) l :
  (∀ x, only_calls P (f x)) → only_calls P (mapM f l).
Proof.
  intros Hf. induction l as [|x l IH]; simpl.
  - apply (emits_only _ 0), emits_ret.
  - apply only_calls_bind; [done|]. intros y.
    apply only_calls_bind; [done|]. intros ys.
    apply (emits_only _ 0), emits_ret.
Qed.

(** *** The reference resolver, continued *)

Lemma emits_resolveRef using_ forceTable v : emits is_get 1 (resolveRef using_ forceTable v).
Proof.
  unfold resolveRef.
  destruct (negb (truthy (pickId v))); [apply (emits_le _ 0); [lia|apply emits_ret]|].
  destruct (isSysId (pickId v)); [apply (emits_le _ 0); [lia|apply emits_ret]|].
  apply (emits_bind _ 0 1); [apply emits_lift|]. intros c.
  destruct (String.eqb forceTable "sys_user");
    (apply (emits_bind _ 1 0); [by apply emits_sn|]; intros d; apply emits_ret).
Qed.

Lemma js_or_truthy a b : truthy b = true → truthy (js_or a b) = true.
Proof. intros H. unfold js_or. by destruct (truthy a) eqn:Ha. Qed.

(** X7. Resolving a reference makes at most one upstream call, a GET, and
    keeps the emptiness of what it was given: a candidate that is empty
    comes back as it is and one that is not never resolves to an empty
    identifier. *)
Theorem resolveRef_keeps_emptiness using_ forceTable v w res w' :
  resolveRef using_ forceTable v w = (res, w') →
  (∃ l, calls w' = calls w ++ l ∧ Forall is_get l ∧ (length l ≤ 1)%nat) ∧
  (truthy (pickId v) = false → res = Ok (pickId v) ∧ w' = w) ∧
  (∀ r, res = Ok r → truthy r = truthy (pickId v)).
Proof.
  intros H. split; [by eapply emits_resolveRef|].
  unfold resolveRef in H.
  destruct (truthy (pickId v)) eqn:Ht; simpl in H.
  - split; [done|]. intros r ->.
    destruct (isSysId (pickId v)); [inversion H; by subst|].
    bind_ok H as c w1 Ec.
    destruct (String.eqb forceTable "sys_user");
      (bind_ok H as d w2 Ed; inversion H; subst; by apply js_or_truthy).
  - inversion H; subst. split; [done|]. intros r Hr. inversion Hr; by subst.
Qed.

(** *** The acting identity label *)

(** X8. The label of the acting identity is never empty: whatever the
    session holds for its user, [contributorFromSession] gives a value
    that is not falsy, "unknown" when nothing better is found. *)
Theorem contributor_is_never_empty session :
  truthy (contributorFromSession session) = true.
Proof.
  unfold contributorFromSession.
  destruct (truthy (user session)); simpl; [|done].
  by repeat apply js_or_truthy.
Qed.

(** *** The display name cache, continued *)

Lemma resolve_start_stale table id w :
  id ≠ "" →
  (∀ h, nameCache w !! cache_key table id = Some h → ce_exp h ≤ clock w) →
  resolve_start table (Some id) w = (Ok (inr (cache_key table id, id, clock w)), w).
Proof.
  intros Hid Hstale. unfold resolve_start.
  rewrite (nonempty_true _ Hid). simpl.
  unfold bind, now, cache_get.
  destruct (nameCache w !! cache_key table id) as [h|] eqn:Hh; [|done].
  specialize (Hstale h eq_refl).
  assert ((clock w <? ce_exp h) = false) as -> by lia. done.
Qed.

Lemma resolve_start_fresh table id w h :
  id ≠ "" →
  nameCache w !! cache_key table id = Some h →
  clock w < ce_exp h →
  resolve_start table (Some id) w = (Ok (inl (ce_name h)), w).
Proof.
  intros Hid Hh Hfresh. unfold resolve_start.
  rewrite (nonempty_true _ Hid). simpl.
  unfold bind, now, cache_get. rewrite Hh.
  assert ((clock w <? ce_exp h) = true) as -> by lia. done.
Qed.

Lemma resolve_start_pure table sys_id w :
  ∃ s, resolve_start table sys_id w = (Ok s, w).
Proof.
  unfold resolve_start. destruct sys_id as [id|]; [|by eexists].
  destruct (negb (nonempty id)); [by eexists|].
  unfold bind, now, cache_get.
  destruct (nameCache w !! cache_key table id) as [h|]; [|by eexists].
  destruct (clock w <? ce_exp h); by eexists.
Qed.

Lemma resolve_finish_total using_ table p w :
  ∃ label w', resolve_finish using_ table p w = (Ok label, w') ∧
    ∃ rq, calls w' = calls w ++ [rq] ∧ is_get rq.
Proof.
  destruct p as [[key id] t].
  destruct (sn using_ "GET" (display_name_path table id) None w) as [[d|e] w1] eqn:Hsn;
    pose proof (sn_frame _ _ _ _ _ _ _ Hsn) as (Hc & _ & _).
  - rewrite (resolve_finish_ok _ _ _ _ _ _ _ _ Hsn). eexists _, _. split; [done|].
    eexists. split; [exact Hc|done].
  - rewrite (resolve_finish_throw _ _ _ _ _ _ _ _ Hsn). eexists _, _. split; [done|].
    eexists. split; [exact Hc|done].
Qed.

(** X9. Resolving a display name never fails: whatever the upstream does,
    [_resolveDisplayName] returns a label, after at most one upstream
    call, a GET. *)
Theorem display_name_never_throws using_ table sys_id w :
  ∃ label w', _resolveDisplayName using_ table sys_id w = (Ok label, w') ∧
    ∃ l, calls w' = calls w ++ l ∧ Forall is_get l ∧ (length l ≤ 1)%nat.
Proof.
  unfold _resolveDisplayName.
  destruct (resolve_start_pure table sys_id w) as (s & Hs).
  rewrite (bind_ok _ _ _ _ _ Hs). destruct s as [label|p].
  - eexists _, _. split; [reflexivity|]. exists []. rewrite app_nil_r.
    split; [done|]. split; [constructor|simpl; lia].
  - destruct (resolve_finish_total using_ table p w) as (label & w' & Hf & rq & Hc & Hg).
    eexists _, _. split; [exact Hf|]. exists [rq]. split; [done|]. split; [|done].
    by constructor.
Qed.

(** X10. A resolved name is served from the cache: when the entity has no
    unexpired entry and the upstream read succeeds, the label read is
    returned and stored, and from then on, in any world that still holds
    this entry and whose clock is within five minutes of the time of the
    read, the same label is returned to any caller with no upstream
    call. *)
Theorem resolved_name_is_served_from_cache using_ other table id w d w1 w2 :
  id ≠ "" →
  (∀ h, nameCache w !! cache_key table id = Some h → ce_exp h ≤ clock w) →
  sn using_ "GET" (display_name_path table id) None w = (Ok d, w1) →
  let stored := with_entry w1 (cache_key table id)
                           (mkEntry (label_of d id) (clock w + NAME_TTL_MS)) in
  _resolveDisplayName using_ table (Some id) w = (Ok (label_of d id), stored) ∧
  (nameCache w2 !! cache_key table id = nameCache stored !! cache_key table id →
   clock w2 < clock w + NAME_TTL_MS →
   _resolveDisplayName other table (Some id) w2 = (Ok (label_of d id), w2)).
Proof.
  intros Hid Hstale Hsn stored. split.
  - unfold _resolveDisplayName.
    rewrite (bind_ok _ _ _ _ _ (resolve_start_stale _ _ _ Hid Hstale)).
    by rewrite (resolve_finish_ok _ _ _ _ _ _ _ _ Hsn).
  - intros Hentry Hclock. unfold stored, with_entry in Hentry. simpl in Hentry.
    rewrite lookup_insert_eq in Hentry.
    unfold _resolveDisplayName.
    by rewrite (bind_ok _ _ _ _ _ (resolve_start_fresh _ _ _ _ Hid Hentry Hclock)).
Qed.

(** *** Unwrapping, continued *)

(** [deep] on an object, by the own properties it looks for. *)
Lemma deep_obj ps :
  deep (JObj ps) =
  match own "display_value" ps with
  | Some v => deep v
  | None =>
  match own "value" ps with
  | Some v => deep v
  | None =>
  match own "name" ps with
  | Some v => deep v
  | None =>
  match own "user_name" ps with
  | Some v => deep v
  | None =>
      match ps with
      | [(_, v)] => deep v
      | _ => string_form (JObj ps)
      end
  end end end end.
Proof.
  assert (∀ k qs,
    (fix at_key (k : string) (qs : list (string * JVal)) : option string :=
       match qs with
       | [] => None
       | (k', v) :: qs' => if String.eqb k k' then Some (deep v) else at_key k qs'
       end) k qs = deep <$> own k qs) as Hat.
  { intros k qs. induction qs as [|[k' v] qs IH]; [done|].
    simpl. destruct (String.eqb k k'); [done|exact IH]. }
  change (deep (JObj ps)) with
    (match (fix at_key (k : string) (qs : list (string * JVal)) : option string :=
       match qs with
       | [] => None
       | (k', v) :: qs' => if String.eqb k k' then Some (deep v) else at_key k qs'
       end) "display_value" ps with
     | Some s => s
     | None =>
     match (fix at_key (k : string) (qs : list (string * JVal)) : option string :=
       match qs with
       | [] => None
       | (k', v) :: qs' => if String.eqb k k' then Some (deep v) else at_key k qs'
       end) "value" ps with
     | Some s => s
     | None =>
     match (fix at_key (k : string) (qs : list (string * JVal)) : option string :=
       match qs with
       | [] => None
       | (k', v) :: qs' => if String.eqb k k' then Some (deep v) else at_key k qs'
       end) "name" ps with
     | Some s => s
     | None =>
     match (fix at_key (k : string) (qs : list (string * JVal)) : option string :=
       match qs with
       | [] => None
       | (k', v) :: qs' => if String.eqb k k' then Some (deep v) else at_key k qs'
       end) "user_name" ps with
     | Some s => s
     | None =>
         match ps with
         | [(_, v)] => deep v
         | _ => string_form (JObj ps)
         end
     end end end end).
  rewrite !Hat.
  destruct (own "display_value" ps); [done|].
  destruct (own "value" ps); [done|].
  destruct (own "name" ps); [done|].
  by destruct (own "user_name" ps).
Qed.

(** X11. Unwrapping prefers the label: an object that carries its own
    [display_value] unwraps to what that unwraps to, whatever its
    [value], [name] or other properties hold; without one, its [value]
    is used. *)
Theorem unwrap_prefers_display_value ps :
  (∀ d, own "display_value" ps = Some d →
        unwrapAuditVal (JObj ps) = unwrapAuditVal d) ∧
  (∀ v, own "display_value" ps = None → own "value" ps = Some v →
        unwrapAuditVal (JObj ps) = unwrapAuditVal v).
Proof.
  unfold unwrapAuditVal. split.
  - intros d Hd. by rewrite deep_obj, Hd.
  - intros v Hd Hv. by rewrite deep_obj, Hd, Hv.
Qed.

(** X12. Unwrapping is idempotent: what [unwrapAuditVal] returns has no
    white space at either end, and unwrapping it again changes
    nothing. *)
Theorem unwrap_is_idempotent v :
  ends_clean (unwrapAuditVal v) = true ∧
  unwrapAuditVal (JStr (unwrapAuditVal v)) = unwrapAuditVal v.
Proof.
  unfold unwrapAuditVal. split; [apply trim_clean|].
  change (deep (JStr (trim (deep v)))) with (trim (deep v)).
  apply trim_ends_clean, trim_clean.
Qed.

(** *** The activity reconciler, continued *)

Lemma auditRow_left_out seen r w s w' :
  auditRow seen r w = (Ok s, w') →
  is_Some s ↔ left_out seen r = false.
Proof.
  intros H. apply auditRow_inv in H as (f0 & _ & Hfl & H). cbv zeta in H.
  unfold left_out, is_field. rewrite Hfl.
  destruct H as [(-> & _ & Hskip)|(vals & text & Hskip & _ & _ & ->)]; rewrite Hskip.
  - split; [by intros [? ?]|done].
  - split; [done|by eexists].
Qed.

Lemma slots_count seen rows slots :
  Forall2 (λ r s, ∃ wi wi', auditRow seen r wi = (Ok s, wi')) rows slots →
  length (omap id slots) = length (List.filter (λ r, negb (left_out seen r)) rows).
Proof.
  induction 1 as [|r s rows slots (wi & wi' & Hrow) _ IH]; [done|].
  apply auditRow_left_out in Hrow. simpl.
  destruct s as [e|]; simpl.
  - assert (left_out seen r = false) as -> by (apply Hrow; by eexists).
    simpl. f_equal. exact IH.
  - destruct (left_out seen r); [exact IH|]. destruct Hrow as [_ Hs].
    by destruct (Hs eq_refl).
Qed.

(** X13. The narrative accounts for every row: it has one entry for each
    row of the journal feed and one for each row of the field-audit feed
    that is neither the echo of a journal field nor a status alias
    doubled by a primary status row; nothing else is dropped and nothing
    is added. *)
Theorem narrative_accounts_for_every_row session sys_id w es w' :
  narrative_entries session sys_id w = (Ok es, w') →
  ∃ jf w1 au w2 jrows arows seen,
    sn (pickActingCreds session) "GET" (journal_path sys_id) None w = (Ok jf, w1) ∧
    sn adminCreds "GET" (audit_path sys_id) None w1 = (Ok au, w2) ∧
    iterate (js_or (oprop jf "result") (JArr [])) = Ok jrows ∧
    as_array (js_or (oprop au "result") (JArr [])) = Ok arows ∧
    stateSeenAt arows = Ok seen ∧
    length es =
      (length jrows + length (List.filter (λ r, negb (left_out seen r)) arows))%nat.
Proof.
  intros H. apply narrative_entries_inv in H
    as (jf & w1 & au & w2 & jrows & journal & arows & slots &
        Hjf & Hau & Hjrows & Hjournal & Harows & Hslots & Hsort).
  apply audit_slots_inv in Hslots as (seen & Hseen & Hall).
  exists jf, w1, au, w2, jrows, arows, seen. repeat split; try done.
  rewrite (Permutation_length (sort_entries_perm _ _ Hsort)), length_app.
  apply mapR_Forall2, Forall2_length in Hjournal. rewrite <- Hjournal.
  f_equal. by eapply slots_count.
Qed.

(** *** The record update pipeline, continued *)

Lemma emits_impl {A} (P Q : Request → Prop) n (m : M A) :
  (∀ rq, P rq → Q rq) → emits P n m → emits Q n m.
Proof.
  intros HPQ Hm w r w' H. destruct (Hm _ _ _ H) as (l & Hc & HP & Hl).
  exists l. split; [done|]. split; [|done]. by eapply Forall_impl.
Qed.

Lemma emits_bind_lift {A B} P n (x : Res A) (k : A → M B) :
  (∀ a, emits P n (k a)) → emits P n (bind (lift x) k).
Proof. intros Hk. apply (emits_bind _ 0 n); [apply emits_lift|done]. Qed.

Ltac emits_leaf :=
  first [ apply emits_ret | apply emits_throw | apply emits_lift
        | apply (emits_le _ 0); [lia|];
          first [apply emits_ret | apply emits_throw | apply emits_lift] ].

(** The update after its snapshot read: at most four more calls, each a
    reference lookup or a write of the record. *)
Lemma update_rest_emits session table sys_id body current :
  emits (own_write session table sys_id) 4
    (let using_ := pickActingCreds session in
     let* _ := lift (prop current "result") in
     let assigned_to :=
       if is_undefined (oprop body "assigned_to") then JUndefined
       else pickId (oprop body "assigned_to") in
     let assignment_group :=
       if is_undefined (oprop body "assignment_group") then JUndefined
       else pickId (oprop body "assignment_group") in
     let* assigned_to :=
       if is_undefined assigned_to then ret assigned_to
       else resolveRef using_ "sys_user" assigned_to in
     let* assignment_group :=
       if is_undefined assignment_group then ret assignment_group
       else resolveRef using_ "sys_user_group" assignment_group in
     let fieldsPayload :=
       spread "state" (norm (oprop body "state")) ++
       spread "impact" (norm (oprop body "impact")) ++
       spread "urgency" (norm (oprop body "urgency")) ++
       spread "priority" (norm (oprop body "priority")) ++
       spread "assigned_to" assigned_to ++
       spread "assignment_group" assignment_group ++
       spread "short_description" (norm (oprop body "short_description")) ++
       spread "description" (norm (oprop body "description")) in
     let* _ :=
       match fieldsPayload with
       | [] => ret JUndefined
       | _ => sn using_ "PATCH" (record_path table sys_id) (Some (JObj fieldsPayload))
       end in
     let who := contributorFromSession session in
     let* wnUser := lift (typed body "work_notes") in
     let* acUser := lift (typed body "comments") in
     let* wn := lift (note who "work_notes" wnUser) in
     let* ac := lift (note who "comments" acUser) in
     let notesPayload := wn ++ ac in
     let* _ :=
       match notesPayload with
       | [] => ret JUndefined
       | _ => sn using_ "PATCH" (notes_path table sys_id) (Some (JObj notesPayload))
       end in
     ret (mkHttp 200 (JObj [("ok", JBool true); ("result", JBool true)]))).
Proof.
  cbv zeta. apply emits_bind_lift. intros _.
  apply (emits_bind _ 1 3).
  { destruct (is_undefined _); [emits_leaf|].
    eapply emits_impl; [|apply emits_resolveRef]. by left. }
  intros assigned_to. apply (emits_bind _ 1 2).
  { destruct (is_undefined _); [emits_leaf|].
    eapply emits_impl; [|apply emits_resolveRef]. by left. }
  intros assignment_group. apply (emits_bind _ 1 1).
  { match goal with |- emits _ _ (match ?x with _ => _ end) => destruct x end;
      [emits_leaf|].
    apply emits_sn. right. eexists. by left. }
  intros _. do 4 (apply emits_bind_lift; intros ?).
  apply (emits_bind _ 1 0); [|intros _; apply emits_ret].
  match goal with |- emits _ _ (match ?x with _ => _ end) => destruct x end;
    [emits_leaf|].
  apply emits_sn. right. eexists. by right.
Qed.

(** X14. An update touches one record: whatever the body, the handler
    first reads the snapshot of the record and then makes at most four
    more upstream calls, each of them a read (the lookup of a reference)
    or a PATCH of that same record, structured or journal; and it
    always answers. *)
Theorem update_touches_one_record session table sys_id body w :
  ∃ reply w' l,
    update session table sys_id body w = (Ok reply, w') ∧
    calls w' = calls w ++
      request_of (pickActingCreds session) "GET" (snapshot_path table sys_id) None :: l ∧
    (length l ≤ 4)%nat ∧
    Forall (own_write session table sys_id) l.
Proof.
  unfold update, try_catch.
  match goal with |- context [bind (sn _ _ _ _) ?k] => set (rest := k) end.
  destruct (sn (pickActingCreds session) "GET" (snapshot_path table sys_id) None w)
    as [[cur|e] w1] eqn:Hsnap;
    pose proof (sn_frame _ _ _ _ _ _ _ Hsnap) as (Hc1 & _ & _).
  - rewrite (bind_ok _ _ _ _ _ Hsnap).
    destruct (rest cur w1) as [[reply|e] w2] eqn:Hrest;
      destruct (update_rest_emits session table sys_id (js_or body (JObj [])) cur
                  _ _ _ Hrest) as (l & Hc2 & HP & Hl);
      eexists _, _, l; (split; [reflexivity|]);
      (split; [unfold ret; simpl; by rewrite Hc2, Hc1, <- app_assoc|done]).
  - rewrite (bind_throw _ _ _ _ _ Hsnap). eexists _, _, []. split; [reflexivity|].
    split; [done|]. split; [simpl; lia|constructor].
Qed.

Ltac in_list := first [left | right; in_list].

Lemma oprop_or_empty b k : oprop (js_or b (JObj [])) k = oprop b k.
Proof. unfold js_or. destruct b as [| |[]|n|s|xs|ps]; try done; simpl; by case_match. Qed.

(** X15. An update that changes nothing writes nothing: when every plain
    field of the body is absent, null or the empty string, and no
    assignment and no journal text is given, the snapshot read is the
    only upstream call; the answer is [ok] once that read has returned a
    document. *)
Theorem update_without_changes_writes_nothing session table sys_id body w :
  (∀ k, k ∈ plain_fields → norm (oprop body k) = JUndefined) →
  (∀ k, k ∈ special_fields → oprop body k = JUndefined) →
  ∃ reply w',
    update session table sys_id body w = (Ok reply, w') ∧
    calls w' = calls w ++
      [request_of (pickActingCreds session) "GET" (snapshot_path table sys_id) None] ∧
    (∀ cur w1,
       sn (pickActingCreds session) "GET" (snapshot_path table sys_id) None w = (Ok cur, w1) →
       cur ≠ JNull → cur ≠ JUndefined →
       reply = mkHttp 200 (JObj [("ok", JBool true); ("result", JBool true)]) ∧ w' = w1).
Proof.
  intros Hplain Hspecial.
  assert (norm (oprop body "state") = JUndefined) as H1 by (apply Hplain; in_list).
  assert (norm (oprop body "impact") = JUndefined) as H2 by (apply Hplain; in_list).
  assert (norm (oprop body "urgency") = JUndefined) as H3 by (apply Hplain; in_list).
  assert (norm (oprop body "priority") = JUndefined) as H4 by (apply Hplain; in_list).
  assert (norm (oprop body "short_description") = JUndefined) as H5 by (apply Hplain; in_list).
  assert (norm (oprop body "description") = JUndefined) as H6 by (apply Hplain; in_list).
  assert (oprop body "assigned_to" = JUndefined) as H7 by (apply Hspecial; in_list).
  assert (oprop body "assignment_group" = JUndefined) as H8 by (apply Hspecial; in_list).
  assert (oprop body "work_notes" = JUndefined) as H9 by (apply Hspecial; in_list).
  assert (oprop body "comments" = JUndefined) as H10 by (apply Hspecial; in_list).
  unfold update, try_catch, typed. cbv zeta.
  rewrite !oprop_or_empty, H1, H2, H3, H4, H5, H6, H7, H8, H9, H10.
  destruct (sn (pickActingCreds session) "GET" (snapshot_path table sys_id) None w)
    as [[cur|e] w1] eqn:Hsnap;
    pose proof (sn_frame _ _ _ _ _ _ _ Hsnap) as (Hc1 & _ & _).
  - rewrite (bind_ok _ _ _ _ _ Hsnap).
    destruct (prop cur "result") as [res|e] eqn:Hres.
    + eexists _, _. split; [reflexivity|]. split; [exact Hc1|].
      intros cur' w1' Heq _ _. by inversion Heq; subst.
    + eexists _, _. split; [reflexivity|]. split; [exact Hc1|].
      intros cur' w1' Heq Hn Hu. inversion Heq; subst.
      by rewrite (prop_defined _ "result" Hn Hu) in Hres.
  - rewrite (bind_throw _ _ _ _ _ Hsnap). eexists _, _. split; [reflexivity|].
    split; [exact Hc1|]. intros cur' w1' Heq. done.
Qed.

(** *** Group membership *)

Lemma group_ids_truthy gm gs : group_ids gm = Ok gs → Forall (λ g, truthy g = true) gs.
Proof.
  unfold group_ids, rbind. intros H.
  destruct (prop gm "result") as [res|]; [|done].
  destruct (map_receiver (js_or res (JArr []))) as [rows|]; [|done].
  destruct (mapR member_group rows) as [ids|]; [|done].
  inversion H; subst. apply Forall_forall. intros g Hg.
  apply list_elem_of_In, filter_In in Hg. by destruct Hg.
Qed.

Lemma membership_inv using_ userSysId w gs w' :
  membership using_ userSysId w = (Ok gs, w') →
  ∃ path gm, grmember_path userSysId = Ok path ∧
    sn using_ "GET" path None w = (Ok gm, w') ∧ group_ids gm = Ok gs.
Proof.
  unfold membership. intros H.
  bind_ok H as path w1 Epath. apply lift_ok in Epath as [Epath ->].
  bind_ok H as gm w2 Egm. apply lift_ok in H as [H ->]. eauto.
Qed.

Lemma emits_membership using_ userSysId : emits is_get 1 (membership using_ userSysId).
Proof.
  unfold membership. apply emits_bind_lift. intros path.
  apply (emits_bind _ 1 0); [by apply emits_sn|]. intros gm. apply emits_lift.
Qed.

Lemma emits_getUserGroups using_ userSysId : emits is_get 2 (getUserGroups using_ userSysId).
Proof.
  unfold getUserGroups. apply (emits_try _ 1 1); [apply emits_membership|]. intros _.
  apply (emits_try _ 1 0); [apply emits_membership|]. intros _. apply emits_ret.
Qed.

Lemma getUserGroups_total using_ userSysId w :
  ∃ gs w', getUserGroups using_ userSysId w = (Ok gs, w') ∧
           Forall (λ g, truthy g = true) gs.
Proof.
  unfold getUserGroups, try_catch.
  destruct (membership using_ userSysId w) as [[gs|e] w1] eqn:H1.
  - eexists _, _. split; [done|].
    apply membership_inv in H1 as (path & gm & _ & _ & Hids). by eapply group_ids_truthy.
  - destruct (membership adminCreds userSysId w1) as [[gs|e2] w2] eqn:H2.
    + eexists _, _. split; [done|].
      apply membership_inv in H2 as (path & gm & _ & _ & Hids). by eapply group_ids_truthy.
    + eexists _, _. split; [done|]. constructor.
Qed.

(** X16. Looking up the groups of a user never fails: whatever the
    upstream does, [getUserGroups] returns a list, every member of which
    is a non-empty value, after at most two upstream calls, both
    reads. *)
Theorem getUserGroups_never_throws using_ userSysId w :
  ∃ gs w' l,
    getUserGroups using_ userSysId w = (Ok gs, w') ∧
    Forall (λ g, truthy g = true) gs ∧
    calls w' = calls w ++ l ∧ (length l ≤ 2)%nat ∧ Forall is_get l.
Proof.
  destruct (getUserGroups_total using_ userSysId w) as (gs & w' & Hrun & Hgs).
  destruct (emits_getUserGroups using_ userSysId _ _ _ Hrun) as (l & Hc & Hget & Hl).
  by exists gs, w', l.
Qed.

(** X17. The group lookup falls back on the administrator: when the read
    made with the credentials given fails and the same read made with
    the administrator's succeeds, the groups of the latter are returned;
    the two reads are the only calls, in that order. *)
Theorem getUserGroups_falls_back_to_admin using_ userSysId path w e w1 gm w2 gs :
  grmember_path userSysId = Ok path →
  sn using_ "GET" path None w = (Throw e, w1) →
  sn adminCreds "GET" path None w1 = (Ok gm, w2) →
  group_ids gm = Ok gs →
  getUserGroups using_ userSysId w = (Ok gs, w2) ∧
  calls w2 = calls w ++ [request_of using_ "GET" path None;
                         request_of adminCreds "GET" path None].
Proof.
  intros Hpath Huser Hadmin Hids.
  pose proof (sn_frame _ _ _ _ _ _ _ Huser) as (Hc1 & _ & _).
  pose proof (sn_frame _ _ _ _ _ _ _ Hadmin) as (Hc2 & _ & _).
  split; [|by rewrite Hc2, Hc1, <- app_assoc].
  unfold getUserGroups, try_catch, membership.
  rewrite (bind_lift_ok _ _ _ _ Hpath), (bind_throw _ _ _ _ _ Huser).
  rewrite (bind_lift_ok _ _ _ _ Hpath), (bind_ok _ _ _ _ _ Hadmin).
  by rewrite Hids.
Qed.

(** *** Login *)

(** How an answer of [login] comes about. *)
Lemma login_inv sessions token body w reply sessions' w' :
  login sessions token body w = (Ok (reply, sessions'), w') →
  (http_status reply = 400 ∧ sessions' = sessions ∧ w' = w ∧
   (truthy (oprop body "username") = false ∨ truthy (oprop body "password") = false)) ∨
  (http_status reply = 401 ∧ sessions' = sessions) ∨
  (∃ u p data w1 gs,
     toStr (oprop body "username") = Ok u ∧ toStr (oprop body "password") = Ok p ∧
     sn (mkCreds SN_INSTANCE u p) "GET" (login_path u) None w = (Ok data, w1) ∧
     truthy (oprop (first_user data) "sys_id") = true ∧
     getUserGroups (mkCreds SN_INSTANCE u p) (oprop (first_user data) "sys_id") w1
       = (Ok gs, w') ∧
     sessions' = <[token := session_of (mkCreds SN_INSTANCE u p) (first_user data) gs]>
                   sessions ∧
     reply = welcome token (session_of (mkCreds SN_INSTANCE u p) (first_user data) gs)).
Proof.
  unfold login. cbv zeta. rewrite !oprop_or_empty.
  destruct (truthy (oprop body "username")) eqn:Hu; simpl;
    [destruct (truthy (oprop body "password")) eqn:Hp; simpl|].
  - unfold try_catch.
    match goal with |- context [match ?run with _ => _ end] =>
      destruct run as [[[r ss]|e] w2] eqn:Hrun end;
      intros H; inversion H; subst; clear H.
    + right. right.
      bind_ok Hrun as u w3 Eu. apply lift_ok in Eu as [Eu ->].
      bind_ok Hrun as p w3 Ep. apply lift_ok in Ep as [Ep ->].
      bind_ok Hrun as data w1 Edata.
      destruct (truthy (oprop (first_user data) "sys_id")) eqn:Hid; simpl in Hrun; [|done].
      bind_ok Hrun as gs w4 Egs. inversion Hrun; subst.
      exists u, p, data, w1, gs. done.
    + right. left. done.
  - intros H; inversion H; subst. left. eauto.
  - intros H; inversion H; subst. left. eauto.
Qed.

Lemma login_total sessions token body w :
  ∃ reply sessions' w', login sessions token body w = (Ok (reply, sessions'), w').
Proof.
  unfold login. cbv zeta.
  destruct (negb _ || negb _); [by eexists _, _, _|].
  unfold try_catch.
  match goal with |- context [match ?run with _ => _ end] =>
    destruct run as [[[r ss]|e] w2] end; by eexists _, _, _.
Qed.

(** X18. Login needs both credentials: a body that lacks the username or
    the password (absent, null or empty) is answered 400 at once; no
    upstream call is made and no session is stored. *)
Theorem login_requires_both_credentials sessions token body w :
  truthy (oprop body "username") = false ∨ truthy (oprop body "password") = false →
  login sessions token body w =
    (Ok (mkHttp 400 (JObj [("ok", JBool false); ("error", JStr "Missing username/password")]),
         sessions), w).
Proof.
  intros H. unfold login. cbv zeta. rewrite !oprop_or_empty.
  destruct H as [-> | ->]; [done|]. by rewrite orb_true_r.
Qed.

(** X19. A login stores a session exactly when it succeeds: the handler
    always answers, with 200, 400 or 401; with 200 the session map it
    leaves is the one it found with a session added under the token of
    this login, every other token keeping its session; with 400 or 401
    the map is unchanged. *)
Theorem login_stores_a_session_only_on_success sessions token body w :
  ∃ reply sessions' w',
    login sessions token body w = (Ok (reply, sessions'), w') ∧
    ((http_status reply = 200 ∧ is_Some (sessions' !! token) ∧
      ∀ t, t ≠ token → sessions' !! t = sessions !! t) ∨
     ((http_status reply = 400 ∨ http_status reply = 401) ∧ sessions' = sessions)).
Proof.
  destruct (login_total sessions token body w) as (reply & sessions' & w' & Hrun).
  exists reply, sessions', w'. split; [done|].
  apply login_inv in Hrun
    as [(H400 & -> & _)|[(H401 & ->)|(u & p & data & w1 & gs & _ & _ & _ & _ & _ & -> & ->)]].
  - right. eauto.
  - right. eauto.
  - left. split; [done|]. split.
    + rewrite lookup_insert_eq. by eexists.
    + intros t Ht. by rewrite lookup_insert_ne.
Qed.

Lemma bearer_token_found (sessions : gmap string Session) token s q :
  token ≠ "" →
  sessions !! token = Some s →
  requireAuth sessions (mkAuthInput (Some ("Bearer " +:+ token)) q) = Next s token.
Proof.
  intros Hne Hs.
  assert (truthy (JStr token) = true) as Ht by (by apply nonempty_true).
  unfold requireAuth, authorization.
  change ("Bearer " +:+ token)
    with (String "B" (String "e" (String "a" (String "r" (String "e"
           (String "r" (String " " token))))))).
  unfold startsWith. simpl default.
  assert (String.prefix "" token = true) as Hp by (by destruct token).
  simpl String.prefix. simpl string_drop. rewrite Hp, Ht, Hs. reflexivity.
Qed.

(** X20. The token of a login opens the session check: after a login
    answered 200, the token in its answer, sent back as a bearer header,
    passes [requireAuth] against the session map that login left, and
    the session attached is the one of the user in the answer, with a
    non-empty identifier. *)
Theorem login_then_requireAuth sessions token body w reply sessions' w' q :
  token ≠ "" →
  login sessions token body w = (Ok (reply, sessions'), w') →
  http_status reply = 200 →
  oprop (oprop (http_json reply) "result") "token" = JStr token ∧
  ∃ s, requireAuth sessions' (mkAuthInput (Some ("Bearer " +:+ token)) q) = Next s token ∧
       user s = oprop (oprop (http_json reply) "result") "user" ∧
       userSysId s = oprop (user s) "sys_id" ∧
       truthy (userSysId s) = true.
Proof.
  intros Hne Hrun H200.
  apply login_inv in Hrun
    as [(H400 & _)|[(H401 & _)|(u & p & data & w1 & gs & _ & _ & _ & Hid & _ & -> & ->)]];
    [rewrite H400 in H200; done|rewrite H401 in H200; done|].
  split; [done|]. eexists. split.
  - apply bearer_token_found; [done|]. apply lookup_insert_eq.
  - done.
Qed.

(** X21. A session acts with the credentials it stores: for the session
    a successful login leaves under its token, [pickActingCreds] gives
    the session's own [creds]; they are the administrator's when the
    admin-for-all mode is on, so that the user's password is not kept,
    and otherwise those the user logged in with. *)
Theorem login_session_acts_with_its_creds sessions token body w reply sessions' w' :
  login sessions token body w = (Ok (reply, sessions'), w') →
  http_status reply = 200 →
  ∃ s, sessions' !! token = Some s ∧
       pickActingCreds s = creds s ∧
       (via s = "admin" ∧ creds s = adminCreds ∨
        via s = "user" ∧
        ∃ u p, toStr (oprop body "username") = Ok u ∧
               toStr (oprop body "password") = Ok p ∧
               creds s = mkCreds SN_INSTANCE u p).
Proof.
  intros Hrun H200.
  apply login_inv in Hrun
    as [(H400 & _)|[(H401 & _)|(u & p & data & w1 & gs & Hu & Hp & _ & _ & _ & -> & ->)]];
    [rewrite H400 in H200; done|rewrite H401 in H200; done|].
  eexists. split; [apply lookup_insert_eq|].
  unfold pickActingCreds, session_of, via_mode. simpl.
  destruct (String.eqb (toLowerCase USE_ADMIN_FOR_ALL) "true"); simpl.
  - split; [done|]. by left.
  - split; [done|]. right. split; [done|]. by exists u, p.
Qed.

(** *** Approvals *)

Lemma lower_ascii_not_capital c : is_capital (lower_ascii c) = false.
Proof. destruct c as [[] [] [] [] [] [] [] []]; reflexivity. Qed.

Lemma toLowerCase_eq a s1 :
  toLowerCase (String a s1) =
  match s1 with
  | String b s2 =>
      if bytes_are [196; 176]%nat [a; b]
      then String "i" (String "204" (String "135" (toLowerCase s2)))
      else
        match s2 with
        | String c s3 =>
            if bytes_are [226; 132; 170]%nat [a; b; c]
            then String "k" (toLowerCase s3)
            else String (lower_ascii a) (toLowerCase s1)
        | EmptyString => String (lower_ascii a) (toLowerCase s1)
        end
  | EmptyString => String (lower_ascii a) EmptyString
  end.
Proof. by destruct s1 as [|b [|c s3]]. Qed.

(** A lowered string has no ASCII capital. *)
Lemma toLowerCase_no_capital s : has_capital (toLowerCase s) = false.
Proof.
  remember (String.length s) as n eqn:Hn.
  assert (String.length s ≤ n)%nat as Hle by lia. clear Hn.
  revert s Hle. induction n as [|n IH]; intros s Hle.
  { destruct s; [done|simpl in *; lia]. }
  destruct s as [|a s1]; [done|]. rewrite toLowerCase_eq.
  assert (∀ t, (String.length t ≤ n)%nat →
               has_capital (String (lower_ascii a) (toLowerCase t)) = false) as Hkeep.
  { intros t Ht. cbn [has_capital]. by rewrite lower_ascii_not_capital, IH. }
  destruct s1 as [|b s2]; [cbn [has_capital]; by rewrite lower_ascii_not_capital|].
  destruct (bytes_are [196; 176]%nat [a; b]).
  { cbn [has_capital]. rewrite IH by (simpl in *; lia). done. }
  destruct s2 as [|c s3]; [apply Hkeep; simpl in *; lia|].
  destruct (bytes_are [226; 132; 170]%nat [a; b; c]).
  { cbn [has_capital]. rewrite IH by (simpl in *; lia). done. }
  apply Hkeep. simpl in *. lia.
Qed.

(** A name with an ASCII capital in it is never the lower case of a
    string. *)
Lemma lowered_differs d name :
  has_capital name = true → String.eqb (toLowerCase d) name = false.
Proof.
  intros Hn. apply String.eqb_neq. intros Heq.
  by rewrite <- Heq, toLowerCase_no_capital in Hn.
Qed.

Lemma stateMap_absent d :
  toLowerCase d ∉ passing_decisions → stateMap (toLowerCase d) = Absent.
Proof.
  intros Hd. unfold stateMap.
  assert (∀ k, k ∈ passing_decisions → String.eqb (toLowerCase d) k = false) as Hk.
  { intros k Hin. apply String.eqb_neq. by intros <-. }
  rewrite !Hk by in_list.
  cbn [existsb Object_prototype_methods orb].
  rewrite Hk by in_list.
  by rewrite !lowered_differs by reflexivity.
Qed.

(** X22. A decision that is not understood is refused before anything is
    written: unless its lower-case form is approve, approved, reject or
    rejected, or one of the two names 'constructor' and '__proto__'
    that the state table inherits, the handler answers 400 "Invalid
    decision" and makes no upstream call. *)
Theorem decide_refuses_unknown_words session sys_id body w d :
  toStr (js_or (oprop body "decision") (JStr "")) = Ok d →
  toLowerCase d ∉ passing_decisions →
  decide session sys_id body w =
    (Ok (mkHttp 400 (failure_body "Invalid decision" "Use approve|reject")), w).
Proof.
  intros Hd Hword. unfold decide, try_catch. cbv zeta. rewrite !oprop_or_empty.
  rewrite (bind_lift_ok _ _ _ _ Hd). by rewrite (stateMap_absent _ Hword).
Qed.

(** X23. The decision is normalised before it is written: approve and
    approved, in any letter case, are sent as the state 'approved',
    reject and rejected as 'rejected', in one PATCH of the approval row
    (display-value write mode) that carries the comments only when they
    are not empty; it is the only upstream call. *)
Theorem decide_normalises_the_decision session sys_id body w d st :
  toStr (js_or (oprop body "decision") (JStr "")) = Ok d →
  toLowerCase d ∈ ["approve"; "approved"] ∧ st = "approved" ∨
  toLowerCase d ∈ ["reject"; "rejected"] ∧ st = "rejected" →
  ∃ reply w',
    decide session sys_id body w = (Ok reply, w') ∧
    calls w' = calls w ++
      [request_of (pickActingCreds session) "PATCH" (decide_path sys_id)
         (Some (JObj (("state", JStr st) :: comments_property body)))].
Proof.
  intros Hd Hword. unfold decide, try_catch. cbv zeta. rewrite !oprop_or_empty.
  rewrite (bind_lift_ok _ _ _ _ Hd).
  assert (stateMap (toLowerCase d) = OwnState st) as ->.
  { unfold stateMap.
    destruct Hword as [[Hin ->]|[Hin ->]];
      repeat (apply elem_of_cons in Hin as [->|Hin]; [done|]);
      by apply elem_of_nil in Hin. }
  cbn [state_property app]. fold (comments_property body).
  destruct (sn (pickActingCreds session) "PATCH" (decide_path sys_id)
              (Some (JObj (("state", JStr st) :: comments_property body))) w)
    as [[upd|e] w1] eqn:Hsn;
    pose proof (sn_frame _ _ _ _ _ _ _ Hsn) as (Hc & _ & _).
  - rewrite (bind_ok _ _ _ _ _ Hsn).
    destruct (prop upd "result") as [res|e]; eexists _, _; (split; [reflexivity|done]).
  - rewrite (bind_throw _ _ _ _ _ Hsn). eexists _, _. split; [reflexivity|done].
Qed.

Lemma try_ret_total {A} (m : M A) (h : Err → A) w :
  ∃ a w', try_catch m (fun e => ret (h e)) w = (Ok a, w').
Proof. unfold try_catch. destruct (m w) as [[a|e] w1]; by eexists _, _. Qed.

Lemma emits_probe using_ targetId tbl : emits is_get 1 (probe using_ targetId tbl).
Proof.
  unfold probe. apply (emits_try _ 1 0); [|intros _; apply emits_ret].
  apply emits_bind_lift. intros id.
  apply (emits_bind _ 1 0); [by apply emits_sn|]. intros t.
  destruct (truthy _); apply emits_ret.
Qed.

Lemma probe_total using_ targetId tbl w :
  ∃ found w', probe using_ targetId tbl w = (Ok found, w') ∧
    ∀ t, found = Some t → truthy (oprop t "sys_id") = true.
Proof.
  unfold probe, try_catch.
  match goal with |- context [match ?run with _ => _ end] =>
    destruct run as [[found|e] w1] eqn:Hrun end.
  - eexists _, _. split; [done|]. intros t ->.
    bind_ok Hrun as id w2 Eid. bind_ok Hrun as d w3 Ed.
    destruct (truthy (oprop (oprop d "result") "sys_id")) eqn:Hid;
      inversion Hrun; by subst.
  - eexists _, _. split; [done|]. done.
Qed.

Lemma emits_find_target using_ targetId tables :
  emits is_get (length tables) (find_target using_ targetId tables).
Proof.
  induction tables as [|tbl rest IH]; simpl; [apply emits_ret|].
  apply (emits_bind _ 1 (length rest)); [apply emits_probe|].
  intros [target|]; [|done]. apply (emits_le _ 0); [lia|apply emits_ret].
Qed.

Lemma find_target_total using_ targetId tables : ∀ w,
  ∃ target tbl w', find_target using_ targetId tables w = (Ok (target, tbl), w') ∧
                   found_in tables target tbl.
Proof.
  induction tables as [|t rest IH]; intros w; simpl.
  - eexists _, _, _. split; [done|]. by left.
  - destruct (probe_total using_ targetId t w) as (found & w1 & Hprobe & Hid).
    rewrite (bind_ok _ _ _ _ _ Hprobe). destruct found as [target|].
    + eexists _, _, _. split; [done|]. right. exists t.
      split; [done|]. split; [left|by apply Hid].
    + destruct (IH w1) as (target & tbl & w' & Hrun & Hfound).
      eexists _, _, _. split; [exact Hrun|].
      destruct Hfound as [?|(t' & ? & ? & ?)]; [by left|].
      right. exists t'. split; [done|]. split; [by right|done].
Qed.

(** X24. Looking for the record of an approval cannot fail the request:
    once the approval row has been read, the handler answers 200 with
    that row whatever the five candidate tables reply; the target it
    reports is nothing, or a record that has an identifier together
    with the candidate table it was found in; at most five more calls
    are made, all reads. *)
Theorem approval_details_survive_target_failures session sys_id w ap w1 :
  sn (pickActingCreds session) "GET" (approval_path sys_id) None w = (Ok ap, w1) →
  truthy (oprop ap "result") = true →
  ∃ target tbl w' l,
    approval_details session sys_id w =
      (Ok (mkHttp 200
             (JObj [("ok", JBool true);
                    ("result", JObj [("approval", oprop ap "result"); ("target", target);
                                     ("targetTable", tbl)])])), w') ∧
    found_in candidates target tbl ∧
    calls w' = calls w1 ++ l ∧ (length l ≤ 5)%nat ∧ Forall is_get l.
Proof.
  intros Hap Hresult.
  assert (prop ap "result" = Ok (oprop ap "result")) as Hprop.
  { apply prop_defined; intros ->; done. }
  set (targetId := js_or (oprop (oprop (oprop ap "result") "sysapproval") "value")
                         (oprop (oprop ap "result") "sysapproval")).
  destruct (find_target_total (pickActingCreds session) targetId candidates w1)
    as (target & tbl & w' & Hfind & Hfound).
  destruct (emits_find_target _ _ _ _ _ _ Hfind) as (l & Hc & Hget & Hl).
  exists target, tbl, w', l. split; [|done].
  unfold approval_details, try_catch. cbv zeta.
  rewrite (bind_ok _ _ _ _ _ Hap), (bind_lift_ok _ _ _ _ Hprop), Hresult.
  cbn [negb]. fold targetId. by rewrite (bind_ok _ _ _ _ _ Hfind).
Qed.

(** *** Lists *)

Lemma emits_listing query path message session :
  groups session ≠ [] →
  emits (acting_read session) 1 (listing query path message session).
Proof.
  intros Hgs. unfold listing. cbv zeta.
  apply (emits_try _ 1 0); [|intros e; apply emits_ret].
  apply (emits_bind _ 0 1).
  { unfold session_groups. destruct (groups session); [done|apply emits_ret]. }
  intros gs. do 2 (apply emits_bind_lift; intros ?).
  apply (emits_bind _ 1 0); [by apply emits_sn|]. intros data.
  apply emits_bind_lift. intros res. apply emits_ret.
Qed.

(** X25. The list handlers use the groups of the session: when the
    session holds groups, the handlers of the incidents, tasks and
    approvals lists do not look the membership up again; each makes at
    most one upstream call, a read with the acting credentials, and
    always answers. *)
Theorem lists_use_the_stored_groups h session w :
  h ∈ [incidents; tasks; approvals] →
  groups session ≠ [] →
  ∃ reply w' l,
    h session w = (Ok reply, w') ∧
    calls w' = calls w ++ l ∧ (length l ≤ 1)%nat ∧ Forall (acting_read session) l.
Proof.
  intros Hh Hgs.
  assert (∃ query path message, h = listing query path message) as (qy & path & msg & ->).
  { repeat (apply elem_of_cons in Hh as [->|Hh]; [by eexists _, _, _|]).
    by apply elem_of_nil in Hh. }
  destruct (try_ret_total
    (let using_ := pickActingCreds session in
     let userId := userSysId session in
     let* gs := session_groups session using_ userId in
     let* groupCsv := lift (toStr (JArr gs)) in
     let* uid := lift (toStr userId) in
     let q := qy uid groupCsv in
     let* data := sn using_ "GET" (path (encodeURIComponent q)) None in
     let* res := lift (prop data "result") in
     ret (mkHttp 200 (JObj [("ok", JBool true); ("result", js_or res (JArr []))])))
    (fun e => mkHttp 500 (failure_body msg (err_detail e))) w) as (reply & w' & Hrun).
  change (listing qy path msg session w = (Ok reply, w')) in Hrun.
  destruct (emits_listing qy path msg session Hgs _ _ _ Hrun) as (l & Hc & Hread & Hl).
  by exists reply, w', l.
Qed.

(** *** Typeahead *)

(** X26. A blank search finds nothing and asks nobody: when the search
    term is absent or is white space only, the handlers of the user and
    group typeahead answer 200 with an empty result and make no
    upstream call. *)
Theorem blank_search_finds_nothing h session q w :
  h ∈ [search_users; search_groups] →
  truthy q = false ∨ (∃ s, q = JStr s ∧ trim s = "") →
  h session q w = (Ok (mkHttp 200 (JObj [("ok", JBool true); ("result", JArr [])])), w).
Proof.
  intros Hh Hq.
  assert (search_term q = Ok "") as Hterm.
  { unfold search_term, js_or. destruct Hq as [->|(s & -> & Hs)]; [done|].
    destruct (truthy (JStr s)); [by rewrite Hs|done]. }
  repeat (apply elem_of_cons in Hh as [->|Hh];
          [unfold search_users, search_groups, search, try_catch;
           by rewrite (bind_lift_ok _ _ _ _ Hterm)|]).
  by apply elem_of_nil in Hh.
Qed.

(** *** Records *)

(** X27. Reading a record of the change table is reading the change
    details: for the table 'change_request' (white space around the
    table and the identifier aside) the record handler makes the very
    call of the change-details handler, leaves the same world, answers
    with the same status, and on success with the same document; and a
    blank table or identifier is answered 400 with no upstream call. *)
Theorem change_record_is_change_details session table sys_id w :
  (trim table = "" ∨ trim sys_id = "" →
   get_record session table sys_id w =
     (Ok (mkHttp 400 (failure_body "Bad request" "Missing table or sys_id")), w)) ∧
  (trim table = "change_request" → trim sys_id ≠ "" →
   ∃ reply reply' w',
     change_details session (trim sys_id) w = (Ok reply, w') ∧
     get_record session table sys_id w = (Ok reply', w') ∧
     http_status reply' = http_status reply ∧
     (http_status reply = 200 → reply' = reply)).
Proof.
  split.
  - intros H. unfold get_record, try_catch. cbv zeta.
    destruct H as [-> | ->]; [done|]. by rewrite orb_true_r.
  - intros Ht Hid. unfold get_record, change_details, try_catch. cbv zeta.
    rewrite Ht, (nonempty_true _ Hid). cbn [nonempty negb orb String.eqb Ascii.eqb Bool.eqb].
    destruct (sn (pickActingCreds session) "GET"
                (fields_path "change_request" (trim sys_id) CHANGE_FIELDS) None w)
      as [[data|e] w1] eqn:Hsn.
    + rewrite !(bind_ok _ _ _ _ _ Hsn).
      destruct (prop data "result") as [res|e]; by eexists _, _, _.
    + rewrite !(bind_throw _ _ _ _ _ Hsn). by eexists _, _, _.
Qed.

(** *** The read handlers *)

Lemma emits_resolve_start P table sys_id : emits P 0 (resolve_start table sys_id).
Proof.
  intros w r w' H. destruct (resolve_start_pure table sys_id w) as (s & Hs).
  rewrite Hs in H. inversion H; subst. exists []. by rewrite app_nil_r.
Qed.

Lemma emits_resolve_finish using_ table p : emits is_get 1 (resolve_finish using_ table p).
Proof.
  intros w r w' H.
  destruct (resolve_finish_total using_ table p w) as (label & w1 & Hf & rq & Hc & Hg).
  rewrite Hf in H. inversion H; subst. exists [rq]. split; [done|]. split; [|done].
  by constructor.
Qed.

Lemma emits_resolveAssignedDisplay using_ fieldname oldVal newVal :
  emits is_get 2 (resolveAssignedDisplay using_ fieldname oldVal newVal).
Proof.
  assert (∀ table,
    emits is_get 2
      (let* so := resolve_start table oldVal in
       let* sn_ := resolve_start table newVal in
       let* o := match so with
                 | inl l => ret l
                 | inr p => resolve_finish using_ table p
                 end in
       let* n := match sn_ with
                 | inl l => ret l
                 | inr p => resolve_finish using_ table p
                 end in
       ret (o, n))) as Hboth.
  { intros table.
    apply (emits_bind _ 0 2); [apply emits_resolve_start|]. intros so.
    apply (emits_bind _ 0 2); [apply emits_resolve_start|]. intros sn_.
    apply (emits_bind _ 1 1).
    { destruct so; [apply (emits_le _ 0); [lia|apply emits_ret]|apply emits_resolve_finish]. }
    intros o. apply (emits_bind _ 1 0); [|intros n; apply emits_ret].
    destruct sn_; [apply (emits_le _ 0); [lia|apply emits_ret]|apply emits_resolve_finish]. }
  unfold resolveAssignedDisplay.
  destruct (String.eqb fieldname "assigned_to"); [apply Hboth|].
  destruct (String.eqb fieldname "assignment_group"); [apply Hboth|].
  apply (emits_le _ 0); [lia|apply emits_ret].
Qed.

Lemma emits_auditRow seen r : emits is_get 2 (auditRow seen r).
Proof.
  unfold auditRow. do 2 (apply emits_bind_lift; intros ?). cbv zeta.
  destruct (_ || _); [apply (emits_le _ 0); [lia|apply emits_ret]|].
  destruct (_ && _); [apply (emits_le _ 0); [lia|apply emits_ret]|].
  apply (emits_bind _ 2 0).
  - unfold shown_values. cbv zeta.
    destruct (_ || _); [|apply (emits_le _ 0); [lia|apply emits_ret]].
    destruct (_ || _); [|apply (emits_le _ 0); [lia|apply emits_ret]].
    apply (emits_bind _ 2 0); [apply emits_resolveAssignedDisplay|].
    intros [oName nName]. apply emits_ret.
  - intros vals. apply emits_bind_lift. intros text. apply emits_ret.
Qed.

Lemma only_calls_lift {A} P (x : Res A) : only_calls P (lift x).
Proof. apply (emits_only _ 0), emits_lift. Qed.

Lemma only_calls_activity session table sys_id :
  only_calls is_get (activity session table sys_id).
Proof.
  unfold activity. apply only_calls_try;
    [|intros e; apply (emits_only _ 0), emits_ret].
  apply only_calls_bind.
  - unfold narrative_entries. cbv zeta.
    apply only_calls_bind; [by apply (emits_only _ 1), emits_sn|]. intros jf.
    apply only_calls_bind; [by apply (emits_only _ 1), emits_sn|]. intros au.
    do 5 (apply only_calls_bind; [apply only_calls_lift|]; intros ?).
    apply only_calls_bind; [|intros slots; apply only_calls_lift].
    unfold audit_slots. apply only_calls_bind; [apply only_calls_lift|]. intros seen.
    apply only_calls_mapM. intros r. apply (emits_only _ 2), emits_auditRow.
  - intros entries. apply only_calls_bind; [apply only_calls_lift|]. intros lines.
    apply (emits_only _ 0), emits_ret.
Qed.

Lemma emits_all_notes session table sys_id : emits is_get 1 (all_notes session table sys_id).
Proof.
  unfold all_notes. cbv zeta.
  apply (emits_try _ 1 0); [|intros e; apply emits_ret].
  apply (emits_bind _ 1 0); [by apply emits_sn|]. intros data.
  do 3 (apply emits_bind_lift; intros ?). apply emits_ret.
Qed.

Lemma emits_get_record session table sys_id : emits is_get 1 (get_record session table sys_id).
Proof.
  unfold get_record. cbv zeta.
  apply (emits_try _ 1 0); [|intros e; apply emits_ret].
  destruct (_ || _); [apply (emits_le _ 0); [lia|apply emits_ret]|].
  apply (emits_bind _ 1 0); [by apply emits_sn|]. intros data.
  apply emits_bind_lift. intros ?. apply emits_ret.
Qed.

Lemma emits_change_details session sys_id : emits is_get 1 (change_details session sys_id).
Proof.
  unfold change_details. cbv zeta.
  apply (emits_try _ 1 0); [|intros e; apply emits_ret].
  apply (emits_bind _ 1 0); [by apply emits_sn|]. intros data.
  apply emits_bind_lift. intros ?. apply emits_ret.
Qed.

Lemma emits_approval_details session sys_id :
  emits is_get 6 (approval_details session sys_id).
Proof.
  unfold approval_details. cbv zeta.
  apply (emits_try _ 6 0); [|intros e; apply emits_ret].
  apply (emits_bind _ 1 5); [by apply emits_sn|]. intros ap.
  apply emits_bind_lift. intros approval.
  destruct (negb _); [apply (emits_le _ 0); [lia|apply emits_ret]|].
  apply (emits_bind _ 5 0); [apply (emits_find_target _ _ candidates)|].
  intros found. apply emits_ret.
Qed.

Lemma emits_listing_any query path message session :
  emits is_get 3 (listing query path message session).
Proof.
  unfold listing. cbv zeta.
  apply (emits_try _ 3 0); [|intros e; apply emits_ret].
  apply (emits_bind _ 2 1).
  { unfold session_groups.
    destruct (groups session); [apply emits_getUserGroups|].
    apply (emits_le _ 0); [lia|apply emits_ret]. }
  intros gs. do 2 (apply emits_bind_lift; intros ?).
  apply (emits_bind _ 1 0); [by apply emits_sn|]. intros data.
  apply emits_bind_lift. intros res. apply emits_ret.
Qed.

Lemma emits_search path message session q :
  emits is_get 1 (search path message session q).
Proof.
  unfold search. cbv zeta.
  apply (emits_try _ 1 0); [|intros e; apply emits_ret].
  apply emits_bind_lift. intros term.
  destruct (negb _); [apply (emits_le _ 0); [lia|apply emits_ret]|].
  apply (emits_bind _ 1 0); [by apply emits_sn|]. intros data.
  apply emits_bind_lift. intros res. apply emits_ret.
Qed.

Lemma emits_debug_session session : emits is_get 1 (debug_session session).
Proof.
  unfold debug_session. cbv zeta.
  apply (emits_try _ 1 0); [|intros e; apply emits_ret].
  apply (emits_bind _ 1 0); [apply emits_membership|]. intros gs. apply emits_ret.
Qed.

(** X28. The read handlers never write: every upstream call made by the
    handlers of the activity narrative, the journal listing, a record,
    the change details, the approval details, the three lists, the two
    typeaheads and the session inspection is a GET, whatever the
    upstream replies; all but the activity handler, whose calls grow
    with the names it resolves, make a bounded number of them. *)
Theorem read_handlers_never_write session table sys_id q :
  only_calls is_get (activity session table sys_id) ∧
  emits is_get 1 (all_notes session table sys_id) ∧
  emits is_get 1 (get_record session table sys_id) ∧
  emits is_get 1 (change_details session sys_id) ∧
  emits is_get 6 (approval_details session sys_id) ∧
  emits is_get 3 (incidents session) ∧
  emits is_get 3 (tasks session) ∧
  emits is_get 3 (approvals session) ∧
  emits is_get 1 (search_users session q) ∧
  emits is_get 1 (search_groups session q) ∧
  emits is_get 1 (debug_session session).
Proof.
  split; [apply only_calls_activity|].
  split; [apply emits_all_notes|].
  split; [apply emits_get_record|].
  split; [apply emits_change_details|].
  split; [apply emits_approval_details|].
  split; [apply emits_listing_any|].
  split; [apply emits_listing_any|].
  split; [apply emits_listing_any|].
  split; [apply emits_search|].
  split; [apply emits_search|].
  apply emits_debug_session.
Qed.

(** *** Every handler answers *)

Lemma returns_bind {A B} (Q : B → Prop) (m : M A) (k : A → M B) :
  (∀ a, returns Q (k a)) → returns Q (bind m k).
Proof.
  intros Hk w b w' H. bind_ok H as a w1 E. by eapply Hk.
Qed.

Lemma returns_ret {A} (Q : A → Prop) a : Q a → returns Q (ret a).
Proof. intros HQ w b w' H. by inversion H; subst. Qed.

Lemma returns_throw {A} (Q : A → Prop) e : returns Q (throw e).
Proof. intros w b w' H. inversion H. Qed.

Lemma answers_try {A} (Q : A → Prop) (m : M A) (h : Err → A) :
  returns Q m → (∀ e, Q (h e)) → answers Q (try_catch m (fun e => ret (h e))).
Proof.
  intros Hm Hh w. unfold try_catch. destruct (m w) as [[a|e] w1] eqn:Hrun.
  - exists a, w1. split; [done|]. by eapply Hm.
  - exists (h e), w1. split; [done|]. apply Hh.
Qed.

Ltac status_ok := unfold status_in; cbn [http_status]; in_list.

Ltac returns_auto :=
  repeat first
    [ apply returns_ret; status_ok
    | apply returns_throw
    | apply returns_bind; intros ?
    | match goal with
      | |- returns _ (if ?b then _ else _) => destruct b
      | |- returns _ (match ?x with _ => _ end) => destruct x
      end ].

Ltac handler_answers :=
  cbv zeta; apply answers_try; [returns_auto|intros ?; status_ok].

(** X29. Every handler answers: no failure of the upstream and no shape
    of its documents lets an exception escape a handler; each ends in an
    answer whose status is 200 or the handler's own failure status, 500,
    with 400 for the requests it refuses and 404 for an approval that
    does not exist. *)
Theorem handlers_always_answer session table sys_id body q :
  answers (status_in [200; 500]) (activity session table sys_id) ∧
  answers (status_in [200; 500]) (update session table sys_id body) ∧
  answers (status_in [200; 500]) (all_notes session table sys_id) ∧
  answers (status_in [200; 400; 500]) (get_record session table sys_id) ∧
  answers (status_in [200; 500]) (change_details session sys_id) ∧
  answers (status_in [200; 404; 500]) (approval_details session sys_id) ∧
  answers (status_in [200; 400; 500]) (decide session sys_id body) ∧
  answers (status_in [200; 500]) (incidents session) ∧
  answers (status_in [200; 500]) (tasks session) ∧
  answers (status_in [200; 500]) (approvals session) ∧
  answers (status_in [200; 500]) (search_users session q) ∧
  answers (status_in [200; 500]) (search_groups session q) ∧
  answers (status_in [200; 500]) (debug_session session).
Proof.
  split; [unfold activity; handler_answers|].
  split; [unfold update; handler_answers|].
  split; [unfold all_notes; handler_answers|].
  split; [unfold get_record; handler_answers|].
  split; [unfold change_details; handler_answers|].
  split; [unfold approval_details; handler_answers|].
  split; [unfold decide; handler_answers|].
  split; [unfold incidents, listing; handler_answers|].
  split; [unfold tasks, listing; handler_answers|].
  split; [unfold approvals, listing; handler_answers|].
  split; [unfold search_users, search; handler_answers|].
  split; [unfold search_groups, search; handler_answers|].
  unfold debug_session; handler_answers.
Qed.

(** *** The provenance tag *)

Lemma append_assoc (a b c : string) : (a +:+ b) +:+ c = a +:+ (b +:+ c).
Proof.
  induction a as [|x a IH]; [done|].
  change (String x ((a +:+ b) +:+ c) = String x (a +:+ (b +:+ c))). by rewrite IH.
Qed.

Lemma journalEntry_tagged r e : journalEntry r = Ok e → tagged e.
Proof.
  unfold journalEntry, rbind. intros H.
  destruct (prop r "element") as [element|]; [|done].
  destruct (toStr (js_or element (JStr ""))) as [el|]; [|done].
  destruct (toStr (js_or (oprop r "value") (JStr ""))) as [v|]; [|done].
  destruct (toStr (oprop r "sys_created_by")) as [author|] eqn:Hauthor; [|done].
  inversion H; subst. exists author. cbn [by_ text].
  destruct (nonempty (trim v)); [exists (trim v)|exists ""]; (split; [exact Hauthor|reflexivity]).
Qed.

Lemma auditRow_tagged seen r w e w' : auditRow seen r w = (Ok (Some e), w') → tagged e.
Proof.
  intros H. apply auditRow_inv in H as (f0 & _ & _ & H). cbv zeta in H.
  destruct H as [(? & _)|(vals & text & _ & _ & Htext & Hsome)]; [done|].
  inversion Hsome; subst e.
  apply audit_text_ok in Htext as (author & os & ns & Hauthor & _ & _ & ->).
  exists author. eexists. split; [exact Hauthor|]. cbn [text].
  by rewrite <- !append_assoc.
Qed.

(** X30. Every entry of the narrative names its author: the text of each
    entry, journal or field change, ends in the provenance tag
    " #Cont. by " followed by the string form of the entry's author. *)
Theorem every_entry_is_tagged session sys_id w es w' :
  narrative_entries session sys_id w = (Ok es, w') →
  Forall tagged es.
Proof.
  intros H. apply narrative_entries_inv in H
    as (jf & w1 & au & w2 & jrows & journal & arows & slots &
        _ & _ & _ & Hjournal & _ & Hslots & Hsort).
  rewrite (sort_entries_perm _ _ Hsort). clear Hsort. apply Forall_app. split.
  - apply mapR_Forall2 in Hjournal. clear Hslots.
    induction Hjournal as [|r e ? ? Hr _ IH]; [done|].
    constructor; [by eapply journalEntry_tagged|exact IH].
  - apply audit_slots_inv in Hslots as (seen & _ & Hall). clear Hjournal.
    induction Hall as [|r s ? ? (wi & wi' & Hr) _ IH]; [done|].
    destruct s as [e|]; simpl; [|exact IH].
    constructor; [by eapply auditRow_tagged|exact IH].
Qed.

(** ** The calls on the wire *)

(** What a call through [sn] does with the default options, attempt by
    attempt: the reply to the request decides, and when it fails the
    reply to the same request sent again. *)
Lemma sn_cases using_ method path body w :
  let rq := request_of using_ method path body in
  let r1 := upstream (length (fetched w)) rq in
  let r2 := upstream (S (length (fetched w))) rq in
  sn using_ method path body w =
  if failed_reply r1 then
    if failed_reply r2 then
      (Throw (reply_error r2),
       mkWorld (calls w ++ [rq]) (fetched w ++ [rq; rq])
               (clock w + elapsed_of r1 + 200 + elapsed_of r2) (nameCache w))
    else
      (Ok (reply_data r2),
       mkWorld (calls w ++ [rq]) (fetched w ++ [rq; rq])
               (clock w + elapsed_of r1 + 200 + elapsed_of r2) (nameCache w))
  else
    (Ok (reply_data r1),
     mkWorld (calls w ++ [rq]) (fetched w ++ [rq]) (clock w + elapsed_of r1) (nameCache w)).
Proof.
  intros rq r1 r2.
  assert (∀ w1, fetched w1 = fetched w ++ [rq] →
            sn_attempts default_opts rq 0 1 w1 =
            if failed_reply r2
            then (Throw (reply_error r2),
                  mkWorld (calls w1) (fetched w ++ [rq; rq])
                          (clock w1 + elapsed_of r2) (nameCache w1))
            else (Ok (SnData (reply_data r2)),
                  mkWorld (calls w1) (fetched w ++ [rq; rq])
                          (clock w1 + elapsed_of r2) (nameCache w1))) as Hsecond.
  { intros w1 Hf. rewrite sn_attempts_last by done.
    unfold bind at 1, fetch at 1. rewrite Hf, length_app.
    change (length [rq]) with 1%nat. rewrite Nat.add_1_r. fold r2.
    rewrite <- app_assoc. change ([rq] ++ [rq]) with [rq; rq].
    destruct r2 as [e2 t2|res2 t2]; cbn [failed_reply reply_error reply_data elapsed_of].
    - reflexivity.
    - by destruct (accepted res2). }
  unfold sn, sn_opts. fold rq.
  unfold bind at 1 2, log_call at 1.
  change (retries default_opts <? 0) with false. cbv iota.
  change (Z.to_nat (retries default_opts)) with 1%nat.
  rewrite sn_attempts_step by done.
  unfold bind at 1, fetch at 1. cbn [fetched calls clock nameCache]. fold r1.
  destruct r1 as [e1 t1|res1 t1]; cbn [failed_reply elapsed_of].
  - unfold bind at 1, sleep at 1. cbn [fetched calls clock nameCache].
    rewrite Hsecond by done. cbn [fetched calls clock nameCache].
    change (100 * 2 ^ (0 + 1)) with 200.
    by destruct (failed_reply r2).
  - destruct (accepted res1); cbn [negb].
    + reflexivity.
    + unfold bind at 1, sleep at 1. cbn [fetched calls clock nameCache].
      rewrite Hsecond by done. cbn [fetched calls clock nameCache].
      change (100 * 2 ^ (0 + 1)) with 200.
      by destruct (failed_reply r2).
Qed.


(** The requests a call sends. *)
Lemma sn_sent using_ method path body w r w' :
  sn using_ method path body w = (r, w') →
  calls w' = calls w ++ [request_of using_ method path body] ∧
  fetched w' = fetched w ++ sent w (request_of using_ method path body).
Proof.
  rewrite sn_cases. cbv zeta. unfold sent.
  destruct (failed_reply (upstream (length (fetched w)) _));
    [destruct (failed_reply (upstream (S (length (fetched w))) _))|];
    intros H; inversion H; subst; done.
Qed.

(** What [sn] returns when the reply to its first attempt does not
    fail. *)
Lemma sn_first_attempt using_ method path body w :
  failed_reply (upstream (length (fetched w)) (request_of using_ method path body)) = false →
  sn using_ method path body w =
    (Ok (reply_data (upstream (length (fetched w)) (request_of using_ method path body))),
     after_call w (request_of using_ method path body)).
Proof. intros H. rewrite sn_cases. cbv zeta. by rewrite H. Qed.


(** *** The activity reconciler: failures *)


(** *** The record update pipeline: the scenario *)

(** C4. For the update body [{state: "2", work_notes: "checking now"}]
    of a session whose acting identity label is "jdoe", once the
    snapshot read has returned a record document and the structured
    write has succeeded, the pipeline makes three calls: the snapshot
    read, one structured-field PATCH of the record with the payload
    [{state: "2"}], and one separate journal PATCH (display-value write
    mode) with the payload
    [{work_notes: "checking now\n#Cont. by jdoe"}].  The requests sent
    are those of the three calls in this order, each once, and once more
    only for a call whose first attempt failed; in a run where no
    attempt fails exactly these three requests are sent and the answer
    is [ok].  The answer is [ok] when the journal write succeeds and
    "Update failed" when it does not. *)
Theorem update_scenario session table sys_id w cur w1 r1 w2 :
  let acting := pickActingCreds session in
  let rq_get := request_of acting "GET" (snapshot_path table sys_id) None in
  let rq_fields :=
    request_of acting "PATCH" (record_path table sys_id) (Some scenario_fields) in
  let rq_notes :=
    request_of acting "PATCH" (notes_path table sys_id) (Some scenario_notes) in
  contributorFromSession session = JStr "jdoe" →
  sn acting "GET" (snapshot_path table sys_id) None w = (Ok cur, w1) →
  cur ≠ JNull → cur ≠ JUndefined →
  sn acting "PATCH" (record_path table sys_id) (Some scenario_fields) w1 = (Ok r1, w2) →
  ∃ reply w3,
    update session table sys_id scenario_body w = (Ok reply, w3) ∧
    calls w3 = calls w ++ [rq_get; rq_fields; rq_notes] ∧
    fetched w3 = fetched w ++ sent w rq_get ++ sent w1 rq_fields ++ sent w2 rq_notes ∧
    (failed_reply (upstream (length (fetched w)) rq_get) = false →
     failed_reply (upstream (S (length (fetched w))) rq_fields) = false →
     failed_reply (upstream (S (S (length (fetched w)))) rq_notes) = false →
     fetched w3 = fetched w ++ [rq_get; rq_fields; rq_notes] ∧
     reply = mkHttp 200 (JObj [("ok", JBool true); ("result", JBool true)])) ∧
    match sn acting "PATCH" (notes_path table sys_id) (Some scenario_notes) w2 with
    | (Ok _, _) => reply = mkHttp 200 (JObj [("ok", JBool true); ("result", JBool true)])
    | (Throw e, _) => reply = mkHttp 500 (failure_body "Update failed" (err_detail e))
    end.
Proof.
  intros acting rq_get rq_fields rq_notes Hwho Hget Hn Hu Hpatch.
  pose proof (sn_sent _ _ _ _ _ _ _ Hget) as (Hc1 & Hf1).
  pose proof (sn_sent _ _ _ _ _ _ _ Hpatch) as (Hc2 & Hf2).
  fold rq_get in Hc1, Hf1. fold rq_fields in Hc2, Hf2.
  assert (∀ reply w3,
            sn acting "PATCH" (notes_path table sys_id) (Some scenario_notes) w2
              = (reply, w3) →
            calls w3 = calls w ++ [rq_get; rq_fields; rq_notes] ∧
            fetched w3 = fetched w ++ sent w rq_get ++ sent w1 rq_fields ++ sent w2 rq_notes ∧
            (failed_reply (upstream (length (fetched w)) rq_get) = false →
             failed_reply (upstream (S (length (fetched w))) rq_fields) = false →
             failed_reply (upstream (S (S (length (fetched w)))) rq_notes) = false →
             fetched w3 = fetched w ++ [rq_get; rq_fields; rq_notes] ∧
             ∃ d, reply = Ok d)) as Hwire.
  { intros reply w3 Hnotes.
    pose proof (sn_sent _ _ _ _ _ _ _ Hnotes) as (Hc3 & Hf3).
    fold rq_notes in Hc3, Hf3.
    split; [by rewrite Hc3, Hc2, Hc1, <- !app_assoc|].
    split; [by rewrite Hf3, Hf2, Hf1, <- !app_assoc|].
    intros H1 H2 H3.
    assert (length (fetched w1) = S (length (fetched w))) as Hl1.
    { rewrite Hf1. unfold sent. rewrite H1, length_app. simpl. lia. }
    assert (length (fetched w2) = S (S (length (fetched w)))) as Hl2.
    { rewrite Hf2. unfold sent. rewrite Hl1, H2, length_app, Hl1. simpl. lia. }
    split.
    - rewrite Hf3, Hf2, Hf1. unfold sent. rewrite Hl2, Hl1, H1, H2, H3.
      by rewrite <- !app_assoc.
    - rewrite <- Hl2 in H3. fold rq_notes in H3.
      rewrite (sn_first_attempt _ _ _ _ _ H3) in Hnotes.
      inversion Hnotes. by eexists. }
  unfold update, try_catch. fold acting.
  rewrite (bind_ok _ _ _ _ _ Hget).
  rewrite (bind_lift_ok _ _ _ _ (prop_defined _ _ Hn Hu)).
  cbv zeta.
  cbn [scenario_body js_or truthy nonempty negb oprop own from_option String.eqb
       Ascii.eqb Bool.eqb is_undefined norm spread app pickId].
  rewrite !bind_ret. cbn [spread is_undefined app]. fold scenario_fields.
  rewrite (bind_ok _ _ _ _ _ Hpatch).
  rewrite Hwho.
  change (typed scenario_body "work_notes") with (Ok (A:=option string) (Some "checking now")).
  change (typed scenario_body "comments") with (Ok (A:=option string) None).
  rewrite (bind_lift_ok _ _ _ _ eq_refl), (bind_lift_ok _ _ _ _ eq_refl).
  change (note (JStr "jdoe") "work_notes" (Some "checking now"))
    with (Ok [("work_notes", JStr ("checking now" +:+ nl +:+ "#Cont. by jdoe"))]).
  change (note (JStr "jdoe") "comments" None) with (Ok (A:=list (string * JVal)) []).
  rewrite (bind_lift_ok _ _ _ _ eq_refl), (bind_lift_ok _ _ _ _ eq_refl).
  cbn [app]. fold scenario_notes.
  destruct (sn acting "PATCH" (notes_path table sys_id) (Some scenario_notes) w2)
    as [[r3|e3] w3] eqn:Hnotes;
    destruct (Hwire _ _ eq_refl) as (Hcalls & Hfetched & Hclean).
  - rewrite (bind_ok _ _ _ _ _ Hnotes). eexists _, _. split; [reflexivity|].
    split; [exact Hcalls|]. split; [exact Hfetched|]. split; [|reflexivity].
    intros H1 H2 H3. by destruct (Hclean H1 H2 H3) as [-> _].
  - rewrite (bind_throw _ _ _ _ _ Hnotes). eexists _, _. split; [reflexivity|].
    split; [exact Hcalls|]. split; [exact Hfetched|]. split; [|reflexivity].
    intros H1 H2 H3. by destruct (Hclean H1 H2 H3) as (_ & d & Hd).
Qed.

End Server.

(** ** The properties at concrete inputs *)

(** The string built-ins above the ASCII range: [trim] removes a
    no-break space (U+00A0) and a line separator (U+2028), and
    [toLowerCase] lowers the KELVIN SIGN (U+212A) to k. *)
Example trim_removes_unicode_white_space :
  trim (String "194" (String "160" " open" +:+ String "226" (String "128" (String "168" ""))))
  = "open".
Proof. reflexivity. Qed.

Example toLowerCase_lowers_the_kelvin_sign :
  toLowerCase ("WOR" +:+ String "226" (String "132" (String "170" "_NOTES"))) = "work_notes".
Proof. reflexivity. Qed.

(** C1 (defect of the code). A 404 is retried: with the default budget of
    one retry, a call whose every answer is HTTP 404 sends two requests
    before it fails with the error carrying that status, where the retry
    policy reports a 4xx at once. *)
Theorem sn_retries_a_404 :
  let '(r, w') :=
    sn "dev.service-now.com" no_parse no_stringify (always not_found)
       demo_creds "GET" "/api/now/table/incident/1" None demo_world in
  length (fetched w') = 2%nat ∧
  ∃ e, r = Throw e ∧ err_httpStatus e = Some 404.
Proof. vm_compute. split; [reflexivity|]. eexists. split; reflexivity. Qed.



(** A request without an Authorization header whose query string carries
    the token of the live session. *)
Lemma query_token_authenticates_witness :
  requireAuth demo_sessions
    (mkAuthInput None (JObj [("token", JStr demo_token)])) = Next demo_session demo_token ∧
  requireAuth demo_sessions
    (mkAuthInput (Some ("Bearer " +:+ demo_token)) (JObj [])) = Next demo_session demo_token.
Proof.
  apply (query_token_authenticates demo_sessions
           (mkAuthInput None (JObj [("token", JStr demo_token)])) demo_token demo_session).
  - intros h Hh. discriminate Hh.
  - reflexivity.
  - discriminate.
  - reflexivity.
Defined.

(** A canonical identifier, against an upstream that would answer 404. *)
Lemma resolveRef_canonical_witness :
  canonical_shape demo_id ∧
  resolveRef "dev.service-now.com" no_parse no_stringify same_string (always not_found)
    demo_creds "sys_user" (JStr demo_id) demo_world = (Ok (JStr demo_id), demo_world).
Proof.
  assert (canonical_shape demo_id) as H.
  { split; [reflexivity|]. apply (bool_decide_unpack _). vm_compute. exact I. }
  split; [exact H|].
  apply (resolveRef_canonical "dev.service-now.com" no_parse no_stringify same_string
           (always not_found) demo_creds "sys_user" demo_id demo_world H).
Defined.

(** C6, as stated, fails: with the only entry expired (expiry 300000, the
    clock at 400000) and the upstream unreachable, the resolution sends
    its two requests, answers the identifier, and the cache still holds
    the stale entry: it has not been replaced. *)
Lemma expired_entry_kept_when_refetch_fails :
  let key := cache_key "sys_user" demo_id in
  let '(r, w') :=
    _resolveDisplayName "dev.service-now.com" no_parse no_stringify
      (always connection_reset) demo_creds "sys_user" (Some demo_id) stale_world in
  nameCache stale_world !! key = Some (mkEntry (JStr "Old Name") 300000) ∧
  300000 ≤ clock stale_world ∧
  r = Ok (JStr demo_id) ∧
  length (fetched w') = 2%nat ∧
  nameCache w' !! key = Some (mkEntry (JStr "Old Name") 300000).
Proof. vm_compute. repeat split; try reflexivity. discriminate. Qed.

(** The expired entry of [stale_world], against an upstream that knows the
    user: the fetched name is answered and cached until 700000. *)
Lemma expired_entry_is_refetched_witness :
  demo_id ≠ "" ∧
  _resolveDisplayName "dev.service-now.com" demo_parse no_stringify named_upstream
    demo_creds "sys_user" (Some demo_id) stale_world =
  (Ok (JStr "New Name"),
   mkWorld
     [request_of "dev.service-now.com" demo_creds "GET"
        (display_name_path "sys_user" demo_id) None]
     [request_of "dev.service-now.com" demo_creds "GET"
        (display_name_path "sys_user" demo_id) None]
     400000
     {[ cache_key "sys_user" demo_id := mkEntry (JStr "New Name") 700000 ]}).
Proof.
  split; [discriminate|].
  destruct (expired_entry_is_refetched "dev.service-now.com" demo_parse no_stringify
              named_upstream demo_creds "sys_user" demo_id stale_world) as [A _];
    [discriminate|].
  destruct (A (mkEntry (JStr "Old Name") 300000)
              (Ok (JObj [("result", JObj [("name", JStr "New Name")])]))
              (mkWorld
                 [request_of "dev.service-now.com" demo_creds "GET"
                    (display_name_path "sys_user" demo_id) None]
                 [request_of "dev.service-now.com" demo_creds "GET"
                    (display_name_path "sys_user" demo_id) None]
                 400000 (nameCache stale_world))) as (_ & -> & _).
  - reflexivity.
  - vm_compute. discriminate.
  - vm_compute. reflexivity.
  - vm_compute. reflexivity.
Defined.

(** C3 (defect of the code). The status change is audited under both
    field names at one instant, and the timestamp of each row comes with
    its display value, an object, as the query of the feed asks for it.
    The two rows carry the identical timestamp, yet the set of seen
    timestamps, which tells objects apart by identity, finds no object:
    the alias row is not discarded, and the narrative shows the
    transition twice. *)
Theorem same_instant_shown_twice :
  (∀ seen ps, seen_has seen (JObj ps) = false) ∧
  (is_field "state" <$> twin_rows) = [true; false] ∧
  (is_field "incident_state" <$> twin_rows) = [false; true] ∧
  ((λ r, oprop r "sys_created_on") <$> twin_rows) =
    [labelled demo_stamp demo_stamp; labelled demo_stamp demo_stamp] ∧
  fst (activity "dev.service-now.com" "svc" "secret" "true" demo_parse no_stringify
         same_string bytewise ascii_upper twin_upstream demo_session "incident" "abc"
         demo_world)
  = Ok (mkHttp 200
          (JObj [("ok", JBool true);
                 ("result",
                  JStr (join nl
                    ["[[object Object]] asmith " +:+ placeholder +:+ " FIELD" +:+ nl +:+
                     "state: New " +:+ arrow +:+ " In Progress #Cont. by asmith";
                     "[[object Object]] asmith " +:+ placeholder +:+ " FIELD" +:+ nl +:+
                     "state: New " +:+ arrow +:+ " In Progress #Cont. by asmith";
                     "[2024-05-01 10:00:00] jdoe " +:+ placeholder +:+ " WORK_NOTES" +:+
                     nl +:+ "checking now #Cont. by jdoe"]))])).
Proof.
  split; [|vm_compute; repeat split; reflexivity].
  intros seen ps. unfold seen_has. induction seen as [|x seen IH]; [reflexivity|].
  destruct x; exact IH.
Qed.



(** C8, as stated, fails: a string with white space at its ends is a
    plain scalar, and unwrapping it does not return its string form
    unchanged. *)
Lemma unwrap_changes_padded_scalar :
  js_String (JStr " open ") = Some " open " ∧
  unwrapAuditVal (JStr " open ") = "open" ∧
  unwrapAuditVal (JStr " open ") ≠ " open ".
Proof. repeat split. discriminate. Qed.

(** A label and a number unwrap to themselves, and a priority change
    from [null] shows the placeholder as its old value. *)
Lemma unwrap_trims_then_placeholder_witness :
  unwrapAuditVal (JStr "In Progress") = "In Progress" ∧
  unwrapAuditVal (JNum "1e+21") = "1e+21" ∧
  ∃ e w',
    auditRow "dev.service-now.com" "svc" "secret" demo_parse no_stringify feeds_upstream []
      (audit_row "2024-04-30 08:00:00" "asmith" "priority" JNull (JStr "3"))
      demo_world = (Ok (Some e), w') ∧
    text e = "priority: " +:+ placeholder +:+ " " +:+ arrow +:+ " 3 #Cont. by asmith".
Proof.
  destruct (unwrap_trims_then_placeholder "dev.service-now.com" "svc" "secret"
              demo_parse no_stringify feeds_upstream)
    as (_ & Hclean & Hnum & _ & _ & Hshown).
  split; [exact (Hclean "In Progress" eq_refl)|].
  split; [exact (Hnum "1e+21" eq_refl)|].
  eassert (auditRow "dev.service-now.com" "svc" "secret" demo_parse no_stringify
             feeds_upstream []
             (audit_row "2024-04-30 08:00:00" "asmith" "priority" JNull (JStr "3"))
             demo_world = (Ok (Some _), _)) as Hrun.
  { vm_compute. reflexivity. }
  eexists _, _. split; [exact Hrun|].
  destruct (Hshown _ _ _ _ _ Hrun) as (f0 & o & n & author & _ & _ & _ & Hold & _).
  pose proof (Hold eq_refl) as Ho. reflexivity.
Defined.


(** The update scenario against an upstream that accepts every request
    at once: three calls, three requests on the wire, the answer
    [ok]. *)
Lemma update_scenario_witness :
  contributorFromSession demo_session = JStr "jdoe" ∧
  ∃ w3,
    update "dev.service-now.com" "svc" "secret" "true" demo_parse no_stringify same_string
      record_upstream demo_session "incident" demo_id scenario_body demo_world =
    (Ok (mkHttp 200 (JObj [("ok", JBool true); ("result", JBool true)])), w3) ∧
    calls w3 =
      [request_of "dev.service-now.com" (mkCreds "dev.service-now.com" "svc" "secret")
         "GET" (snapshot_path "incident" demo_id) None;
       request_of "dev.service-now.com" (mkCreds "dev.service-now.com" "svc" "secret")
         "PATCH" (record_path "incident" demo_id) (Some scenario_fields);
       request_of "dev.service-now.com" (mkCreds "dev.service-now.com" "svc" "secret")
         "PATCH" (notes_path "incident" demo_id) (Some scenario_notes)] ∧
    fetched w3 =
      [request_of "dev.service-now.com" (mkCreds "dev.service-now.com" "svc" "secret")
         "GET" (snapshot_path "incident" demo_id) None;
       request_of "dev.service-now.com" (mkCreds "dev.service-now.com" "svc" "secret")
         "PATCH" (record_path "incident" demo_id) (Some scenario_fields);
       request_of "dev.service-now.com" (mkCreds "dev.service-now.com" "svc" "secret")
         "PATCH" (notes_path "incident" demo_id) (Some scenario_notes)].
Proof.
  split; [reflexivity|].
  eassert (sn "dev.service-now.com" demo_parse no_stringify record_upstream
             (pickActingCreds "dev.service-now.com" "svc" "secret" "true" demo_session)
             "GET" (snapshot_path "incident" demo_id) None demo_world = (Ok _, _)) as Hget.
  { vm_compute. reflexivity. }
  eassert (sn "dev.service-now.com" demo_parse no_stringify record_upstream
             (pickActingCreds "dev.service-now.com" "svc" "secret" "true" demo_session)
             "PATCH" (record_path "incident" demo_id) (Some scenario_fields) _
           = (Ok _, _)) as Hpatch.
  { vm_compute. reflexivity. }
  destruct (update_scenario "dev.service-now.com" "svc" "secret" "true" demo_parse
              no_stringify same_string record_upstream demo_session "incident" demo_id
              demo_world _ _ _ _ eq_refl Hget ltac:(discriminate) ltac:(discriminate)
              Hpatch) as (reply & w3 & Hrun & Hcalls & _ & Hclean & _).
  destruct (Hclean eq_refl eq_refl eq_refl) as [Hfetched ->].
  exists w3. split; [exact Hrun|]. split; [exact Hcalls|exact Hfetched].
Defined.

(** ** The further properties at concrete inputs *)

(** Two 404 answers: the default budget of one retry is used up. *)
Lemma sn_sends_within_budget_witness :
  0 ≤ retries default_opts ∧
  ∃ r w',
    sn_opts "dev.service-now.com" no_parse no_stringify (always not_found)
      demo_creds "GET" "/api/now/table/incident/1" None default_opts demo_world = (r, w') ∧
    ∃ n, (1 ≤ n)%nat ∧ Z.of_nat n ≤ retries default_opts + 1 ∧
      fetched w' = fetched demo_world ++
        replicate n (request_of "dev.service-now.com" demo_creds "GET"
                       "/api/now/table/incident/1" None).
Proof.
  assert (0 ≤ retries default_opts) as Hbudget by (simpl; lia).
  split; [exact Hbudget|].
  eassert (sn_opts "dev.service-now.com" no_parse no_stringify (always not_found)
             demo_creds "GET" "/api/now/table/incident/1" None default_opts demo_world
           = (_, _)) as Hrun.
  { vm_compute. reflexivity. }
  eexists _, _. split; [exact Hrun|].
  exact (proj2 (proj2 (sn_sends_within_budget _ _ _ _ _ _ _ _ _ _ _ _ Hbudget Hrun))).
Defined.

(** The record document, served at once. *)
Lemma sn_returns_an_accepted_document_witness :
  ∃ d w',
    sn "dev.service-now.com" demo_parse no_stringify record_upstream
      demo_creds "GET" "/api/now/table/incident/1" None demo_world = (Ok d, w') ∧
    is_failure_marker (oprop d "status") = false ∧ truthy (oprop d "error") = false.
Proof.
  eassert (sn "dev.service-now.com" demo_parse no_stringify record_upstream
             demo_creds "GET" "/api/now/table/incident/1" None demo_world = (Ok _, _))
    as Hrun.
  { vm_compute. reflexivity. }
  eexists _, _. split; [exact Hrun|].
  destruct (sn_returns_an_accepted_document _ _ _ _ _ _ _ _ _ _ _ Hrun)
    as (n & res & t & _ & _ & _ & _ & Hmarker & Herror).
  split; [exact Hmarker|exact Herror].
Defined.

(** A 503 and then the record: two requests, 200 ms apart. *)
Lemma sn_recovers_on_second_attempt_witness :
  failed_reply demo_parse unavailable = true ∧
  accepted demo_parse (mkResponse 200 "OK" (Some "record")) = true ∧
  ∃ w',
    sn "dev.service-now.com" demo_parse no_stringify flaky_upstream
      demo_creds "GET" "/api/now/table/incident/1" None demo_world
    = (Ok (JObj [("result", JObj [])]), w') ∧
    clock w' = 200 ∧ length (fetched w') = 2%nat.
Proof.
  split; [reflexivity|]. split; [reflexivity|].
  eexists. split.
  - exact (sn_recovers_on_second_attempt "dev.service-now.com" demo_parse no_stringify
             flaky_upstream demo_creds "GET" "/api/now/table/incident/1" None demo_world
             unavailable (mkResponse 200 "OK" (Some "record")) 0
             eq_refl eq_refl eq_refl eq_refl).
  - split; reflexivity.
Defined.

(** A budget of three retries against an upstream that resets every
    connection at once: four requests, and waits of 200, 400 and 800 ms. *)
Lemma sn_backs_off_exponentially_witness :
  returnRaw patient_opts = false ∧ 0 ≤ retries patient_opts ∧
  ∃ e w',
    sn_opts "dev.service-now.com" no_parse no_stringify (always connection_reset)
      demo_creds "GET" "/api/now/table/incident/1" None patient_opts demo_world
    = (Throw e, w') ∧
    clock w' = 1400 ∧ length (fetched w') = 4%nat.
Proof.
  split; [reflexivity|].
  assert (0 ≤ retries patient_opts) as Hbudget by (simpl; lia).
  split; [exact Hbudget|].
  destruct (sn_backs_off_exponentially "dev.service-now.com" no_parse no_stringify
              (always connection_reset) demo_creds "GET" "/api/now/table/incident/1" None
              patient_opts demo_world eq_refl Hbudget)
    as (e & w' & Hrun & Hclock & Hfetched).
  { intros n. split; reflexivity. }
  exists e, w'. split; [exact Hrun|]. split.
  - rewrite Hclock. reflexivity.
  - rewrite Hfetched. reflexivity.
Defined.

(** The bearer token of the live session. *)
Lemma requireAuth_sound_witness :
  requireAuth demo_sessions (mkAuthInput (Some ("Bearer " +:+ demo_token)) (JObj []))
    = Next demo_session demo_token ∧
  demo_sessions !! demo_token = Some demo_session ∧ demo_token ≠ "".
Proof.
  assert (requireAuth demo_sessions
            (mkAuthInput (Some ("Bearer " +:+ demo_token)) (JObj []))
          = Next demo_session demo_token) as Hnext by reflexivity.
  split; [exact Hnext|].
  exact (requireAuth_sound _ _ _ _ Hnext).
Defined.

(** A stale bearer token beside the token of the live session in the
    query: the request is refused. *)
Lemma bearer_header_shadows_query_witness :
  startsWith "Bearer stale" "Bearer " = true ∧
  demo_sessions !! string_drop 7 "Bearer stale" = None ∧
  ∃ r, requireAuth demo_sessions
         (mkAuthInput (Some "Bearer stale") (JObj [("token", JStr demo_token)]))
       = Rejected401 r ∧ http_status r = 401.
Proof.
  split; [reflexivity|]. split; [reflexivity|].
  exact (proj2 (bearer_header_shadows_query demo_sessions "Bearer stale"
                  (JObj [("token", JStr demo_token)]) eq_refl) eq_refl).
Defined.

(** A group given by its name, which the upstream knows. *)
Lemma resolveRef_keeps_emptiness_witness :
  ∃ w',
    resolveRef "dev.service-now.com" portal_parse no_stringify same_string
      (always (ok_body "group")) demo_creds "sys_user_group" (JStr "Service Desk")
      demo_world = (Ok (JStr demo_id), w') ∧
    truthy (JStr demo_id) = truthy (pickId (JStr "Service Desk")) ∧
    ∃ l, calls w' = calls demo_world ++ l ∧ Forall is_get l ∧ (length l ≤ 1)%nat.
Proof.
  eassert (resolveRef "dev.service-now.com" portal_parse no_stringify same_string
             (always (ok_body "group")) demo_creds "sys_user_group" (JStr "Service Desk")
             demo_world = (Ok (JStr demo_id), _)) as Hrun.
  { vm_compute. reflexivity. }
  eexists. split; [exact Hrun|].
  destruct (resolveRef_keeps_emptiness _ _ _ _ _ _ _ _ _ _ _ Hrun) as (Hcalls & _ & Hkeeps).
  split; [exact (Hkeeps _ eq_refl)|exact Hcalls].
Defined.

(** The name of the user [demo_id], read once and then served from the
    cache to another caller. *)
Lemma resolved_name_is_served_from_cache_witness :
  demo_id ≠ "" ∧
  ∃ stored,
    _resolveDisplayName "dev.service-now.com" demo_parse no_stringify named_upstream
      demo_creds "sys_user" (Some demo_id) demo_world = (Ok (JStr "New Name"), stored) ∧
    length (calls stored) = 1%nat ∧
    _resolveDisplayName "dev.service-now.com" demo_parse no_stringify named_upstream
      (mkCreds "dev.service-now.com" "jdoe" "pw") "sys_user" (Some demo_id) stored
    = (Ok (JStr "New Name"), stored).
Proof.
  assert (demo_id ≠ "") as Hid by discriminate.
  split; [exact Hid|].
  eassert (sn "dev.service-now.com" demo_parse no_stringify named_upstream demo_creds
             "GET" (display_name_path "sys_user" demo_id) None demo_world = (Ok _, _))
    as Hsn.
  { vm_compute. reflexivity. }
  epose proof (resolved_name_is_served_from_cache "dev.service-now.com" demo_parse
                 no_stringify named_upstream demo_creds
                 (mkCreds "dev.service-now.com" "jdoe" "pw") "sys_user" demo_id demo_world
                 _ _ _ Hid ltac:(intros h Hh; discriminate Hh) Hsn) as Hboth.
  cbv zeta in Hboth. destruct Hboth as [Hfirst Hsecond].
  eexists. split; [exact Hfirst|]. split; [reflexivity|].
  apply Hsecond; reflexivity.
Defined.

(** A reference with a label and a value unwraps to the label. *)
Lemma unwrap_prefers_display_value_witness :
  unwrapAuditVal (labelled "In Progress" "2") = "In Progress".
Proof.
  exact (proj1 (unwrap_prefers_display_value
                  [("display_value", JStr "In Progress"); ("value", JStr "2")])
               (JStr "In Progress") eq_refl).
Defined.

(** The two example feeds: one journal row and three audit rows, one of
    them a doubled alias, make three entries. *)
Lemma narrative_accounts_for_every_row_witness :
  ∃ es w',
    narrative_entries "dev.service-now.com" "svc" "secret" "true" demo_parse no_stringify
      same_string bytewise ascii_upper feeds_upstream demo_session "abc" demo_world
      = (Ok es, w') ∧
    length es = 3%nat ∧
    ∃ jrows arows seen : list JVal,
      length es =
        (length jrows + length (List.filter (λ r, negb (left_out seen r)) arows))%nat.
Proof.
  eassert (narrative_entries "dev.service-now.com" "svc" "secret" "true" demo_parse
             no_stringify same_string bytewise ascii_upper feeds_upstream demo_session "abc"
             demo_world = (Ok _, _)) as Hrun.
  { vm_compute. reflexivity. }
  eexists _, _. split; [exact Hrun|]. split; [reflexivity|].
  destruct (narrative_accounts_for_every_row _ _ _ _ _ _ _ _ _ _ _ _ _ _ _ Hrun)
    as (jf & w1 & au & w2 & jrows & arows & seen & _ & _ & _ & _ & _ & Hlen).
  exists jrows, arows, seen. exact Hlen.
Defined.

(** An update whose body holds an empty state and a null description:
    one call, the answer [ok]. *)
Lemma update_without_changes_writes_nothing_witness :
  (∀ k, k ∈ plain_fields → norm (oprop idle_body k) = JUndefined) ∧
  (∀ k, k ∈ special_fields → oprop idle_body k = JUndefined) ∧
  ∃ w',
    update "dev.service-now.com" "svc" "secret" "true" demo_parse no_stringify same_string
      record_upstream demo_session "incident" demo_id idle_body demo_world
    = (Ok (mkHttp 200 (JObj [("ok", JBool true); ("result", JBool true)])), w') ∧
    length (calls w') = 1%nat.
Proof.
  assert (∀ k, k ∈ plain_fields → norm (oprop idle_body k) = JUndefined) as Hplain.
  { intros k Hk.
    repeat (apply elem_of_cons in Hk as [->|Hk]; [reflexivity|]).
    apply elem_of_nil in Hk. destruct Hk. }
  assert (∀ k, k ∈ special_fields → oprop idle_body k = JUndefined) as Hspecial.
  { intros k Hk.
    repeat (apply elem_of_cons in Hk as [->|Hk]; [reflexivity|]).
    apply elem_of_nil in Hk. destruct Hk. }
  split; [exact Hplain|]. split; [exact Hspecial|].
  destruct (update_without_changes_writes_nothing "dev.service-now.com" "svc" "secret"
              "true" demo_parse no_stringify same_string record_upstream demo_session
              "incident" demo_id idle_body demo_world Hplain Hspecial)
    as (reply & w' & Hrun & Hcalls & Hok).
  eassert (sn "dev.service-now.com" demo_parse no_stringify record_upstream
             (pickActingCreds "dev.service-now.com" "svc" "secret" "true" demo_session)
             "GET" (snapshot_path "incident" demo_id) None demo_world = (Ok _, _)) as Hget.
  { vm_compute. reflexivity. }
  destruct (Hok _ _ Hget ltac:(discriminate) ltac:(discriminate)) as [Hreply _].
  exists w'. split; [by rewrite Hrun, Hreply|]. by rewrite Hcalls.
Defined.

(** A user whom the access control keeps from the membership rows: the
    read is made again as the service account; the groups are the two
    that the three rows name. *)
Lemma getUserGroups_falls_back_to_admin_witness :
  grmember_path (JStr "u1") =
    Ok "/api/now/table/sys_user_grmember?sysparm_fields=group&sysparm_query=user=u1&sysparm_limit=500" ∧
  group_ids demo_membership = Ok [JStr "g1"; JStr "g2"] ∧
  ∃ w2,
    getUserGroups "dev.service-now.com" "svc" "secret" portal_parse no_stringify
      acl_upstream user_creds (JStr "u1") demo_world = (Ok [JStr "g1"; JStr "g2"], w2) ∧
    rq_auth <$> calls w2 = [user_creds; demo_creds].
Proof.
  split; [reflexivity|]. split; [reflexivity|].
  eassert (sn "dev.service-now.com" portal_parse no_stringify acl_upstream user_creds "GET"
             _ None demo_world = (Throw _, _)) as Huser.
  { vm_compute. reflexivity. }
  eassert (sn "dev.service-now.com" portal_parse no_stringify acl_upstream
             (adminCreds "dev.service-now.com" "svc" "secret") "GET" _ None _
           = (Ok demo_membership, _)) as Hadmin.
  { vm_compute. reflexivity. }
  destruct (getUserGroups_falls_back_to_admin "dev.service-now.com" "svc" "secret"
              portal_parse no_stringify acl_upstream user_creds (JStr "u1") _ demo_world
              _ _ _ _ _ eq_refl Huser Hadmin eq_refl) as [Hrun Hcalls].
  eexists. split; [exact Hrun|]. rewrite Hcalls. reflexivity.
Defined.

(** A body without a password. *)
Lemma login_requires_both_credentials_witness :
  truthy (oprop (JObj [("username", JStr "jdoe")]) "password") = false ∧
  login "dev.service-now.com" "svc" "secret" "true" portal_parse no_stringify same_string
    login_upstream ∅ demo_token (JObj [("username", JStr "jdoe")]) demo_world =
  (Ok (mkHttp 400 (JObj [("ok", JBool false); ("error", JStr "Missing username/password")]),
       ∅), demo_world).
Proof.
  split; [reflexivity|].
  apply login_requires_both_credentials. right. reflexivity.
Defined.

(** A login of the user jdoe against an upstream that knows the user
    and the groups: the token opens the session check. *)
Lemma login_then_requireAuth_witness :
  demo_token ≠ "" ∧
  ∃ w',
    login "dev.service-now.com" "svc" "secret" "true" portal_parse no_stringify same_string
      login_upstream ∅ demo_token login_body demo_world
    = (Ok (welcome demo_token jdoe_session, <[demo_token := jdoe_session]> ∅), w') ∧
    ∃ s, requireAuth (<[demo_token := jdoe_session]> ∅)
           (mkAuthInput (Some ("Bearer " +:+ demo_token)) (JObj [])) = Next s demo_token ∧
         truthy (userSysId s) = true.
Proof.
  assert (demo_token ≠ "") as Htoken by discriminate.
  split; [exact Htoken|].
  eassert (login "dev.service-now.com" "svc" "secret" "true" portal_parse no_stringify
             same_string login_upstream ∅ demo_token login_body demo_world
           = (Ok (welcome demo_token jdoe_session, <[demo_token := jdoe_session]> ∅), _))
    as Hrun.
  { vm_compute. reflexivity. }
  eexists. split; [exact Hrun|].
  destruct (login_then_requireAuth "dev.service-now.com" "svc" "secret" "true"
              portal_parse no_stringify same_string login_upstream ∅ demo_token login_body
              demo_world _ _ _ (JObj []) Htoken Hrun eq_refl)
    as (_ & s & Hnext & _ & _ & Hid).
  exists s. split; [exact Hnext|exact Hid].
Defined.

(** The same login with the admin-for-all mode off: the session keeps
    the credentials the user typed. *)
Lemma login_session_acts_with_its_creds_witness :
  ∃ w' s,
    login "dev.service-now.com" "svc" "secret" "false" portal_parse no_stringify same_string
      login_upstream ∅ demo_token login_body demo_world
    = (Ok (welcome demo_token jdoe_own_session, <[demo_token := jdoe_own_session]> ∅), w') ∧
    (<[demo_token := jdoe_own_session]> ∅ : gmap string Session) !! demo_token = Some s ∧
    pickActingCreds "dev.service-now.com" "svc" "secret" "false" s = creds s.
Proof.
  eassert (login "dev.service-now.com" "svc" "secret" "false" portal_parse no_stringify
             same_string login_upstream ∅ demo_token login_body demo_world
           = (Ok (welcome demo_token jdoe_own_session,
                  <[demo_token := jdoe_own_session]> ∅), _)) as Hrun.
  { vm_compute. reflexivity. }
  destruct (login_session_acts_with_its_creds "dev.service-now.com" "svc" "secret" "false"
              portal_parse no_stringify same_string login_upstream ∅ demo_token login_body
              demo_world _ _ _ Hrun eq_refl) as (s & Hs & Hacts & _).
  eexists _, s. split; [exact Hrun|]. split; [exact Hs|exact Hacts].
Defined.

(** The decision "maybe". *)
Lemma decide_refuses_unknown_words_witness :
  (toLowerCase "maybe" ∉ passing_decisions) ∧
  decide "dev.service-now.com" "svc" "secret" "true" demo_parse no_stringify
    record_upstream demo_session "a1" (JObj [("decision", JStr "maybe")]) demo_world =
  (Ok (mkHttp 400 (failure_body "Invalid decision" "Use approve|reject")), demo_world).
Proof.
  assert (toLowerCase "maybe" ∉ passing_decisions) as Hword.
  { intros H.
    repeat (apply elem_of_cons in H as [H|H]; [vm_compute in H; discriminate H|]).
    apply elem_of_nil in H. destruct H. }
  split; [exact Hword|].
  exact (decide_refuses_unknown_words "dev.service-now.com" "svc" "secret" "true"
           demo_parse no_stringify record_upstream demo_session "a1"
           (JObj [("decision", JStr "maybe")]) demo_world "maybe" eq_refl Hword).
Defined.

(** The decision "APPROVE" with a comment: one PATCH, with the state
    'approved' and the comment. *)
Lemma decide_normalises_the_decision_witness :
  ∃ reply w',
    decide "dev.service-now.com" "svc" "secret" "true" demo_parse no_stringify
      record_upstream demo_session "a1" approve_body demo_world = (Ok reply, w') ∧
    calls w' =
      [request_of "dev.service-now.com" demo_creds "PATCH" (decide_path "a1")
         (Some (JObj [("state", JStr "approved"); ("comments", JStr "ok")]))].
Proof.
  destruct (decide_normalises_the_decision "dev.service-now.com" "svc" "secret" "true"
              demo_parse no_stringify record_upstream demo_session "a1" approve_body
              demo_world "APPROVE" "approved" eq_refl)
    as (reply & w' & Hrun & Hcalls).
  { left. split; [left|reflexivity]. }
  exists reply, w'. split; [exact Hrun|]. rewrite Hcalls. reflexivity.
Defined.

(** An approval whose row is read and whose target no table can be asked
    for: the answer is still 200, with no target. *)
Lemma approval_details_survive_target_failures_witness :
  ∃ target tbl w',
    approval_details "dev.service-now.com" "svc" "secret" "true" portal_parse no_stringify
      approval_upstream demo_session "a1" demo_world =
    (Ok (mkHttp 200
           (JObj [("ok", JBool true);
                  ("result", JObj [("approval", demo_approval); ("target", target);
                                   ("targetTable", tbl)])])), w') ∧
    found_in candidates target tbl.
Proof.
  eassert (sn "dev.service-now.com" portal_parse no_stringify approval_upstream
             (pickActingCreds "dev.service-now.com" "svc" "secret" "true" demo_session)
             "GET" (approval_path "a1") None demo_world = (Ok _, _)) as Hap.
  { vm_compute. reflexivity. }
  destruct (approval_details_survive_target_failures _ _ _ _ _ _ _ _ _ _ _ _ Hap eq_refl)
    as (target & tbl & w' & l & Hrun & Hfound & _).
  exists target, tbl, w'. split; [exact Hrun|exact Hfound].
Defined.

(** The incidents list of a session that holds a group. *)
Lemma lists_use_the_stored_groups_witness :
  groups grouped_session ≠ [] ∧
  ∃ reply w' l,
    incidents "dev.service-now.com" "svc" "secret" "true" demo_parse no_stringify
      same_string record_upstream grouped_session demo_world = (Ok reply, w') ∧
    calls w' = calls demo_world ++ l ∧ (length l ≤ 1)%nat.
Proof.
  assert (groups grouped_session ≠ []) as Hgroups by discriminate.
  split; [exact Hgroups|].
  destruct (lists_use_the_stored_groups "dev.service-now.com" "svc" "secret" "true"
              demo_parse no_stringify same_string record_upstream
              (incidents "dev.service-now.com" "svc" "secret" "true" demo_parse
                 no_stringify same_string record_upstream)
              grouped_session demo_world ltac:(left) Hgroups)
    as (reply & w' & l & Hrun & Hcalls & Hl & _).
  exists reply, w', l. split; [exact Hrun|]. split; [exact Hcalls|exact Hl].
Defined.

(** A search for three spaces. *)
Lemma blank_search_finds_nothing_witness :
  trim "   " = "" ∧
  search_users "dev.service-now.com" "svc" "secret" "true" demo_parse no_stringify
    same_string record_upstream demo_session (JStr "   ") demo_world =
  (Ok (mkHttp 200 (JObj [("ok", JBool true); ("result", JArr [])])), demo_world).
Proof.
  split; [reflexivity|].
  apply (blank_search_finds_nothing "dev.service-now.com" "svc" "secret" "true"
           demo_parse no_stringify same_string record_upstream).
  - left.
  - right. exists "   ". split; reflexivity.
Defined.

(** The record of a change, asked for with white space around the table
    name, a record asked for without a table, and one asked for with a
    no-break space (U+00A0) as its identifier. *)
Lemma change_record_is_change_details_witness :
  trim " change_request " = "change_request" ∧
  get_record "dev.service-now.com" "svc" "secret" "true" demo_parse no_stringify
    record_upstream demo_session " change_request " "c1" demo_world =
  change_details "dev.service-now.com" "svc" "secret" "true" demo_parse no_stringify
    record_upstream demo_session "c1" demo_world ∧
  get_record "dev.service-now.com" "svc" "secret" "true" demo_parse no_stringify
    record_upstream demo_session "  " "c1" demo_world =
  (Ok (mkHttp 400 (failure_body "Bad request" "Missing table or sys_id")), demo_world) ∧
  get_record "dev.service-now.com" "svc" "secret" "true" demo_parse no_stringify
    record_upstream demo_session "change_request" (String "194" (String "160" ""))
    demo_world =
  (Ok (mkHttp 400 (failure_body "Bad request" "Missing table or sys_id")), demo_world).
Proof.
  split; [reflexivity|].
  destruct (change_record_is_change_details "dev.service-now.com" "svc" "secret" "true"
              demo_parse no_stringify record_upstream demo_session " change_request " "c1"
              demo_world) as [_ Hsame].
  destruct (Hsame eq_refl ltac:(discriminate)) as (reply & reply' & w' & Hd & Hr & _ & Heq).
  split; [|split].
  - change (trim "c1") with "c1" in Hd. rewrite Hd, Hr.
    rewrite (Heq ltac:(vm_compute in Hd; injection Hd as <- _; reflexivity)). reflexivity.
  - apply (change_record_is_change_details "dev.service-now.com" "svc" "secret" "true"
             demo_parse no_stringify record_upstream demo_session "  " "c1" demo_world).
    left. reflexivity.
  - apply (change_record_is_change_details "dev.service-now.com" "svc" "secret" "true"
             demo_parse no_stringify record_upstream demo_session "change_request"
             (String "194" (String "160" "")) demo_world).
    right. reflexivity.
Defined.

(** The entries of the two example feeds. *)
Lemma every_entry_is_tagged_witness :
  ∃ es w',
    narrative_entries "dev.service-now.com" "svc" "secret" "true" demo_parse no_stringify
      same_string bytewise ascii_upper feeds_upstream demo_session "abc" demo_world
      = (Ok es, w') ∧
    length es = 3%nat ∧ Forall tagged es.
Proof.
  eassert (narrative_entries "dev.service-now.com" "svc" "secret" "true" demo_parse
             no_stringify same_string bytewise ascii_upper feeds_upstream demo_session "abc"
             demo_world = (Ok _, _)) as Hrun.
  { vm_compute. reflexivity. }
  eexists _, _. split; [exact Hrun|]. split; [reflexivity|].
  exact (every_entry_is_tagged _ _ _ _ _ _ _ _ _ _ _ _ _ _ _ Hrun).
Defined.
